(** * chromecapture: action capture, stabilisation and session buffer

    A shallow embedding of the recorder's content script ([content.js]) and of
    the session registry of its service worker ([background.js]).

    JavaScript strings are modelled as [string] (sequences of 8-bit code
    units), DOM elements as positions in a tree, timers as an explicit queue
    driven by a virtual clock, and the non-deterministic browser services
    ([Date.now], [crypto.randomUUID], message replies) as inputs. *)

From Stdlib Require Import ZArith List String Ascii Bool Lia DecimalString
  DecimalNat.
From stdpp Require Import gmap strings.
Import ListNotations.

Open Scope string_scope.
Open Scope list_scope.

(** ** JavaScript string primitives *)

Module JsString.

Definition in_range (lo hi : nat) (c : ascii) : bool :=
  let n := nat_of_ascii c in (lo <=? n)%nat && (n <=? hi)%nat.

Definition isUpper (c : ascii) : bool := in_range 65 90 c.
Definition isLower (c : ascii) : bool := in_range 97 122 c.
Definition isAlpha (c : ascii) : bool := isUpper c || isLower c.
Definition isDigit (c : ascii) : bool := in_range 48 57 c.

Definition lower_char (c : ascii) : ascii :=
  if isUpper c then ascii_of_nat (nat_of_ascii c + 32) else c.

(** [String.prototype.toLowerCase]. *)
Fixpoint toLowerCase (s : string) : string :=
  match s with
  | EmptyString => EmptyString
  | String c t => String (lower_char c) (toLowerCase t)
  end.

(** [c.repeat(n)] for a one-character string [c]. *)
Fixpoint repeat (c : ascii) (n : nat) : string :=
  match n with
  | O => EmptyString
  | S k => String c (repeat c k)
  end.

(** [s.includes(sub)]. *)
Fixpoint includes (s sub : string) : bool :=
  String.prefix sub s ||
  match s with
  | EmptyString => false
  | String _ t => includes t sub
  end.

(** [s.charAt(0)]: the empty string when [s] is empty. *)
Definition charAt0 (s : string) : string :=
  match s with
  | EmptyString => EmptyString
  | String c _ => String c EmptyString
  end.

(** Longest prefix whose characters satisfy [p], and the remainder. *)
Fixpoint span (p : ascii -> bool) (s : string) : string * string :=
  match s with
  | EmptyString => (EmptyString, EmptyString)
  | String c t =>
      if p c then let '(a, b) := span p t in (String c a, b)
      else (EmptyString, s)
  end.

(** [a.join(sep)]. *)
Fixpoint join (sep : string) (l : list string) : string :=
  match l with
  | [] => EmptyString
  | [x] => x
  | x :: rest => x +:+ sep +:+ join sep rest
  end.

(** Template-literal rendering of a non-negative integer. *)
Definition of_nat (n : nat) : string := NilEmpty.string_of_uint (Nat.to_uint n).

(** String concatenation with a possibly [undefined] left operand. *)
Definition or_undefined (o : option string) : string :=
  match o with
  | Some s => s
  | None => "undefined"
  end.

(** Every character of [s] is the character [c]. *)
Fixpoint all_char (c : ascii) (s : string) : bool :=
  match s with
  | EmptyString => true
  | String d t => Ascii.eqb d c && all_char c t
  end.

End JsString.

(** ** How a call ends *)

Module Js.

(** A call returns a value or throws. *)
Inductive outcome (A : Type) :=
| Returns (a : A)
| Throws.

Arguments Returns {A} a.
Arguments Throws {A}.

End Js.

(** ** Sensitive-value masking ([ActionRecorder.maskSensitiveData]) *)

Module Masking.
Import JsString.

(** The properties of a form control that masking reads.  [name] and [type]
    are [undefined] on elements that are not form controls. *)
Record field := {
  f_name : option string;
  f_id : string;
  f_className : string;
  f_type : option string
}.

Definition sensitiveFields : list string :=
  ["password"; "credit"; "card"; "cvv"; "ssn"; "secret"].

Definition mask_char : ascii := "*"%char.

(** Character classes of
    [/([a-zA-Z0-9._%+-]+)@([a-zA-Z0-9.-]+\.[a-zA-Z]{2,})/g]. *)
Definition one_of (set : string) (c : ascii) : bool :=
  includes set (String c EmptyString).

Definition isLocalChar (c : ascii) : bool :=
  isAlpha c || isDigit c || one_of "._%+-" c.

Definition isDomainChar (c : ascii) : bool :=
  isAlpha c || isDigit c || one_of ".-" c.

(** [\.[a-zA-Z]{2,}] at the end of the pattern: the greedy quantifier takes
    the whole run of letters.  Returns the matched text and the rest. *)
Definition match_tld (s : string) : option (string * string) :=
  match s with
  | String "."%char t =>
      let '(tld, rest) := span isAlpha t in
      if (2 <=? String.length tld)%nat then Some (String "."%char tld, rest)
      else None
  | _ => None
  end.

(** [[a-zA-Z0-9.-]+\.[a-zA-Z]{2,}] (capture group 2): greedy, giving back
    one character at a time until the top-level domain matches. *)
Fixpoint match_domain (s : string) : option (string * string) :=
  match s with
  | EmptyString => None
  | String c t =>
      if isDomainChar c then
        match match_domain t with
        | Some (d, rest) => Some (String c d, rest)
        | None =>
            match match_tld t with
            | Some (tld, rest) => Some (String c tld, rest)
            | None => None
            end
        end
      else None
  end.

(** The whole pattern anchored at the start of [s]: capture groups 1 and 2
    and the text after the match. *)
Fixpoint match_email (s : string) : option (string * string * string) :=
  match s with
  | EmptyString => None
  | String c t =>
      if isLocalChar c then
        match match_email t with
        | Some (l, d, rest) => Some (String c l, d, rest)
        | None =>
            match t with
            | String "@"%char u =>
                match match_domain u with
                | Some (d, rest) => Some (String c EmptyString, d, rest)
                | None => None
                end
            | _ => None
            end
        end
      else None
  end.

(** [value.replace(emailRegex, (match, local, domain) =>
      local.charAt(0) + '***@' + domain)].
    [skip] counts the characters of the current position that belong to the
    match just replaced; scanning resumes after them. *)
Fixpoint replace_emails (skip : nat) (s : string) : string :=
  match s with
  | EmptyString => EmptyString
  | String c t =>
      match skip with
      | S k => replace_emails k t
      | O =>
          match match_email s with
          | Some (l, d, rest) =>
              (charAt0 l +:+ "***@" +:+ d) +:+
              replace_emails (String.length t - String.length rest) t
          | None => String c (replace_emails 0 t)
          end
      end
  end.

Definition maskSensitiveData (value : string) (element : field) : string :=
  let fieldName :=
    toLowerCase (or_undefined (f_name element) +:+ f_id element
                 +:+ f_className element) in
  if decide (f_type element = Some "password") then
    repeat mask_char (String.length value)
  else if existsb (fun field => includes fieldName field) sensitiveFields then
    repeat mask_char (String.length value)
  else replace_emails 0 value.

End Masking.

(** ** Action records exchanged between the content script and the worker *)

Module Action.

(** The result of [ElementSelector.getElementInfo] as far as the recorder
    reads it back. *)
Record elementInfo := {
  ei_selector : string;
  ei_tag : string
}.

(** An action object built by an event handler.  Absent properties are
    [None].  No handler sets [timestamp]; the property is read by
    [isDuplicateAction] and honoured by the spread in
    [RecordingSession.addAction]. *)
Record action := {
  a_type : string;
  a_element : option elementInfo;
  a_value : option string;
  a_key : option string;
  a_timestamp : option Z;
  a_screenshot : option string
}.

Definition with_screenshot (shot : option string) (a : action) : action :=
  {| a_type := a_type a; a_element := a_element a; a_value := a_value a;
     a_key := a_key a; a_timestamp := a_timestamp a; a_screenshot := shot |}.

(** [action.element?.selector] *)
Definition selector_of (a : action) : option string :=
  ei_selector <$> a_element a.

End Action.

(** ** The session registry of the service worker ([background.js]) *)

Module Background.
Import Action.

(** An entry of [session.actions]:
    [{ id: crypto.randomUUID(), timestamp: Date.now(), ...action }]. *)
Record stored := {
  s_id : string;
  s_timestamp : Z;
  s_action : action
}.

Record metadata := {
  md_title : string;
  md_userAgent : string
}.

(** [class RecordingSession].  [isPaused] is not initialised by the
    constructor: it is [undefined] ([None]) until the first pause. *)
Record session := {
  id : string;
  tabId : nat;
  url : string;
  startTime : Z;
  actions : list stored;
  videoDownloadId : option Z;
  screenRecordingTabId : option nat;
  meta : metadata;
  isPaused : option bool
}.

Definition set_paused (b : bool) (s : session) : session :=
  {| id := id s; tabId := tabId s; url := url s; startTime := startTime s;
     actions := actions s; videoDownloadId := videoDownloadId s;
     screenRecordingTabId := screenRecordingTabId s; meta := meta s;
     isPaused := Some b |}.

(** JavaScript truthiness of [session.isPaused]. *)
Definition truthy (o : option bool) : bool :=
  match o with
  | Some b => b
  | None => false
  end.

(** [RecordingSession.addAction] *)
Definition session_addAction (a : action) (uuid : string) (now : Z)
    (s : session) : session :=
  let entry := {| s_id := uuid;
                  s_timestamp := default now (a_timestamp a);
                  s_action := a |} in
  {| id := id s; tabId := tabId s; url := url s; startTime := startTime s;
     actions := actions s ++ [entry]; videoDownloadId := videoDownloadId s;
     screenRecordingTabId := screenRecordingTabId s; meta := meta s;
     isPaused := isPaused s |}.

Record export := {
  x_id : string;
  x_url : string;
  x_startTime : Z;
  x_endTime : Z;
  x_duration : Z;
  x_actions : list stored;
  x_videoDownloadId : option Z;
  x_metadata : metadata
}.

(** [RecordingSession.export].  The object literal reads the clock twice:
    [now] is the value of the first [Date.now()], stored as [endTime], and
    [now'] the value of the second one, from which [duration] is computed. *)
Definition session_export (now now' : Z) (s : session) : export :=
  {| x_id := id s; x_url := url s; x_startTime := startTime s;
     x_endTime := now; x_duration := (now' - startTime s)%Z;
     x_actions := actions s; x_videoDownloadId := videoDownloadId s;
     x_metadata := meta s |}.

(** [class RecordingManager] *)
Record manager := {
  sessions : gmap nat session;
  activeTab : option nat
}.

Definition empty_manager : manager :=
  {| sessions := ∅; activeTab := None |}.

(** What the browser answers during one [startRecording]: the tab returned
    by [chrome.tabs.get] ([None] when [chrome.runtime.lastError] is set),
    the fresh session id, the clock, the user agent and whether delivering
    the [startRecording] message to the tab failed. *)
Record start_env := {
  e_tab : option (string * string);
  e_uuid : string;
  e_now : Z;
  e_userAgent : string;
  e_messageError : bool
}.

(** [new RecordingSession(tabId, tab.url)] followed by
    [session.metadata.title = tab.title]. *)
Definition new_session (t : nat) (e : start_env) (tab : string * string)
    : session :=
  {| id := e_uuid e; tabId := t; url := fst tab; startTime := e_now e;
     actions := []; videoDownloadId := None; screenRecordingTabId := None;
     meta := {| md_title := snd tab; md_userAgent := e_userAgent e |};
     isPaused := None |}.

(** [RecordingManager.startRecording]: the promise's settlement is the
    second component ([None] = rejected, [Some s] = resolved with [s]). *)
Definition startRecording (t : nat) (e : start_env) (m : manager)
    : manager * option session :=
  match e_tab e with
  | None => (m, None)
  | Some tab =>
      let s := new_session t e tab in
      let registered := <[t := s]> (sessions m) in
      if e_messageError e then
        ({| sessions := delete t registered; activeTab := Some t |}, None)
      else
        ({| sessions := registered; activeTab := Some t |}, Some s)
  end.

(** [RecordingManager.stopRecording]; [now] and [now'] are the two clock
    readings of [session.export()]. *)
Definition stopRecording (t : nat) (now now' : Z) (m : manager)
    : manager * option export :=
  match sessions m !! t with
  | None => (m, None)
  | Some s =>
      ({| sessions := delete t (sessions m);
          activeTab := if decide (activeTab m = Some t) then None
                       else activeTab m |},
       Some (session_export now now' s))
  end.

(** [RecordingManager.pauseRecording] / [resumeRecording] *)
Definition pauseRecording (t : nat) (m : manager) : manager * bool :=
  match sessions m !! t with
  | None => (m, false)
  | Some s =>
      ({| sessions := <[t := set_paused true s]> (sessions m);
          activeTab := activeTab m |}, true)
  end.

Definition resumeRecording (t : nat) (m : manager) : manager * bool :=
  match sessions m !! t with
  | None => (m, false)
  | Some s =>
      ({| sessions := <[t := set_paused false s]> (sessions m);
          activeTab := activeTab m |}, true)
  end.

(** [RecordingManager.addAction] *)
Definition addAction (t : nat) (a : action) (uuid : string) (now : Z)
    (m : manager) : manager * bool :=
  match sessions m !! t with
  | Some s =>
      if negb (truthy (isPaused s)) then
        ({| sessions := <[t := session_addAction a uuid now s]> (sessions m);
            activeTab := activeTab m |}, true)
      else (m, false)
  | None => (m, false)
  end.

Definition getSession (t : nat) (m : manager) : option session :=
  sessions m !! t.

Definition isRecording (t : nat) (m : manager) : bool :=
  bool_decide (is_Some (sessions m !! t)).

(** The state of the per-tab state machine that the registry encodes. *)
Inductive tab_state := Idle | Recording | Paused.

Definition state_of (t : nat) (m : manager) : tab_state :=
  match sessions m !! t with
  | None => Idle
  | Some s => if truthy (isPaused s) then Paused else Recording
  end.

(** The sequence of actions buffered for a tab (empty without a session). *)
Definition actions_of (t : nat) (m : manager) : list stored :=
  match sessions m !! t with
  | None => []
  | Some s => actions s
  end.

(** *** Saved recordings ([saveRecording]) *)

Section Storage.
Variable recording : Type.

(** The value under the key [recordings] of [chrome.storage.local];
    [None] while the key has never been written. *)
Definition storage := option (list recording).

Inductive io := io_ok | io_get_fails | io_set_fails.

Definition saveRecording (r : recording) (o : io) (st : storage)
    : storage :=
  match o with
  | io_get_fails => st
  | io_set_fails => st
  | io_ok =>
      let recordings := r :: default [] st in
      Some (if (50 <? length recordings)%nat then firstn 50 recordings
            else recordings)
  end.

Definition saveAll (calls : list (recording * io)) (st : storage)
    : storage :=
  fold_left (fun acc c => saveRecording (fst c) (snd c) acc) calls st.

(** The recordings whose save went through, oldest first. *)
Definition succeeded (o : io) : bool :=
  match o with
  | io_ok => true
  | _ => false
  end.

Definition saved (calls : list (recording * io)) : list recording :=
  map fst (List.filter (fun c => succeeded (snd c)) calls).

End Storage.

End Background.

(** ** Locator derivation ([class ElementSelector]) *)

Module Dom.
Import JsString.

#[local] Unset Elimination Schemes.

(** An element with the attributes the selector logic reads and its element
    children.  [localName] is the local name and [html] tells whether the
    element is in the HTML namespace (elements have no namespace prefix, and
    the document is an HTML document in no-quirks mode); [nid] is
    [element.id] (empty without an id attribute); [testid] and [aria] are
    [getAttribute('data-testid')] and [getAttribute('aria-label')] ([None]
    for [null]); [classList] holds the tokens of the class attribute. *)
Inductive node := Node {
  localName : string;
  html : bool;
  nid : string;
  testid : option string;
  aria : option string;
  classList : list string;
  children : list node
}.

#[local] Set Elimination Schemes.

Definition upper_char (c : ascii) : ascii :=
  if isLower c then ascii_of_nat (nat_of_ascii c - 32) else c.

(** ASCII upper-casing, as the DOM applies it to tag names. *)
Fixpoint toUpperCase (s : string) : string :=
  match s with
  | EmptyString => EmptyString
  | String c t => String (upper_char c) (toUpperCase t)
  end.

(** [element.tagName]: the qualified name, upper-cased for an HTML element
    of an HTML document and as it is for any other element ([clipPath]). *)
Definition tagName (n : node) : string :=
  if html n then toUpperCase (localName n) else localName n.

(** An element of the document, named by its position: its index among its
    parent's children, then its parent's index, and so on up to the root
    element, whose reference is [[]]. *)
Definition ref := list nat.

Fixpoint descend (n : node) (p : list nat) : option node :=
  match p with
  | [] => Some n
  | i :: p' =>
      match children n !! i with
      | Some c => descend c p'
      | None => None
      end
  end.

Definition lookup (doc : node) (r : ref) : option node := descend doc (rev r).

(** [Array.from(current.parentNode?.children || [])]: the parent of the
    root element is the document, whose only element child is the root. *)
Definition siblings (doc : node) (r : ref) : list node :=
  match r with
  | [] => [doc]
  | _ :: parent =>
      match lookup doc parent with
      | Some par => children par
      | None => []
      end
  end.

(** 1-based position of an element among its parent's element children. *)
Definition child_number (r : ref) : nat :=
  match r with
  | [] => 1
  | i :: _ => i + 1
  end.

(** All root-first paths below [n], in document (pre-)order. *)
Fixpoint paths (n : node) : list (list nat) :=
  [] :: (fix go (i : nat) (cs : list node) : list (list nat) :=
           match cs with
           | [] => []
           | c :: cs' => map (cons i) (paths c) ++ go (S i) cs'
           end) 0%nat (children n).

Definition all_refs (doc : node) : list ref := map (@rev nat) (paths doc).

(** One compound of a structural path: [#id], [tag] or
    [tag:nth-child(n)]. *)
Inductive compound :=
| ById (i : string)
| ByTag (tag : string) (nth : option nat).

(** The selectors [getSelector] builds, before they are put together as
    strings; [render] gives the string the source builds. *)
Inductive selector :=
| SelId (i : string)
| SelAttr (name value : string)
| SelClass (tag : string) (classes : list string)
| SelPath (steps : list compound).

Definition dquote : string := String (ascii_of_nat 34) EmptyString.

Definition render_compound (c : compound) : string :=
  match c with
  | ById i => "#" +:+ i
  | ByTag t None => t
  | ByTag t (Some k) => t +:+ ":nth-child(" +:+ of_nat k +:+ ")"
  end.

(** The string the source builds for a selector. *)
Definition render (s : selector) : string :=
  match s with
  | SelId i => "#" +:+ i
  | SelAttr name v => "[" +:+ name +:+ "=" +:+ dquote +:+ v +:+ dquote +:+ "]"
  | SelClass t cs => t +:+ "." +:+ join "." cs
  | SelPath steps => join " > " (map render_compound steps)
  end.

Definition nonempty (s : string) : bool := negb (String.eqb s "").

(** JavaScript truthiness of a [getAttribute] result. *)
Definition attr_truthy (o : option string) : bool :=
  match o with
  | Some v => nonempty v
  | None => false
  end.

Definition get_attr (name : string) (n : node) : option string :=
  if String.eqb name "data-testid" then testid n
  else if String.eqb name "aria-label" then aria n
  else None.

Definition has_class (n : node) (c : string) : bool :=
  existsb (String.eqb c) (classList n).

(** *** What a selector of this form denotes

    The meaning CSS gives to a type selector, an id selector, class
    selectors, an attribute selector with a quoted value, [:nth-child] and
    the child combinator, for the case that the names in the selector are
    written as they are meant, without any need for escaping. *)

(** A type selector is compared with the local name: after lower-casing
    for an HTML element, as it stands for any other element. *)
Definition matches_type (t : string) (n : node) : bool :=
  if html n then String.eqb (toLowerCase t) (localName n)
  else String.eqb t (localName n).

Definition matches_compound (c : compound) (n : node) (number : nat) : bool :=
  match c with
  | ById i => String.eqb (nid n) i
  | ByTag t nth =>
      matches_type t n &&
      match nth with
      | None => true
      | Some k => (k =? number)%nat
      end
  end.

(** [s1 > s2 > ... > sn] read from the subject [sn] upwards: each compound
    must match the next parent element. *)
Fixpoint matches_up (doc : node) (rsteps : list compound) (r : ref) : bool :=
  match rsteps with
  | [] => false
  | c :: rest =>
      match lookup doc r with
      | None => false
      | Some n =>
          matches_compound c n (child_number r) &&
          match rest with
          | [] => true
          | _ :: _ =>
              match r with
              | [] => false
              | _ :: parent => matches_up doc rest parent
              end
          end
      end
  end.

(** Whether the element at [r] is one the selector denotes. *)
Definition matches (doc : node) (s : selector) (r : ref) : bool :=
  match s with
  | SelPath steps => matches_up doc (rev steps) r
  | _ =>
      match lookup doc r with
      | None => false
      | Some n =>
          match s with
          | SelId i => String.eqb (nid n) i
          | SelAttr name v =>
              match get_attr name n with
              | Some w => String.eqb w v
              | None => false
              end
          | SelClass t cs => matches_type t n && forallb (has_class n) cs
          | SelPath _ => false
          end
      end
  end.

(** The elements the selector denotes, in document order. *)
Definition denotation (doc : node) (s : selector) : list ref :=
  List.filter (matches doc s) (all_refs doc).

(** *** Names that need no escaping *)

Fixpoint every (p : ascii -> bool) (s : string) : bool :=
  match s with
  | EmptyString => true
  | String c t => p c && every p t
  end.

Definition starts_with (p : ascii -> bool) (s : string) : bool :=
  match s with
  | EmptyString => false
  | String c _ => p c
  end.

Definition nmstart (c : ascii) : bool := isAlpha c || Ascii.eqb c "_".

Definition nmchar (c : ascii) : bool :=
  nmstart c || isDigit c || Ascii.eqb c "-".

(** A CSS identifier made of a letter or underscore followed by letters,
    digits, hyphens and underscores. *)
Definition css_ident (s : string) : bool :=
  starts_with nmstart s && every nmchar s.

(** A value that can stand between double quotes as it is: printable ASCII
    without the double quote and the backslash. *)
Definition plain_char (c : ascii) : bool :=
  in_range 32 126 c && negb (Ascii.eqb c (ascii_of_nat 34))
  && negb (Ascii.eqb c (ascii_of_nat 92)).

Definition plain_value (v : string) : bool := every plain_char v.

Definition well_formed_compound (c : compound) : bool :=
  match c with
  | ById i => css_ident i
  | ByTag t _ => css_ident t
  end.

(** The strings built from these selectors are CSS selectors that denote
    what the selector was built to denote. *)
Definition well_formed (s : selector) : bool :=
  match s with
  | SelId i => css_ident i
  | SelAttr name v =>
      (String.eqb name "data-testid" || String.eqb name "aria-label")
      && plain_value v
  | SelClass t cs =>
      css_ident t
      && match cs with [] => false | _ :: _ => true end
      && forallb css_ident cs
  | SelPath steps =>
      match steps with [] => false | _ :: _ => true end
      && forallb well_formed_compound steps
  end.

(** All local names of the document are in lower case. *)
Definition lower_case (doc : node) : bool :=
  forallb (fun r => match lookup doc r with
                    | Some m => String.eqb (toLowerCase (localName m))
                                           (localName m)
                    | None => true
                    end) (all_refs doc).

(** *** The selector engine of the browser *)

(** [document.querySelectorAll(selector)] on a document: the elements found,
    in document order, or [None] for the [SyntaxError] it throws on a
    string that is no selector. *)
Definition engine : Type := node -> string -> option (list ref).

(** What is assumed of the engine: a string built from a well-formed
    selector is read as that selector, and a class selector whose first
    class name starts with a digit is rejected ([.2col] is read as a
    number followed by a unit). *)
Definition conforming (querySelectorAll : engine) : Prop :=
  (forall doc s, well_formed s = true ->
     querySelectorAll doc (render s) = Some (denotation doc s))
  /\ (forall doc t c cs,
        css_ident t = true -> starts_with isDigit c = true ->
        querySelectorAll doc (render (SelClass t (c :: cs))) = None).


(** *** [getPathSelector] and [getSelector] *)

(** The [while] loop of [getPathSelector]: [current] walks up through
    [parentNode]; [path] is the array built with [unshift]. *)
Fixpoint getPathSelector_loop (doc : node) (current : ref)
    (path : list compound) : list compound :=
  match lookup doc current with
  | None => path
  | Some n =>
      if nonempty (nid n) then ById (nid n) :: path
      else
        let sibs := siblings doc current in
        let selector :=
          ByTag (toLowerCase (tagName n))
                (if (1 <? length sibs)%nat then Some (child_number current)
                 else None) in
        match current with
        | [] => selector :: path
        | _ :: parent => getPathSelector_loop doc parent (selector :: path)
        end
  end.

Definition getPathSelector (doc : node) (element : ref) : list compound :=
  getPathSelector_loop doc element [].

Definition transient (c : string) : bool :=
  includes c "hover" || includes c "active" || includes c "focus".

Definition stable_classes (n : node) : list string :=
  List.filter (fun c => negb (transient c)) (classList n).

(** [ElementSelector.getSelector]: the selector whose string is returned,
    or the exception of [document.querySelectorAll]; [None] when [element]
    is not an element of the document. *)
Definition getSelector (querySelectorAll : engine) (doc : node)
    (element : ref) : option (Js.outcome selector) :=
  match lookup doc element with
  | None => None
  | Some n =>
      if nonempty (nid n) then Some (Js.Returns (SelId (nid n)))
      else if attr_truthy (testid n) then
        Some (Js.Returns (SelAttr "data-testid" (default "" (testid n))))
      else if attr_truthy (aria n) then
        Some (Js.Returns (SelAttr "aria-label" (default "" (aria n))))
      else
        let className := join "." (stable_classes n) in
        let selector :=
          SelClass (toLowerCase (tagName n)) (stable_classes n) in
        if nonempty className then
          match querySelectorAll doc (render selector) with
          | None => Some Js.Throws
          | Some found =>
              if (length found =? 1)%nat then Some (Js.Returns selector)
              else Some (Js.Returns (SelPath (getPathSelector doc element)))
          end
        else Some (Js.Returns (SelPath (getPathSelector doc element)))
  end.


(** The compounds of the structural path, subject first. *)
Fixpoint up_steps (doc : node) (r : ref) : list compound :=
  match lookup doc r with
  | None => []
  | Some n =>
      if nonempty (nid n) then [ById (nid n)]
      else
        ByTag (toLowerCase (tagName n))
              (if (1 <? length (siblings doc r))%nat
               then Some (child_number r) else None)
        :: match r with
           | [] => []
           | _ :: parent => up_steps doc parent
           end
  end.


End Dom.

(** ** A selector engine for the selectors above *)

Module Css.
Import JsString Dom.

(** [s] without the prefix [pre]. *)
Fixpoint strip (pre s : string) : option string :=
  match pre with
  | EmptyString => Some s
  | String a pre' =>
      match s with
      | String b s' => if Ascii.eqb a b then strip pre' s' else None
      | EmptyString => None
      end
  end.

Definition nat_of_digits (ds : string) : option nat :=
  Nat.of_uint <$> NilEmpty.uint_of_string ds.

Definition is_char (a : ascii) (s : string) : bool :=
  starts_with (Ascii.eqb a) s.

(** The end of the string, or a space. *)
Definition boundary (s : string) : bool :=
  match s with
  | EmptyString => true
  | String c _ => Ascii.eqb " " c
  end.

Definition tail_of (s : string) : string :=
  match s with
  | EmptyString => EmptyString
  | String _ t => t
  end.

(** [tag] or [tag:nth-child(k)] at the head of [s]. *)
Definition parse_tag (s : string) : option (compound * string) :=
  let '(t, rest) := span nmchar s in
  if css_ident t then
    match strip ":nth-child(" rest with
    | Some r1 =>
        let '(ds, r2) := span isDigit r1 in
        match nat_of_digits ds with
        | Some k =>
            if nonempty ds && is_char ")" r2
            then Some (ByTag t (Some k), tail_of r2) else None
        | None => None
        end
    | None => Some (ByTag t None, rest)
    end
  else None.

(** One compound at the head of [s], and what follows it. *)
Definition parse_compound (s : string) : option (compound * string) :=
  if is_char "#" s then
    let '(i, rest) := span nmchar (tail_of s) in
    if css_ident i then Some (ById i, rest) else None
  else parse_tag s.

(** Compounds joined by [ > ]. *)
Fixpoint parse_path (fuel : nat) (s : string) : option (list compound) :=
  match fuel with
  | O => None
  | S f =>
      match parse_compound s with
      | Some (c, EmptyString) => Some [c]
      | Some (c, rest) =>
          match strip " > " rest with
          | Some s' => cons c <$> parse_path f s'
          | None => None
          end
      | None => None
      end
  end.

(** [.c1.c2...] to the end of the string. *)
Fixpoint parse_classes (fuel : nat) (s : string) : option (list string) :=
  match fuel with
  | O => None
  | S f =>
      if is_char "." s then
        let '(c, rest) := span nmchar (tail_of s) in
        if css_ident c then
          match rest with
          | EmptyString => Some [c]
          | _ => cons c <$> parse_classes f rest
          end
        else None
      else None
  end.

Definition not_quote (c : ascii) : bool :=
  negb (Ascii.eqb c (ascii_of_nat 34)).

(** [[name="value"]] for the two attributes of the document model. *)
Definition parse_attr (s : string) : option selector :=
  let '(name, r1) := span nmchar (tail_of s) in
  match strip ("=" +:+ dquote) r1 with
  | Some r2 =>
      let '(v, r3) := span not_quote r2 in
      if String.eqb r3 (dquote +:+ "]") && well_formed (SelAttr name v)
      then Some (SelAttr name v) else None
  | None => None
  end.

Definition parse (s : string) : option selector :=
  if is_char "[" s then parse_attr s
  else
    let '(t, rest) := span nmchar s in
    if is_char "." rest then
      if css_ident t then
        SelClass t <$> parse_classes (S (String.length rest)) rest
      else None
    else SelPath <$> parse_path (S (String.length s)) s.

(** An engine that reads the selectors above and rejects any other
    string. *)
Definition reference : engine :=
  fun doc s => denotation doc <$> parse s.

End Css.

(** ** Timers and the virtual clock *)

Module EventLoop.

Section Clock.
Variable C : Type.

(** A pending [setTimeout]: its id, the time at which it is due and the
    callback (a closure of the modelled program, defunctionalised). *)
Record timer := { t_id : nat; t_due : Z; t_cb : C }.

(** [now] is [Date.now()] in milliseconds. *)
Record clock := { now : Z; next_id : nat; pending : list timer }.

Definition start_clock (t0 : Z) : clock :=
  {| now := t0; next_id := 1; pending := [] |}.

Definition setTimeout (cb : C) (delay : Z) (k : clock) : nat * clock :=
  (next_id k,
   {| now := now k; next_id := S (next_id k);
      pending := pending k ++
                 [{| t_id := next_id k; t_due := (now k + delay)%Z;
                     t_cb := cb |}] |}).

(** [clearTimeout(id)]; [clearTimeout(undefined)] does nothing. *)
Definition clearTimeout (id : option nat) (k : clock) : clock :=
  match id with
  | None => k
  | Some i =>
      {| now := now k; next_id := next_id k;
         pending := List.filter (fun tm => negb (t_id tm =? i)%nat)
                                (pending k) |}
  end.

Definition is_pending (i : nat) (k : clock) : bool :=
  existsb (fun tm => (t_id tm =? i)%nat) (pending k).

Definition due_by (t : Z) (tm : timer) : bool := (t_due tm <=? t)%Z.

Definition advance_clock (k : clock) : clock :=
  {| now := (now k + 1)%Z; next_id := next_id k; pending := pending k |}.

End Clock.

Arguments t_id {C}. Arguments t_due {C}. Arguments t_cb {C}.
Arguments now {C}. Arguments next_id {C}. Arguments pending {C}.
Arguments setTimeout {C}. Arguments clearTimeout {C}.
Arguments is_pending {C}. Arguments due_by {C}.
Arguments advance_clock {C}. Arguments start_clock {C}.

Section Loop.
Variables C S : Type.
Variable clock_of : S -> clock C.
Variable with_clock : clock C -> S -> S.
Variable fire : C -> S -> S.

(** Run one due timer unless an earlier callback of the same
    millisecond cleared it. *)
Definition fire_one (s : S) (tm : timer C) : S :=
  if is_pending (t_id tm) (clock_of s) then
    fire (t_cb tm)
         (with_clock (clearTimeout (Some (t_id tm)) (clock_of s)) s)
  else s.

(** One millisecond passes: the timers due by the new time run, in the
    order in which they were set. *)
Definition tick (s : S) : S :=
  let k := advance_clock (clock_of s) in
  fold_left fire_one (List.filter (due_by (now k)) (pending k))
            (with_clock k s).

Fixpoint elapse (ms : nat) (s : S) : S :=
  match ms with
  | O => s
  | Datatypes.S k => elapse k (tick s)
  end.

End Loop.

Arguments fire_one {C S}. Arguments tick {C S}. Arguments elapse {C S}.

(** The clock [d] milliseconds later, timers untouched. *)
Definition later {C : Type} (d : nat) (k : clock C) : clock C :=
  {| now := now k + Z.of_nat d; next_id := next_id k; pending := pending k |}.

(** No timer falls due within the next [d] milliseconds. *)
Definition quiet_for {C : Type} (d : nat) (k : clock C) : Prop :=
  Forall (fun tm => (now k + Z.of_nat d < t_due tm)%Z) (pending k).

End EventLoop.

(** ** DOM-mutation quiescence ([ActionRecorder.waitForDOMStability]) *)

Module DomStability.
Import EventLoop.

(** The only timer callback is the closure [done]. *)
Inductive callback := cb_done.

(** The variables of one invocation: the shared [timeout] variable, the
    [observer] variable ([None] while undefined, [Some b] once created, [b]
    telling whether it is still connected), whether the animation-frame
    callback is still to run, and when the promise was resolved. *)
Record state := {
  clk : clock callback;
  timeout : option nat;
  observer : option bool;
  frame_requested : bool;
  resolved : option Z
}.

Definition with_clock (k : clock callback) (s : state) : state :=
  {| clk := k; timeout := timeout s; observer := observer s;
     frame_requested := frame_requested s; resolved := resolved s |}.

(** [timeout = setTimeout(done, delay)] *)
Definition arm (delay : Z) (s : state) : state :=
  let '(i, k) := setTimeout cb_done delay (clk s) in
  {| clk := k; timeout := Some i; observer := observer s;
     frame_requested := frame_requested s; resolved := resolved s |}.

(** [clearTimeout(timeout)] *)
Definition disarm (s : state) : state :=
  with_clock (clearTimeout (timeout s) (clk s)) s.

(** The closure [done]: disconnect the observer if there is one, clear the
    timer, resolve.  Resolving an already resolved promise has no effect. *)
Definition done (s : state) : state :=
  let s1 := disarm s in
  {| clk := clk s1; timeout := timeout s1;
     observer := (fun _ => false) <$> observer s1;
     frame_requested := frame_requested s1;
     resolved := match resolved s1 with
                 | Some t => Some t
                 | None => Some (now (clk s1))
                 end |}.

Definition fire (c : callback) (s : state) : state :=
  match c with
  | cb_done => done s
  end.

(** The promise executor, run at time [t0]. *)
Definition waitForDOMStability (t0 : Z) : state :=
  arm 1000 {| clk := start_clock t0; timeout := None; observer := None;
              frame_requested := true; resolved := None |}.

(** What the page does to the wait: the browser runs the animation-frame
    callbacks, or delivers a batch of mutation records. *)
Inductive event := Frame | Mutation.

(** The [requestAnimationFrame] callback. *)
Definition on_frame (s : state) : state :=
  if frame_requested s then
    let s1 := {| clk := clk s; timeout := timeout s; observer := Some true;
                 frame_requested := false; resolved := resolved s |} in
    arm 200 (disarm s1)
  else s.

(** The [MutationObserver] callback, run while the observer is connected. *)
Definition on_mutation (s : state) : state :=
  match observer s with
  | Some true => arm 200 (disarm s)
  | _ => s
  end.

Definition handle (e : event) (s : state) : state :=
  match e with
  | Frame => on_frame s
  | Mutation => on_mutation s
  end.

Definition wait : nat -> state -> state := elapse clk with_clock fire.

(** A schedule gives, for each event, the milliseconds elapsed since the
    previous one (or since the invocation). *)
Fixpoint run (schedule : list (nat * event)) (s : state) : state :=
  match schedule with
  | [] => s
  | (d, e) :: rest => run rest (handle e (wait d s))
  end.

(** The observer is connected, the promise is unresolved, and the only
    pending timer is the 200 ms silence timer set at the current time. *)
Definition watching (s : state) : Prop :=
  resolved s = None /\ observer s = Some true /\
  exists i, timeout s = Some i /\
    pending (clk s) = [{| t_id := i; t_due := now (clk s) + 200;
                        t_cb := cb_done |}].

End DomStability.

(** ** Network-idle detection ([ActionRecorder.waitForNetworkIdle]) *)

Module NetworkIdle.
Import EventLoop.

(** A value of one of the three patched globals: the browser's own
    function, or the wrapper closure installed by invocation [call]. *)
Inductive hook := native | wrapper (call : nat).

(** [window.fetch], [XMLHttpRequest.prototype.open] and
    [XMLHttpRequest.prototype.send]. *)
Record window := { fetch : hook; xhr_open : hook; xhr_send : hook }.

(** The two timer closures of invocation [call]: the idle timer's
    [() => resolve()] and the ceiling ("timeout fallback"). *)
Inductive callback := cb_idle (call : nat) | cb_ceiling (call : nat).

(** The closure variables of one invocation. *)
Record invocation := {
  pendingRequests : Z;
  idleTimer : option nat;
  startTime : Z;
  originalFetch : hook;
  XHROpen : hook;
  XHRSend : hook;
  resolved : option Z
}.

(** An [XMLHttpRequest] object: its [_monitored] flag and the invocations
    whose [cleanup] listener it carries. *)
Record xhr := { monitored : bool; listeners : list nat }.

Record state := {
  clk : clock callback;
  win : window;
  calls : list invocation;
  fetches : gmap nat (list nat);
  xhrs : gmap nat xhr
}.

Definition with_clock (k : clock callback) (s : state) : state :=
  {| clk := k; win := win s; calls := calls s; fetches := fetches s;
     xhrs := xhrs s |}.

Definition with_calls (cs : list invocation) (s : state) : state :=
  {| clk := clk s; win := win s; calls := cs; fetches := fetches s;
     xhrs := xhrs s |}.

Definition with_win (w : window) (s : state) : state :=
  {| clk := clk s; win := w; calls := calls s; fetches := fetches s;
     xhrs := xhrs s |}.

Definition update_call (c : nat) (f : invocation -> invocation) (s : state)
    : state :=
  match calls s !! c with
  | Some v => with_calls (<[c := f v]> (calls s)) s
  | None => s
  end.

Definition add_pending (d : Z) (v : invocation) : invocation :=
  {| pendingRequests := (pendingRequests v + d)%Z; idleTimer := idleTimer v;
     startTime := startTime v; originalFetch := originalFetch v;
     XHROpen := XHROpen v; XHRSend := XHRSend v; resolved := resolved v |}.

Definition set_idleTimer (i : option nat) (v : invocation) : invocation :=
  {| pendingRequests := pendingRequests v; idleTimer := i;
     startTime := startTime v; originalFetch := originalFetch v;
     XHROpen := XHROpen v; XHRSend := XHRSend v; resolved := resolved v |}.

(** [resolve()] at time [t]; later calls have no effect. *)
Definition resolve_at (t : Z) (v : invocation) : invocation :=
  {| pendingRequests := pendingRequests v; idleTimer := idleTimer v;
     startTime := startTime v; originalFetch := originalFetch v;
     XHROpen := XHROpen v; XHRSend := XHRSend v;
     resolved := match resolved v with
                 | Some t' => Some t'
                 | None => Some t
                 end |}.

(** The closure [checkIdle] of invocation [c]. *)
Definition checkIdle (c : nat) (s : state) : state :=
  match calls s !! c with
  | Some v =>
      if (pendingRequests v =? 0)%Z then
        let '(i, k) :=
          setTimeout (cb_idle c) 300 (clearTimeout (idleTimer v) (clk s)) in
        update_call c (set_idleTimer (Some i)) (with_clock k s)
      else s
  | None => s
  end.

Definition fire (cb : callback) (s : state) : state :=
  match cb with
  | cb_idle c => update_call c (resolve_at (now (clk s))) s
  | cb_ceiling c =>
      match calls s !! c with
      | Some v =>
          update_call c (resolve_at (now (clk s)))
            (with_win {| fetch := originalFetch v; xhr_open := XHROpen v;
                         xhr_send := XHRSend v |} s)
      | None => s
      end
  end.

(** The promise executor of [waitForNetworkIdle(maxWaitTime)]. *)
Definition waitForNetworkIdle (maxWaitTime : Z) (s : state) : state :=
  let c := length (calls s) in
  let v := {| pendingRequests := 0; idleTimer := None;
              startTime := now (clk s);
              originalFetch := fetch (win s); XHROpen := xhr_open (win s);
              XHRSend := xhr_send (win s); resolved := None |} in
  let s1 := {| clk := clk s;
               win := {| fetch := wrapper c; xhr_open := wrapper c;
                         xhr_send := wrapper c |};
               calls := calls s ++ [v]; fetches := fetches s;
               xhrs := xhrs s |} in
  let '(_, k) := setTimeout (cb_ceiling c) maxWaitTime (clk s1) in
  checkIdle c (with_clock k s1).

(** The wrappers a call through [h] passes before it reaches the browser's
    function, outermost first.  [saved] selects the closure variable that
    holds the function a wrapper forwards to. *)
Fixpoint chain (fuel : nat) (saved : invocation -> hook)
    (cs : list invocation) (h : hook) : list nat :=
  match fuel, h with
  | Datatypes.S f, wrapper c =>
      match cs !! c with
      | Some v => c :: chain f saved cs (saved v)
      | None => [c]
      end
  | _, _ => []
  end.

Definition wrappers_of (saved : invocation -> hook) (h : hook) (s : state)
    : list nat :=
  chain (length (calls s)) saved (calls s) h.

(** [pendingRequests--; checkIdle()] in invocation [c]. *)
Definition request_done (s : state) (c : nat) : state :=
  checkIdle c (update_call c (add_pending (-1)) s).

Definition request_begun (s : state) (c : nat) : state :=
  update_call c (add_pending 1) s.

(** What the page does: start another wait, call [fetch], see a fetch
    settle, or open, send and complete (load, error or abort) an
    [XMLHttpRequest]. *)
Inductive event :=
| Call (maxWaitTime : Z)
| FetchStart (r : nat)
| FetchSettle (r : nat)
| XhrOpen (x : nat)
| XhrSend (x : nat)
| XhrDone (x : nat).

Definition the_xhr (x : nat) (s : state) : xhr :=
  default {| monitored := false; listeners := [] |} (xhrs s !! x).

Definition with_xhr (x : nat) (v : xhr) (s : state) : state :=
  {| clk := clk s; win := win s; calls := calls s; fetches := fetches s;
     xhrs := <[x := v]> (xhrs s) |}.

Definition handle (e : event) (s : state) : state :=
  match e with
  | Call maxWaitTime => waitForNetworkIdle maxWaitTime s
  | FetchStart r =>
      let ws := wrappers_of originalFetch (fetch (win s)) s in
      let s1 := fold_left request_begun ws s in
      {| clk := clk s1; win := win s1; calls := calls s1;
         fetches := <[r := ws]> (fetches s1); xhrs := xhrs s1 |}
  | FetchSettle r =>
      match fetches s !! r with
      | Some ws =>
          fold_left request_done (rev ws)
            {| clk := clk s; win := win s; calls := calls s;
               fetches := delete r (fetches s); xhrs := xhrs s |}
      | None => s
      end
  | XhrOpen x =>
      match wrappers_of XHROpen (xhr_open (win s)) s with
      | [] => with_xhr x (the_xhr x s) s
      | _ :: _ =>
          with_xhr x {| monitored := true;
                        listeners := listeners (the_xhr x s) |} s
      end
  | XhrSend x =>
      let v := the_xhr x s in
      if monitored v then
        let ws := wrappers_of XHRSend (xhr_send (win s)) s in
        with_xhr x {| monitored := true; listeners := listeners v ++ ws |}
                 (fold_left request_begun ws s)
      else s
  | XhrDone x => fold_left request_done (listeners (the_xhr x s)) s
  end.

Definition wait : nat -> state -> state := elapse clk with_clock fire.

Fixpoint run (schedule : list (nat * event)) (s : state) : state :=
  match schedule with
  | [] => s
  | (d, e) :: rest => run rest (handle e (wait d s))
  end.

(** A page on which nothing is instrumented, at time [t0]. *)
Definition pristine (t0 : Z) : state :=
  {| clk := start_clock t0;
     win := {| fetch := native; xhr_open := native; xhr_send := native |};
     calls := []; fetches := ∅; xhrs := ∅ |}.

Definition resolved_at (c : nat) (s : state) : option Z :=
  match calls s !! c with
  | Some v => resolved v
  | None => None
  end.

End NetworkIdle.

(** ** The recorder of the content script ([class ActionRecorder]) *)

Module Recorder.
Import EventLoop Action Masking.

(** A page element on which [ElementSelector.getElementInfo] returns, as
    the handlers see it: the attributes read by masking, its tag, its
    current [value] ([None] when it has no such property, as a
    [contenteditable] element: [element.value] is then [undefined]), whether
    it lies inside the recorder's own overlay
    ([element.closest('#demo-recorder-overlay')]) and what
    [getElementInfo] returns for it. *)
Record element := {
  el_field : field;
  el_tagName : string;
  el_value : option string;
  el_in_overlay : bool;
  el_info : elementInfo
}.

(** The element after the user has edited it to [v]: an element without a
    [value] property still has none. *)
Definition set_value (v : string) (el : element) : element :=
  {| el_field := el_field el; el_tagName := el_tagName el;
     el_value := (fun _ => v) <$> el_value el;
     el_in_overlay := el_in_overlay el; el_info := el_info el |}.

(** A page element on which [getElementInfo] throws (the class selector
    built by [getSelector] is rejected by [document.querySelectorAll], or
    the document has no body for [getXPath]): what [shouldIgnoreElement]
    reads of it. *)
Record opaque := {
  o_field : field;
  o_tagName : string;
  o_in_overlay : bool
}.

(** Timer closures: the debounce callback of [handleInput] for an element,
    and the fixed settle delay of [waitForPageStabilization] awaited by the
    [recordAction] call numbered [frame]. *)
Inductive callback := cb_input (e : nat) | cb_settled (frame : nat).

(** Messages passed to [chrome.runtime.sendMessage]. *)
Inductive message :=
| CaptureScreenshot (frame : nat)
| RecordAction (a : action).

(** The recorder, the page and the loop.  [page] holds the elements on
    which [getElementInfo] returns, [unlocatable] those on which it throws.
    [frames] holds the action object of every [recordAction] call, in call
    order; [awaiting] the calls suspended on the screenshot reply. *)
Record state := {
  clk : clock callback;
  isRecording : bool;
  isPaused : bool;
  sessionId : option string;
  lastAction : option action;
  inputBuffer : gmap nat nat;
  listeners : list string;
  page : gmap nat element;
  unlocatable : gmap nat opaque;
  frames : list action;
  awaiting : list nat;
  outbox : list message
}.

Definition with_clock (k : clock callback) (s : state) : state :=
  {| clk := k; isRecording := isRecording s; isPaused := isPaused s;
     sessionId := sessionId s; lastAction := lastAction s;
     inputBuffer := inputBuffer s; listeners := listeners s;
     page := page s; unlocatable := unlocatable s;
     frames := frames s; awaiting := awaiting s;
     outbox := outbox s |}.

Definition with_inputBuffer (b : gmap nat nat) (s : state) : state :=
  {| clk := clk s; isRecording := isRecording s; isPaused := isPaused s;
     sessionId := sessionId s; lastAction := lastAction s;
     inputBuffer := b; listeners := listeners s;
     page := page s; unlocatable := unlocatable s;
     frames := frames s; awaiting := awaiting s;
     outbox := outbox s |}.

Definition with_page (p : gmap nat element) (s : state) : state :=
  {| clk := clk s; isRecording := isRecording s; isPaused := isPaused s;
     sessionId := sessionId s; lastAction := lastAction s;
     inputBuffer := inputBuffer s; listeners := listeners s;
     page := p; unlocatable := unlocatable s; frames := frames s;
     awaiting := awaiting s; outbox := outbox s |}.

Definition with_paused (b : bool) (s : state) : state :=
  {| clk := clk s; isRecording := isRecording s; isPaused := b;
     sessionId := sessionId s; lastAction := lastAction s;
     inputBuffer := inputBuffer s; listeners := listeners s;
     page := page s; unlocatable := unlocatable s;
     frames := frames s; awaiting := awaiting s;
     outbox := outbox s |}.

(** The constructor, at time [t0] on a page all of whose elements [p] can
    be located. *)
Definition new_recorder (t0 : Z) (p : gmap nat element) : state :=
  {| clk := start_clock t0; isRecording := false; isPaused := false;
     sessionId := None; lastAction := None; inputBuffer := ∅;
     listeners := []; page := p; unlocatable := ∅; frames := [];
     awaiting := []; outbox := [] |}.


Definition event_names : list string :=
  ["click"; "dblclick"; "input"; "change"; "submit"; "keydown"; "scroll";
   "mouseover"; "focus"; "blur"].

(** [start(sessionId)] *)
Definition start (sid : string) (s : state) : state :=
  if isRecording s then s
  else
    {| clk := clk s; isRecording := true; isPaused := isPaused s;
       sessionId := Some sid; lastAction := lastAction s;
       inputBuffer := inputBuffer s; listeners := event_names;
       page := page s; unlocatable := unlocatable s;
     frames := frames s; awaiting := awaiting s;
       outbox := outbox s |}.

(** [stop()] *)
Definition stop (s : state) : state :=
  if isRecording s then
    {| clk := clk s; isRecording := false; isPaused := isPaused s;
       sessionId := None; lastAction := lastAction s;
       inputBuffer := ∅; listeners := [];
       page := page s; unlocatable := unlocatable s;
     frames := frames s; awaiting := awaiting s;
       outbox := outbox s |}
  else s.

Definition pause : state -> state := with_paused true.
Definition resume : state -> state := with_paused false.

Definition ignoreTags : list string :=
  ["HTML"; "HEAD"; "META"; "TITLE"; "SCRIPT"; "STYLE"; "LINK"].

Definition shouldIgnoreElement (el : element) : bool :=
  if el_in_overlay el then true
  else if decide (f_type (el_field el) = Some "password") then false
  else existsb (String.eqb (el_tagName el)) ignoreTags.

(** [shouldIgnoreElement] on an element of [unlocatable]. *)
Definition shouldIgnoreOpaque (o : opaque) : bool :=
  if o_in_overlay o then true
  else if decide (f_type (o_field o) = Some "password") then false
  else existsb (String.eqb (o_tagName o)) ignoreTags.

(** [isDuplicateAction(action)] *)
Definition isDuplicateAction (a : action) (s : state) : bool :=
  match lastAction s with
  | None => false
  | Some last =>
      let stamp := match a_timestamp last with
                   | Some t => t
                   | None => 0%Z
                   end in
      let timeDiff := (now (clk s) - stamp)%Z in
      if (timeDiff <? 100)%Z then
        String.eqb (a_type a) (a_type last) &&
        bool_decide (selector_of a = selector_of last)
      else false
  end.

(** The fixed delay of [waitForPageStabilization] for the action kinds that
    only sleep; [None] for [click], [submit] and [scroll], whose waits
    watch the DOM, the network and image loading. *)
Definition settle_delay (type : string) : option Z :=
  if String.eqb type "click" || String.eqb type "submit" then None
  else if String.eqb type "input" || String.eqb type "change" then Some 300%Z
  else if String.eqb type "scroll" then None
  else Some 200%Z.

(** [recordAction(action)] up to its first suspension: the call gets the
    next frame number and awaits stabilisation. *)
Definition recordAction (a : action) (s : state) : state :=
  let frame := length (frames s) in
  let k := match settle_delay (a_type a) with
           | Some d => snd (setTimeout (cb_settled frame) d (clk s))
           | None => clk s
           end in
  {| clk := k; isRecording := isRecording s; isPaused := isPaused s;
     sessionId := sessionId s; lastAction := lastAction s;
     inputBuffer := inputBuffer s; listeners := listeners s;
     page := page s; unlocatable := unlocatable s;
     frames := frames s ++ [a]; awaiting := awaiting s;
     outbox := outbox s |}.

(** Stabilisation is over: [captureVisibleArea()] sends its request and the
    call suspends on the reply. *)
Definition settled (frame : nat) (s : state) : state :=
  {| clk := clk s; isRecording := isRecording s; isPaused := isPaused s;
     sessionId := sessionId s; lastAction := lastAction s;
     inputBuffer := inputBuffer s; listeners := listeners s;
     page := page s; unlocatable := unlocatable s;
     frames := frames s;
     awaiting := awaiting s ++ [frame];
     outbox := outbox s ++ [CaptureScreenshot frame] |}.

(** The reply arrived: attach the screenshot, send the action, remember it
    as [lastAction]. *)
Definition replied (frame : nat) (shot : option string) (s : state)
    : state :=
  if existsb (Nat.eqb frame) (awaiting s) then
    match frames s !! frame with
    | Some a =>
        let a' := with_screenshot shot a in
        {| clk := clk s; isRecording := isRecording s;
           isPaused := isPaused s; sessionId := sessionId s;
           lastAction := Some a';
           inputBuffer := inputBuffer s; listeners := listeners s;
           page := page s; unlocatable := unlocatable s;
     frames := <[frame := a']> (frames s);
           awaiting := List.filter (fun f => negb (f =? frame)%nat)
                                   (awaiting s);
           outbox := outbox s ++ [RecordAction a'] |}
    | None => s
    end
  else s.

(** The object literal of the debounce callback of [handleInput], for an
    element whose [value] is the string [value]. *)
Definition input_object (el : element) (value : string) : action :=
  {| a_type := "input"; a_element := Some (el_info el);
     a_value := Some (maskSensitiveData value (el_field el));
     a_key := None; a_timestamp := None; a_screenshot := None |}.

(** The action object built by the debounce callback of [handleInput] on a
    locatable element; [None] when [element.value] is [undefined]:
    [maskSensitiveData] then throws a [TypeError] on [value.length] or
    [value.replace], and the callback ends there. *)
Definition input_action (el : element) : option action :=
  input_object el <$> el_value el.

(** The action object built by [handleKeydown]. *)
Definition keypress_action (el : element) (key : string) : action :=
  {| a_type := "keypress"; a_element := Some (el_info el);
     a_value := None; a_key := Some key; a_timestamp := None;
     a_screenshot := None |}.

(** The timer callbacks.  The debounce callback of [handleInput] builds
    its action object first: when [getElementInfo] throws (the element is
    unlocatable) or [maskSensitiveData] does (the element has no [value]),
    the callback ends with the exception, before [recordAction] and before
    [inputBuffer.delete]. *)
Definition fire (cb : callback) (s : state) : state :=
  match cb with
  | cb_input e =>
      match page s !! e with
      | Some el =>
          match input_action el with
          | Some a =>
              let s1 := recordAction a s in
              with_inputBuffer (delete e (inputBuffer s1)) s1
          | None => s
          end
      | None => s
      end
  | cb_settled frame => settled frame s
  end.

(** [clearTimeout(this.inputBuffer.get(element))], the new timer and
    [this.inputBuffer.set(element, timeoutId)]. *)
Definition debounce (e : nat) (s : state) : state :=
  let k0 := clearTimeout (inputBuffer s !! e) (clk s) in
  let '(timeoutId, k) := setTimeout (cb_input e) 500 k0 in
  with_inputBuffer (<[e := timeoutId]> (inputBuffer s)) (with_clock k s).

(** [handleInput(event)] with [event.target] the element [e]. *)
Definition handleInput (e : nat) (s : state) : state :=
  match page s !! e with
  | Some el => if shouldIgnoreElement el then s else debounce e s
  | None =>
      match unlocatable s !! e with
      | Some o => if shouldIgnoreOpaque o then s else debounce e s
      | None => s
      end
  end.

(** [handleKeydown(event)].  On an unlocatable target [getElementInfo]
    throws while the action object is built: nothing changes, as for a key
    that is not recorded. *)
Definition handleKeydown (e : nat) (key : string) (s : state) : state :=
  match page s !! e with
  | Some el =>
      if String.eqb key "Tab" || String.eqb key "Enter"
         || String.eqb key "Escape" then
        let a := keypress_action el key in
        if negb (isDuplicateAction a s) then recordAction a s else s
      else s
  | None => s
  end.

(** The wrapper that [attachListeners] registers for every event. *)
Definition dispatch (name : string) (handler : state -> state) (s : state)
    : state :=
  if existsb (String.eqb name) (listeners s) then
    if negb (isPaused s) && isRecording s then handler s else s
  else s.

(** What happens to the recorder: the user types into an element (its value,
    if it has one, becomes [v], then the [input] event is dispatched),
    presses a key, a
    non-timer stabilisation wait ends, the worker answers a screenshot
    request, or a control message arrives. *)
Inductive event :=
| Input (e : nat) (v : string)
| Keydown (e : nat) (key : string)
| Settled (frame : nat)
| ScreenshotReply (frame : nat) (shot : option string)
| Start (sid : string)
| Stop
| Pause
| Resume.

Definition handle (ev : event) (s : state) : state :=
  match ev with
  | Input e v =>
      let s1 := match page s !! e with
                | Some el => with_page (<[e := set_value v el]> (page s)) s
                | None => s
                end in
      dispatch "input" (handleInput e) s1
  | Keydown e key => dispatch "keydown" (handleKeydown e key) s
  | Settled frame => settled frame s
  | ScreenshotReply frame shot => replied frame shot s
  | Start sid => start sid s
  | Stop => stop s
  | Pause => pause s
  | Resume => resume s
  end.

Definition wait : nat -> state -> state := elapse clk with_clock fire.

Fixpoint run (schedule : list (nat * event)) (s : state) : state :=
  match schedule with
  | [] => s
  | (d, e) :: rest => run rest (handle e (wait d s))
  end.

(** The actions handed to the worker so far. *)
Definition sent (s : state) : list action :=
  omap (fun m => match m with
                 | RecordAction a => Some a
                 | CaptureScreenshot _ => None
                 end) (outbox s).

(** A recorder that has just been started on the page. *)
Definition recording (t0 : Z) (sid : string) (p : gmap nat element) : state :=
  start sid (new_recorder t0 p).

(** The recorder is attached and not paused. *)
Definition live (s : state) : Prop :=
  listeners s = event_names /\ isRecording s = true /\ isPaused s = false.

(** The clock is at least 100 ms past the epoch and no action object held by
    the recorder carries a [timestamp]. *)
Definition unstamped (s : state) : Prop :=
  (100 <= now (clk s))%Z /\
  (forall l, lastAction s = Some l -> a_timestamp l = None) /\
  Forall (fun a => a_timestamp a = None) (frames s).

(** The keys [handleKeydown] records. *)
Definition keys : list string := ["Tab"; "Enter"; "Escape"].

(** No timer is pending and the recorder is attached and not paused. *)
Definition at_rest (s : state) : Prop :=
  live s /\ pending (clk s) = [].

(** Since the recorder was in state [s0] the user has edited the element
    [e] to [v] and nothing has been recorded or sent; the only pending timer
    is the debounce timer [i] of [e], due in [r] milliseconds. *)
Definition armed (s0 : state) (e : nat) (el : element) (v : string)
    (i r : nat) (s : state) : Prop :=
  frames s = frames s0 /\ outbox s = outbox s0 /\
  awaiting s = awaiting s0 /\
  page s !! e = Some (set_value v el) /\
  pending (clk s) = [{| t_id := i; t_due := now (clk s) + Z.of_nat r;
                        t_cb := cb_input e |}].

(** The user is in the middle of a burst on [e] that began in state [s0]:
    the recorder is live and the debounce timer of [e], known to
    [inputBuffer], was set at the current time. *)
Definition typing (s0 : state) (e : nat) (el : element) (v : string)
    (s : state) : Prop :=
  live s /\
  exists i, inputBuffer s !! e = Some i /\ armed s0 e el v i 500 s.



End Recorder.

(** ** Sequences of registry operations *)

Module Lifecycle.
Import Action Background.

(** One call on the registry, addressed to a tab. *)
Inductive op :=
| OpStart (e : start_env)
| OpStop (now now' : Z)
| OpPause
| OpResume
| OpAdd (a : action) (uuid : string) (now : Z).

Definition apply_op (t : nat) (o : op) (m : manager) : manager :=
  match o with
  | OpStart e => fst (startRecording t e m)
  | OpStop now now' => fst (stopRecording t now now' m)
  | OpPause => fst (pauseRecording t m)
  | OpResume => fst (resumeRecording t m)
  | OpAdd a uuid now => fst (addAction t a uuid now m)
  end.

Definition apply_ops (t : nat) (ops : list op) (m : manager) : manager :=
  fold_left (fun acc o => apply_op t o acc) ops m.

(** An incoming [recordAction] message: the action, and the id and time the
    worker draws for it. *)
Definition arrival : Type := action * string * Z.

(** The entry [RecordingSession.addAction] stores for an arrival. *)
Definition entry_of (x : arrival) : stored :=
  let '(a, uuid, now) := x in
  {| s_id := uuid; s_timestamp := default now (a_timestamp a); s_action := a |}.

Definition addActions (t : nat) (xs : list arrival) (m : manager) : manager :=
  fold_left (fun acc x => let '(a, uuid, now) := x in
                          fst (addAction t a uuid now acc)) xs m.

End Lifecycle.

(** ** Saved recordings ([getSavedRecordings], [deleteRecording],
    [exportRecording]) *)

Module Saved.
Import Background.

Section Store.
Variable recording : Type.

(** [r.id] *)
Variable rid : recording -> string.

(** The three renderers [exportRecording] dispatches to:
    [JSON.stringify(recording, null, 2)], [generateMarkdown] and
    [generateHTML]. *)
Variable stringify : recording -> string.
Variable generateMarkdown : recording -> string.
Variable generateHTML : recording -> string.

(** [getSavedRecordings]: the stored list, or the empty one when nothing is
    stored or the read fails ([read_ok = false], the [catch] branch). *)
Definition getSavedRecordings (read_ok : bool) (st : storage recording)
    : list recording :=
  if read_ok then default [] st else [].

(** [recordings.findIndex(r => r.id === recordingId)]; [None] for [-1]. *)
Fixpoint findIndex (recordingId : string) (l : list recording) : option nat :=
  match l with
  | [] => None
  | r :: rest =>
      if String.eqb (rid r) recordingId then Some 0%nat
      else S <$> findIndex recordingId rest
  end.

(** [deleteRecording]: nothing is written when the id is not found, and a
    failing read or write leaves the store as it was. *)
Definition deleteRecording (recordingId : string) (o : io)
    (st : storage recording) : storage recording :=
  match o with
  | io_get_fails => st
  | _ =>
      let recordings := default [] st in
      match findIndex recordingId recordings with
      | Some index =>
          match o with
          | io_ok => Some (delete index recordings)
          | _ => st
          end
      | None => st
      end
  end.

(** [recordings.find(r => r.id === recordingId)] *)
Definition find_recording (recordingId : string) (l : list recording)
    : option recording :=
  List.find (fun r => String.eqb (rid r) recordingId) l.

(** [exportRecording]: [inl] carries the message of the error thrown. *)
Definition exportRecording (recordingId format : string) (read_ok : bool)
    (st : storage recording) : string + string :=
  match find_recording recordingId (getSavedRecordings read_ok st) with
  | None => inl "Recording not found"
  | Some r =>
      if String.eqb format "json" then inr (stringify r)
      else if String.eqb format "markdown" then inr (generateMarkdown r)
      else if String.eqb format "html" then inr (generateHTML r)
      else inl "Unsupported export format"
  end.

End Store.

End Saved.

(** ** The index-based fallback locator ([ElementSelector.getXPath]) *)

Module XPath.
Import JsString Dom.

(** Induction over a document tree: a property holds of an element when it
    holds of all its children. *)
Fixpoint node_induction (P : node -> Prop)
    (step : forall n, Forall P (children n) -> P n) (n : node) : P n :=
  step n
    (match n as n0 return Forall P (children n0) with
     | Node _ _ _ _ _ _ ch =>
         (fix all (l : list node) : Forall P l :=
            match l with
            | [] => @List.Forall_nil node P
            | c :: l' =>
                @List.Forall_cons node P c l' (node_induction P step c)
                                  (all l')
            end) ch
     end).

(** The paths below the children [cs], the first of which has index [i]. *)
Fixpoint child_paths (i : nat) (cs : list node) : list (list nat) :=
  match cs with
  | [] => []
  | c :: cs' => map (cons i) (paths c) ++ child_paths (S i) cs'
  end.

Definition is_body (n : node) : bool :=
  html n && (String.eqb (localName n) "body"
             || String.eqb (localName n) "frameset").

(** Index of the first element of [l] that satisfies [p]. *)
Fixpoint index_where {A : Type} (p : A -> bool) (l : list A) : option nat :=
  match l with
  | [] => None
  | x :: rest => if p x then Some 0%nat else S <$> index_where p rest
  end.

(** [document.body]: the first [body] or [frameset] child of the [html] root
    element, as a child index; [None] when there is none ([null]). *)
Definition body_index (doc : node) : option nat :=
  if html doc && String.eqb (localName doc) "html"
  then index_where is_body (children doc)
  else None.

(** The snapshot of all descendants of [document.body]: the elements
    strictly below the body, in document order.  [None] when [document.body]
    is [null], in which case [document.evaluate] throws. *)
Definition snapshot (doc : node) : option (list ref) :=
  match body_index doc with
  | None => None
  | Some b =>
      match children doc !! b with
      | None => None
      | Some body => Some (map (fun p => rev (b :: p)) (tail (paths body)))
      end
  end.

(** [getXPath(element)]: the outer [None] is the exception, the inner one
    the [null] returned when the loop finds nothing; [Some k] stands for the
    returned expression, which selects the [k]-th of all elements and is
    spelled out by [render_xpath]. *)
Definition getXPath (doc : node) (element : ref) : option (option nat) :=
  match snapshot doc with
  | None => None
  | Some allNodes =>
      Some (S <$> index_where (fun r => bool_decide (r = element)) allNodes)
  end.

Definition render_xpath (k : nat) : string :=
  "(//" +:+ "*" +:+ ")[" +:+ of_nat k +:+ "]".

(** What the returned expression selects when it is evaluated on the
    document: the [k]-th element in document order, counting from 1. *)
Definition evaluate (doc : node) (k : nat) : option ref :=
  match k with
  | O => None
  | S i => all_refs doc !! i
  end.

End XPath.

(** ** What [getElementInfo] gives the recorder *)

Module Locator.
Import JsString Dom.


End Locator.

(** ** Form capture ([ActionRecorder.extractFormData]) *)

Module Forms.
Import JsString Masking.

(** A member of [form.elements]: the attributes masking reads, the
    [disabled] and [checked] flags and the [value] property, which is
    [undefined] ([None]) on members such as [fieldset] and [object]. *)
Record control := {
  c_field : field;
  c_disabled : bool;
  c_checked : bool;
  c_value : option string
}.

(** [element.name] when it is truthy. *)
Definition named (c : control) : option string :=
  match f_name (c_field c) with
  | Some s => if String.eqb s "" then None else Some s
  | None => None
  end.

Definition has_type (t : string) (c : control) : bool :=
  bool_decide (f_type (c_field c) = Some t).

(** The object under construction: property name to value, [None] standing
    for a property that holds [undefined]. *)
Abbreviation formData := (gmap string (option string)).

(** [formData[name] = v].  Assigning a string or [undefined] to [__proto__]
    goes to the prototype setter, which ignores such values: no property is
    created. *)
Definition assign (name : string) (v : option string) (fd : formData)
    : formData :=
  if String.eqb name "__proto__" then fd else <[name := v]> fd.

(** The [for ... of] loop; [None] is the [TypeError] that
    [maskSensitiveData] raises on an [undefined] value. *)
Fixpoint extractFormData_loop (elements : list control) (fd : formData)
    : option formData :=
  match elements with
  | [] => Some fd
  | element :: rest =>
      match named element with
      | Some name =>
          if c_disabled element then extractFormData_loop rest fd
          else if has_type "password" element then
            extractFormData_loop rest (assign name (Some "***") fd)
          else if has_type "checkbox" element || has_type "radio" element then
            if c_checked element then
              extractFormData_loop rest (assign name (c_value element) fd)
            else extractFormData_loop rest fd
          else
            match c_value element with
            | Some v =>
                extractFormData_loop rest
                  (assign name
                     (Some (maskSensitiveData v (c_field element))) fd)
            | None => None
            end
      | None => extractFormData_loop rest fd
      end
  end.

Definition extractFormData (elements : list control) : option formData :=
  extractFormData_loop elements ∅.

(** What an entry of the result can come from: a password control (always
    the placeholder), a checked checkbox or radio button (its value), or any
    other control (its masked value). *)
Definition yields (c : control) (v : option string) : Prop :=
  (has_type "password" c = true /\ v = Some "***")
  \/ (has_type "password" c = false
      /\ has_type "checkbox" c || has_type "radio" c = true
      /\ c_checked c = true /\ v = c_value c)
  \/ (has_type "password" c = false
      /\ has_type "checkbox" c || has_type "radio" c = false
      /\ exists raw, c_value c = Some raw
                     /\ v = Some (maskSensitiveData raw (c_field c))).

(** A control on which the capture throws: named, enabled, neither password
    nor checkbox nor radio, and without a [value]. *)
Definition valueless (c : control) : bool :=
  bool_decide (named c <> None) && negb (c_disabled c)
  && negb (has_type "password" c)
  && negb (has_type "checkbox" c || has_type "radio" c)
  && bool_decide (c_value c = None).

End Forms.

(** ** The ceiling of the network-idle wait *)

Module NetworkCeiling.
Import EventLoop NetworkIdle.

(** The ceiling timer of the first invocation on a pristine page: it is the
    first timer set, at time [t0], with delay [maxWaitTime]. *)
Definition ceiling (t0 maxWaitTime : Z) : timer callback :=
  {| t_id := 1; t_due := t0 + maxWaitTime; t_cb := cb_ceiling 0 |}.

(** What holds of the first invocation whatever the page does: nothing but
    its ceiling timer has id 1, no idle timer variable holds that id, the
    promise was not resolved after the ceiling, and while it is unresolved
    the ceiling is not yet past and its timer is pending. *)
Definition guarded (t0 maxWaitTime : Z) (s : state) : Prop :=
  (1 < next_id (clk s))%nat /\
  (forall tm, In tm (pending (clk s)) -> t_id tm = 1%nat ->
              tm = ceiling t0 maxWaitTime) /\
  (forall c v, calls s !! c = Some v -> idleTimer v <> Some 1%nat) /\
  exists v, calls s !! 0%nat = Some v /\
    (forall t, resolved v = Some t -> (t <= t0 + maxWaitTime)%Z) /\
    (resolved v = None ->
       (now (clk s) <= t0 + maxWaitTime)%Z /\
       In (ceiling t0 maxWaitTime) (pending (clk s))).

(** A step that takes no time, keeps [guarded] and does not unresolve the
    first invocation. *)
Definition keeps (t0 maxWaitTime : Z) (s s' : state) : Prop :=
  now (clk s') = now (clk s) /\
  (guarded t0 maxWaitTime s -> guarded t0 maxWaitTime s') /\
  (is_Some (resolved_at 0 s) -> is_Some (resolved_at 0 s')).

(** Between two milliseconds: an unresolved first invocation is strictly
    before its ceiling. *)
Definition on_time (t0 maxWaitTime : Z) (s : state) : Prop :=
  guarded t0 maxWaitTime s /\
  (is_Some (resolved_at 0 s) \/ (now (clk s) < t0 + maxWaitTime)%Z).

End NetworkCeiling.

(** ** The e-mail redaction of [maskSensitiveData] *)

Module Redaction.
Import JsString Masking.

(** The two guards of [maskSensitiveData] that mask the whole value. *)
Definition sensitive (element : field) : bool :=
  bool_decide (f_type element = Some "password")
  || existsb
       (fun field =>
          includes (toLowerCase (or_undefined (f_name element)
                                 +:+ f_id element +:+ f_className element))
                   field)
       sensitiveFields.

(** Every character of [s] is in the class [p]. *)
Fixpoint all_chars (p : ascii -> bool) (s : string) : bool :=
  match s with
  | EmptyString => true
  | String c t => p c && all_chars p t
  end.

End Redaction.

(** ** Sample data *)

Module Samples.

(** Sixty saves on a fresh store, one of them failing on the write. *)
Definition sixty_saves : list (nat * Background.io) :=
  map (fun n => (n, if (n =? 7)%nat then Background.io_set_fails
                    else Background.io_ok)) (seq 1 60).

(** The tab as [chrome.tabs.get] reports it: url and title. *)
Definition tab_info : string * string := ("https://example.org/", "Example").

Definition first_start : Background.start_env :=
  {| Background.e_tab := Some tab_info; Background.e_uuid := "session-1";
     Background.e_now := 1000; Background.e_userAgent := "UA";
     Background.e_messageError := false |}.

Definition second_start : Background.start_env :=
  {| Background.e_tab := Some tab_info; Background.e_uuid := "session-2";
     Background.e_now := 5000; Background.e_userAgent := "UA";
     Background.e_messageError := false |}.

Definition a_click : Action.action :=
  {| Action.a_type := "click";
     Action.a_element := Some {| Action.ei_selector := "#submit-btn";
                                 Action.ei_tag := "BUTTON" |};
     Action.a_value := None; Action.a_key := None;
     Action.a_timestamp := None; Action.a_screenshot := None |}.

(** Tab 7 is recording and has buffered one action. *)
Definition busy_registry : Background.manager :=
  fst (Background.addAction 7 a_click "action-1" 2000
         (fst (Background.startRecording 7 first_start
                 Background.empty_manager))).

(** An HTML element without test id and aria label. *)
Definition elem (t i : string) (cs : list string) (ch : list Dom.node)
    : Dom.node :=
  {| Dom.localName := t; Dom.html := true; Dom.nid := i;
     Dom.testid := None; Dom.aria := None;
     Dom.classList := cs; Dom.children := ch |}.


(** Two cards that share the id [card], each holding one [span.label], and
    two paragraphs of class [note]. *)
Definition sample_doc : Dom.node :=
  elem "html" "" []
    [elem "head" "" [] [];
     elem "body" "" []
       [elem "div" "card" [] [elem "span" "" ["label"; "is-active"] []];
        elem "div" "card" [] [elem "span" "" ["label"] []];
        elem "p" "" ["note"] [];
        elem "p" "" ["note"; "hover-only"] []]].


(** A text input of id [q]. *)
Definition search_box : Recorder.element :=
  {| Recorder.el_field :=
       {| Masking.f_name := Some "q"; Masking.f_id := "q";
          Masking.f_className := ""; Masking.f_type := Some "text" |};
     Recorder.el_tagName := "INPUT"; Recorder.el_value := Some "";
     Recorder.el_in_overlay := false;
     Recorder.el_info := {| Action.ei_selector := "#q";
                            Action.ei_tag := "INPUT" |} |}.



(** A page with a form: every id occurs once. *)
Definition form_doc : Dom.node :=
  elem "html" "" []
    [elem "head" "" [] [];
     elem "body" "" []
       [elem "form" "login" ["panel"]
          [elem "input" "user" ["field"] [];
           elem "input" "" ["field"] []];
        {| Dom.localName := "button"; Dom.html := true;
           Dom.nid := "submit-btn";
           Dom.testid := Some "submit"; Dom.aria := Some "Send";
           Dom.classList := ["primary"]; Dom.children := [] |}]].

Definition control (name type value : string) (checked : bool)
    : Forms.control :=
  {| Forms.c_field := {| Masking.f_name := Some name; Masking.f_id := "";
                         Masking.f_className := "";
                         Masking.f_type := Some type |};
     Forms.c_disabled := false; Forms.c_checked := checked;
     Forms.c_value := Some value |}.

(** A login form: user name, password, a "remember me" box left unchecked
    and a pair of radio buttons. *)
Definition login_form : list Forms.control :=
  [control "user" "text" "jane.doe@example.com" false;
   control "pw" "password" "hunter2" false;
   control "remember" "checkbox" "on" false;
   control "plan" "radio" "free" false;
   control "plan" "radio" "pro" true].

(** The same form wrapped in a named field set, which has no value. *)
Definition fieldset_form : list Forms.control :=
  {| Forms.c_field := {| Masking.f_name := Some "account";
                         Masking.f_id := ""; Masking.f_className := "";
                         Masking.f_type := Some "fieldset" |};
     Forms.c_disabled := false; Forms.c_checked := false;
     Forms.c_value := None |} :: login_form.

End Samples.

(** * Properties *)

(** ** Masking *)

Section MaskingFacts.
Import JsString Masking.

Lemma length_repeat c n : String.length (JsString.repeat c n) = n.
Proof. induction n as [|n IH]; simpl; congruence. Qed.

Lemma all_char_repeat c n : all_char c (JsString.repeat c n) = true.
Proof.
  induction n as [|n IH]; simpl; [reflexivity|].
  rewrite Ascii.eqb_refl. exact IH.
Qed.

Lemma all_char_is_repeat c s :
  all_char c s = true -> s = JsString.repeat c (String.length s).
Proof.
  induction s as [|d t IH]; simpl; [reflexivity|].
  intros H. apply andb_true_iff in H as [Hd Ht].
  apply Ascii.eqb_eq in Hd. subst d. f_equal. auto.
Qed.

Lemma prefix_append sub post : String.prefix sub (sub +:+ post) = true.
Proof.
  induction sub as [|c t IH]; simpl.
  - destruct post; reflexivity.
  - destruct (ascii_dec c c); [exact IH | congruence].
Qed.

(** [includes] finds every occurrence of [sub]. *)
Lemma includes_occurrence pre sub post :
  includes (pre +:+ sub +:+ post) sub = true.
Proof.
  induction pre as [|c t IH].
  - change (EmptyString +:+ sub +:+ post) with (sub +:+ post).
    assert (U : forall s, String.prefix sub s = true ->
                          includes s sub = true).
    { intros s H. destruct s; cbn [includes]; rewrite H; reflexivity. }
    apply U, prefix_append.
  - change (String c t +:+ sub +:+ post)
      with (String c (t +:+ sub +:+ post)).
    cbn [includes]. rewrite IH. apply orb_true_r.
Qed.

Lemma toLowerCase_append a b :
  toLowerCase (a +:+ b) = toLowerCase a +:+ toLowerCase b.
Proof. induction a as [|c t IH]; simpl; [reflexivity|]. by rewrite IH. Qed.

Lemma match_email_mask n : match_email (JsString.repeat mask_char n) = None.
Proof. destruct n; reflexivity. Qed.

(** A run of mask characters contains nothing that looks like an e-mail
    address, so the redaction leaves it alone. *)
Lemma replace_emails_mask n :
  replace_emails 0 (JsString.repeat mask_char n) = JsString.repeat mask_char n.
Proof.
  induction n as [|n IH]; [reflexivity|].
  change (JsString.repeat mask_char (S n))
    with (String mask_char (JsString.repeat mask_char n)).
  unfold replace_emails; fold replace_emails.
  change (String mask_char (JsString.repeat mask_char n))
    with (JsString.repeat mask_char (S n)).
  rewrite match_email_mask. rewrite IH. reflexivity.
Qed.

End MaskingFacts.

(** C6.  When the field is a password input, or the concatenation of its
    name, id and class contains some word [w] that is one of the sensitive
    keywords up to letter case, [maskSensitiveData] returns a run of mask
    characters of the length of the value. *)
Theorem maskSensitiveData_sensitive (v : string) (element : Masking.field) :
  (Masking.f_type element = Some "password" \/
   exists w pre post,
     In (JsString.toLowerCase w) Masking.sensitiveFields /\
     JsString.or_undefined (Masking.f_name element)
       +:+ Masking.f_id element +:+ Masking.f_className element
     = pre +:+ w +:+ post) ->
  Masking.maskSensitiveData v element
    = JsString.repeat Masking.mask_char (String.length v)
  /\ JsString.all_char Masking.mask_char (Masking.maskSensitiveData v element)
     = true
  /\ String.length (Masking.maskSensitiveData v element) = String.length v.
Proof.
  intros H.
  assert (E : Masking.maskSensitiveData v element
              = JsString.repeat Masking.mask_char (String.length v)).
  { unfold Masking.maskSensitiveData.
    destruct (decide (Masking.f_type element = Some "password")) as [|Hn];
      [reflexivity|].
    destruct H as [H | (w & pre & post & Hin & Heq)]; [contradiction|].
    rewrite Heq, !toLowerCase_append.
    replace (existsb _ Masking.sensitiveFields) with true; [reflexivity|].
    symmetry. apply existsb_exists. exists (JsString.toLowerCase w).
    split; [exact Hin|]. apply includes_occurrence. }
  rewrite E. split; [reflexivity|]. split.
  - apply all_char_repeat.
  - apply length_repeat.
Qed.

(** A password field with value ["hunter2"] yields seven mask characters,
    and so does a text field whose class name holds a keyword in mixed
    case. *)
Lemma maskSensitiveData_sensitive_witness :
  let pw := {| Masking.f_name := Some "pw"; Masking.f_id := "login-pw";
               Masking.f_className := "field"; Masking.f_type := Some "password" |} in
  let card := {| Masking.f_name := None; Masking.f_id := "n";
                 Masking.f_className := "input CreditNo";
                 Masking.f_type := Some "text" |} in
  (Masking.maskSensitiveData "hunter2" pw = "*******"
   /\ JsString.all_char Masking.mask_char (Masking.maskSensitiveData "hunter2" pw)
      = true
   /\ String.length (Masking.maskSensitiveData "hunter2" pw) = 7%nat)
  /\ (Masking.maskSensitiveData "hunter2" card = "*******"
      /\ JsString.all_char Masking.mask_char
           (Masking.maskSensitiveData "hunter2" card) = true
      /\ String.length (Masking.maskSensitiveData "hunter2" card) = 7%nat).
Proof.
  intros pw card. split.
  - apply (maskSensitiveData_sensitive "hunter2" pw).
    left. reflexivity.
  - apply (maskSensitiveData_sensitive "hunter2" card).
    right. exists "Credit", "undefinedninput ", "No". split; [|reflexivity].
    right. left. reflexivity.
Defined.

Example maskSensitiveData_email :
  Masking.maskSensitiveData "contact jane.doe@example.com please"
    {| Masking.f_name := Some "note"; Masking.f_id := "n";
       Masking.f_className := ""; Masking.f_type := Some "text" |}
  = "contact j***@example.com please".
Proof. reflexivity. Qed.

(** C9.  Masking is idempotent on masked values: a string made of mask
    characters only is returned unchanged, whatever the field. *)
Theorem maskSensitiveData_idempotent_on_masked (s : string)
    (element : Masking.field) :
  JsString.all_char Masking.mask_char s = true ->
  Masking.maskSensitiveData s element = s.
Proof.
  intros H. apply all_char_is_repeat in H.
  set (n := String.length s) in *.
  assert (Hn : String.length s = n) by reflexivity.
  unfold Masking.maskSensitiveData. rewrite Hn.
  destruct (decide _); [congruence|].
  destruct (existsb _ _); [congruence|].
  rewrite H at 1. rewrite replace_emails_mask. congruence.
Qed.

Lemma maskSensitiveData_idempotent_on_masked_witness :
  JsString.all_char Masking.mask_char "*****" = true
  /\ Masking.maskSensitiveData "*****"
       {| Masking.f_name := Some "comment"; Masking.f_id := "c";
          Masking.f_className := "wide"; Masking.f_type := Some "text" |}
     = "*****".
Proof.
  split; [reflexivity|].
  apply (maskSensitiveData_idempotent_on_masked "*****"). reflexivity.
Defined.

(** ** The session registry *)

Section RegistryFacts.
Import Action Background.

Lemma state_of_stopped t now now' m :
  state_of t (fst (stopRecording t now now' m)) = Idle.
Proof.
  unfold stopRecording, state_of.
  destruct (sessions m !! t) eqn:E; simpl.
  - by rewrite lookup_delete_eq.
  - by rewrite E.
Qed.

Lemma state_of_paused t m :
  state_of t (fst (pauseRecording t m)) <> Recording.
Proof.
  unfold pauseRecording, state_of.
  destruct (sessions m !! t) eqn:E; simpl.
  - rewrite lookup_insert_eq. simpl. discriminate.
  - rewrite E. discriminate.
Qed.

Lemma state_of_resumed t m s :
  sessions m !! t = Some s ->
  state_of t (fst (resumeRecording t m)) = Recording.
Proof.
  intros E. unfold resumeRecording, state_of. rewrite E. simpl.
  by rewrite lookup_insert_eq.
Qed.

(** In the Recording state the action is appended at the end. *)
Lemma addAction_recording t a uuid now m :
  state_of t m = Recording ->
  snd (addAction t a uuid now m) = true /\
  actions_of t (fst (addAction t a uuid now m))
  = actions_of t m ++ [{| s_id := uuid;
                          s_timestamp := default now (a_timestamp a);
                          s_action := a |}].
Proof.
  unfold state_of, addAction, actions_of.
  destruct (sessions m !! t) as [s|] eqn:E; [|discriminate].
  destruct (truthy (isPaused s)); [discriminate|]. intros _. simpl.
  by rewrite lookup_insert_eq.
Qed.

Lemma saveRecording_ok (R : Type) (r : R) (st : storage R) :
  saveRecording R r io_ok st = Some (firstn 50 (r :: default [] st)).
Proof.
  unfold saveRecording. f_equal.
  destruct (50 <? length (r :: default [] st))%nat eqn:E; [reflexivity|].
  apply Nat.ltb_ge in E. symmetry. by apply firstn_all2.
Qed.

Lemma firstn_50_cons (R : Type) (r : R) (l : list R) :
  firstn 50 (r :: firstn 50 l) = firstn 50 (r :: l).
Proof.
  change 50%nat with (S 49) at 1 3. rewrite !firstn_cons. f_equal.
  rewrite firstn_firstn. reflexivity.
Qed.

Lemma saveAll_snoc (R : Type) (calls : list (R * io)) c (st : storage R) :
  saveAll R (calls ++ [c]) st = saveRecording R (fst c) (snd c) (saveAll R calls st).
Proof. unfold saveAll. by rewrite fold_left_app. Qed.

Lemma saved_snoc (R : Type) (calls : list (R * io)) c :
  saved R (calls ++ [c])
  = saved R calls ++ (if succeeded (snd c) then [fst c] else []).
Proof.
  unfold saved. rewrite List.filter_app, map_app. simpl.
  destruct (succeeded (snd c)); reflexivity.
Qed.

(** The contents of the store after any sequence of saves. *)
Lemma saveAll_contents (R : Type) (calls : list (R * io)) (st : storage R) :
  saveAll R calls st
  = match saved R calls with
    | [] => st
    | _ :: _ => Some (firstn 50 (rev (saved R calls) ++ default [] st))
    end.
Proof.
  induction calls as [|c calls IH] using rev_ind; [reflexivity|].
  rewrite saveAll_snoc, saved_snoc, IH.
  destruct c as [r o]. simpl fst. simpl snd.
  destruct o; simpl succeeded; rewrite ?app_nil_r; try reflexivity.
  rewrite saveRecording_ok, rev_app_distr. simpl rev. simpl app.
  destruct (saved R calls) as [|x l] eqn:E.
  - reflexivity.
  - simpl default. rewrite firstn_50_cons.
    by destruct (l ++ [r]) eqn:E2; [destruct l; discriminate|].
Qed.

End RegistryFacts.

(** C5.  An append for a tab that is not in the Recording state (paused, or
    without an active session) reports failure and leaves the whole registry,
    hence the tab's action sequence, unchanged. *)
Theorem addAction_rejected_unless_recording (t : nat) (a : Action.action)
    (uuid : string) (now : Z) (m : Background.manager) :
  Background.state_of t m <> Background.Recording ->
  Background.addAction t a uuid now m = (m, false).
Proof.
  unfold Background.state_of, Background.addAction.
  destruct (Background.sessions m !! t) as [s|]; [|reflexivity].
  destruct (Background.truthy (Background.isPaused s)); [reflexivity|].
  intros H. by destruct H.
Qed.

(** On the sample registry the append is refused once tab 7 is paused, and
    again once it is stopped; the buffered action is still the only one. *)
Lemma addAction_rejected_unless_recording_witness :
  let paused := fst (Background.pauseRecording 7 Samples.busy_registry) in
  let stopped :=
    fst (Background.stopRecording 7 9000 9000 Samples.busy_registry) in
  Background.addAction 7 Samples.a_click "action-2" 3000 paused = (paused, false)
  /\ Background.addAction 7 Samples.a_click "action-2" 9500 stopped
     = (stopped, false).
Proof.
  intros paused stopped. split.
  - apply (addAction_rejected_unless_recording 7 Samples.a_click "action-2"
             3000 paused).
    apply state_of_paused.
  - apply (addAction_rejected_unless_recording 7 Samples.a_click "action-2"
             9500 stopped).
    unfold stopped. rewrite state_of_stopped. discriminate.
Defined.

Example addAction_while_recording :
  snd (Background.addAction 7 Samples.a_click "action-2" 3000
         Samples.busy_registry) = true
  /\ length (Background.actions_of 7
               (fst (Background.addAction 7 Samples.a_click "action-2" 3000
                       Samples.busy_registry))) = 2%nat
  /\ length (Background.actions_of 7
               (fst (Background.pauseRecording 7 Samples.busy_registry)))
     = 1%nat.
Proof. vm_compute. repeat split; reflexivity. Qed.

(** C10.  After any sequence of saves of which at least one went through, the
    store holds the 50 most recent of the saved recordings (followed by what
    was stored before), newest first: its head is the last recording saved
    and it has at most 50 entries. *)
Theorem saveRecording_keeps_50_most_recent (R : Type)
    (calls : list (R * Background.io)) (st : Background.storage R) :
  Background.saved R calls <> [] ->
  exists l,
    Background.saveAll R calls st = Some l
    /\ l = firstn 50 (rev (Background.saved R calls) ++ default [] st)
    /\ head l = last (Background.saved R calls)
    /\ (length l <= 50)%nat.
Proof.
  intros Hne. rewrite saveAll_contents.
  destruct (Background.saved R calls) as [|x l] eqn:E; [done|].
  eexists. split; [reflexivity|]. split; [reflexivity|]. split.
  - assert (Hl : x :: l <> []) by discriminate.
    destruct (x :: l) as [|y k _] using rev_ind; [done|].
    rewrite rev_app_distr, last_snoc. reflexivity.
  - rewrite length_firstn. lia.
Qed.

Lemma saveRecording_keeps_50_most_recent_witness :
  exists l,
    Background.saveAll nat Samples.sixty_saves None = Some l
    /\ l = firstn 50 (rev (Background.saved nat Samples.sixty_saves) ++ [])
    /\ head l = Some 60%nat
    /\ (length l <= 50)%nat.
Proof.
  apply (saveRecording_keeps_50_most_recent nat Samples.sixty_saves None).
  vm_compute. discriminate.
Defined.

Example saveRecording_sixty :
  Background.saveAll nat Samples.sixty_saves None = Some (rev (seq 11 50)).
Proof. vm_compute. reflexivity. Qed.

(** A failed save leaves the store as it was. *)
Lemma saveRecording_failure_keeps_store (R : Type) (r : R)
    (o : Background.io) (st : Background.storage R) :
  Background.succeeded o = false -> Background.saveRecording R r o st = st.
Proof. destruct o; [discriminate|reflexivity|reflexivity]. Qed.

(** ** Starting a session on a tab that already has one *)

(** C2, as stated, fails: a second start on the recording tab 7 is resolved
    with a new session, which takes the place of the active one. *)
Lemma startRecording_active_counterexample :
  let before := Samples.busy_registry in
  let again := Background.startRecording 7 Samples.second_start before in
  Background.id <$> Background.getSession 7 before = Some "session-1"
  /\ length (Background.actions_of 7 before) = 1%nat
  /\ Background.id <$> snd again = Some "session-2"
  /\ Background.id <$> Background.getSession 7 (fst again) = Some "session-2"
  /\ Background.actions_of 7 (fst again) = [].
Proof. vm_compute. repeat split; reflexivity. Qed.

(** C2, amended.  A start on a tab with an active session does not fail: the
    registry puts a freshly created session (new id, no actions) in the place
    of the active one and resolves with it.  The registry maps each tab to at
    most one session, and the recorder of the page ignores a start while it
    is recording. *)
Theorem startRecording_replaces_active_session (t : nat)
    (e : Background.start_env) (tab : string * string)
    (m : Background.manager) (old : Background.session) :
  Background.sessions m !! t = Some old ->
  Background.e_tab e = Some tab ->
  Background.e_messageError e = false ->
  let m' := fst (Background.startRecording t e m) in
  snd (Background.startRecording t e m) = Some (Background.new_session t e tab)
  /\ Background.getSession t m' = Some (Background.new_session t e tab)
  /\ Background.actions_of t m' = []
  /\ (forall t', t' <> t ->
        Background.getSession t' m' = Background.getSession t' m)
  /\ NoDup (fst <$> map_to_list (Background.sessions m'))
  /\ (forall sid s, Recorder.isRecording s = true -> Recorder.start sid s = s).
Proof.
  intros Hold Htab Hmsg m'. subst m'.
  unfold Background.startRecording, Background.getSession,
    Background.actions_of.
  rewrite Htab, Hmsg. simpl.
  rewrite lookup_insert_eq. repeat split.
  - intros t' Hne. by rewrite lookup_insert_ne.
  - apply NoDup_fst_map_to_list.
  - intros sid s H. unfold Recorder.start. by rewrite H.
Qed.

Lemma startRecording_replaces_active_session_witness :
  let before := Samples.busy_registry in
  let fresh :=
    Background.new_session 7 Samples.second_start Samples.tab_info in
  let m' := fst (Background.startRecording 7 Samples.second_start before) in
  snd (Background.startRecording 7 Samples.second_start before) = Some fresh
  /\ Background.getSession 7 m' = Some fresh
  /\ Background.actions_of 7 m' = []
  /\ (forall t', t' <> 7%nat ->
        Background.getSession t' m' = Background.getSession t' before)
  /\ NoDup (fst <$> map_to_list (Background.sessions m'))
  /\ (forall sid s, Recorder.isRecording s = true -> Recorder.start sid s = s).
Proof.
  apply (startRecording_replaces_active_session 7 Samples.second_start
           Samples.tab_info Samples.busy_registry
           (Background.session_addAction Samples.a_click "action-1" 2000
              (Background.new_session 7 Samples.first_start
                 Samples.tab_info))).
  - vm_compute. reflexivity.
  - reflexivity.
  - reflexivity.
Defined.

(** ** The event loop *)

Section LoopFacts.
Import EventLoop.
Variables C S : Type.
Variable clock_of : S -> clock C.
Variable with_clock : clock C -> S -> S.
Variable fire : C -> S -> S.
Hypothesis get_put : forall k s, clock_of (with_clock k s) = k.
Hypothesis put_put : forall k k' s, with_clock k' (with_clock k s) = with_clock k' s.
Hypothesis put_get : forall s, with_clock (clock_of s) s = s.

Lemma filter_none {A} (p : A -> bool) (l : list A) :
  Forall (fun x => p x = false) l -> List.filter p l = [].
Proof.
  induction 1 as [|x l Hx _ IH]; simpl; [reflexivity|]. by rewrite Hx.
Qed.

Lemma tick_quiet s :
  quiet_for 1 (clock_of s) ->
  tick clock_of with_clock fire s = with_clock (later 1 (clock_of s)) s.
Proof.
  intros Hq. unfold tick. rewrite filter_none; [reflexivity|].
  eapply List.Forall_impl; [|exact Hq].
  intros tm H. simpl in *. unfold due_by. simpl. apply Z.leb_gt. lia.
Qed.

(** While no timer is due, time passes and nothing else happens. *)
Lemma elapse_quiet d s :
  quiet_for d (clock_of s) ->
  elapse clock_of with_clock fire d s = with_clock (later d (clock_of s)) s.
Proof.
  revert s. induction d as [|d IH]; intros s Hq.
  - simpl. rewrite <- (put_get s) at 1. f_equal.
    destruct (clock_of s). unfold later. simpl. f_equal. lia.
  - simpl. rewrite tick_quiet.
    + rewrite IH.
      * rewrite get_put, put_put. f_equal. unfold later. simpl. f_equal. lia.
      * rewrite get_put. unfold quiet_for in *. simpl.
        eapply List.Forall_impl; [|exact Hq]. simpl. intros; lia.
    + unfold quiet_for in *. eapply List.Forall_impl; [|exact Hq].
      simpl. intros; lia.
Qed.

Lemma elapse_add a b s :
  elapse clock_of with_clock fire (a + b) s
  = elapse clock_of with_clock fire b (elapse clock_of with_clock fire a s).
Proof. revert s. induction a as [|a IH]; intros s; simpl; [reflexivity|apply IH]. Qed.

(** A lone timer runs exactly when it falls due. *)
Lemma elapse_until_due d s tm :
  pending (clock_of s) = [tm] ->
  t_due tm = (now (clock_of s) + Z.of_nat (Datatypes.S d))%Z ->
  elapse clock_of with_clock fire (Datatypes.S d) s
  = fire (t_cb tm)
      (with_clock {| now := t_due tm; next_id := next_id (clock_of s);
                     pending := [] |} s).
Proof.
  intros Hp Hdue.
  replace (Datatypes.S d) with (d + 1)%nat by lia.
  rewrite elapse_add, (elapse_quiet d s).
  2:{ unfold quiet_for. rewrite Hp. constructor; [lia|constructor]. }
  cbn [elapse]. unfold tick. rewrite get_put. simpl.
  rewrite Hp. simpl. unfold due_by.
  assert (E : (t_due tm <=? now (clock_of s) + Z.of_nat d + 1)%Z = true)
    by (apply Z.leb_le; lia).
  rewrite E. simpl. unfold fire_one. rewrite get_put, put_put.
  unfold is_pending. simpl. rewrite Hp. simpl. rewrite Nat.eqb_refl. simpl.
  rewrite put_put. do 2 f_equal. f_equal. lia.
Qed.

End LoopFacts.

(** ** DOM-mutation quiescence *)

Section DomStabilityFacts.
Import EventLoop DomStability.

Lemma ds_get_put k s : clk (with_clock k s) = k.
Proof. reflexivity. Qed.
Lemma ds_put_put k k' s : with_clock k' (with_clock k s) = with_clock k' s.
Proof. reflexivity. Qed.
Lemma ds_put_get s : with_clock (clk s) s = s.
Proof. by destruct s. Qed.

Lemma wait_quiet d s :
  quiet_for d (clk s) -> wait d s = with_clock (later d (clk s)) s.
Proof.
  apply (elapse_quiet callback state clk with_clock fire
           ds_get_put ds_put_put ds_put_get).
Qed.

(** Clearing the silence timer and setting it again keeps watching. *)
Lemma rearm_watching (t : Z) (n i : nat) (due : Z) (fr : bool) :
  watching
    (arm 200
       (disarm {| clk := {| now := t; next_id := n;
                            pending := [{| t_id := i; t_due := due;
                                           t_cb := cb_done |}] |};
                  timeout := Some i; observer := Some true;
                  frame_requested := fr; resolved := None |})).
Proof.
  unfold watching, arm, disarm. simpl.
  rewrite Nat.eqb_refl. simpl. repeat split. eauto.
Qed.

Lemma mutation_keeps_watching d s :
  (d < 200)%nat -> watching s ->
  watching (handle Mutation (wait d s))
  /\ now (clk (handle Mutation (wait d s))) = (now (clk s) + Z.of_nat d)%Z.
Proof.
  intros Hd (Hres & Hobs & i & Hto & Hp).
  rewrite wait_quiet.
  2:{ unfold quiet_for. rewrite Hp. constructor; [simpl; lia|constructor]. }
  destruct s as [[t n p] to ob fr res]. simpl in *. subst.
  unfold on_mutation. simpl. split.
  - apply rearm_watching.
  - unfold arm, disarm. simpl. reflexivity.
Qed.

Lemma frame_starts_watching f t0 :
  (f < 1000)%nat ->
  watching (handle Frame (wait f (waitForDOMStability t0)))
  /\ now (clk (handle Frame (wait f (waitForDOMStability t0))))
     = (t0 + Z.of_nat f)%Z.
Proof.
  intros Hf. rewrite wait_quiet.
  2:{ unfold quiet_for. simpl. constructor; [simpl; lia|constructor]. }
  simpl. unfold on_frame. simpl. split; [|reflexivity].
  unfold watching. simpl. repeat split. eauto.
Qed.

Lemma mutations_keep_watching gaps s :
  Forall (fun d => (d < 200)%nat) gaps -> watching s ->
  watching (run (map (fun d => (d, Mutation)) gaps) s)
  /\ now (clk (run (map (fun d => (d, Mutation)) gaps) s))
     = (now (clk s) + Z.of_nat (list_sum gaps))%Z.
Proof.
  intros Hg. revert s. induction Hg as [|d gaps Hd _ IH]; intros s Hw.
  - simpl. split; [exact Hw|lia].
  - cbn [run map]. destruct (mutation_keeps_watching d s Hd Hw) as [Hw' Hn].
    destruct (IH _ Hw') as [Hw'' Hn'']. split; [exact Hw''|].
    rewrite Hn'', Hn. change (list_sum (d :: gaps)) with (d + list_sum gaps)%nat. lia.
Qed.

End DomStabilityFacts.

(** C1 fails on the code: the 1000 ms timer is stored in the same variable as
    the 200 ms silence timer, so the animation-frame callback cancels it.
    Once the frame has run (after [f] ms), mutations less than 200 ms apart
    keep the promise unresolved for as long as they go on. *)
Theorem waitForDOMStability_no_ceiling_under_mutation (t0 : Z) (f : nat)
    (gaps : list nat) :
  (f < 1000)%nat ->
  Forall (fun d => (d < 200)%nat) gaps ->
  let s := DomStability.run
             ((f, DomStability.Frame)
              :: map (fun d => (d, DomStability.Mutation)) gaps)
             (DomStability.waitForDOMStability t0) in
  DomStability.resolved s = None
  /\ EventLoop.now (DomStability.clk s)
     = (t0 + Z.of_nat f + Z.of_nat (list_sum gaps))%Z.
Proof.
  intros Hf Hg s. subst s. cbn [DomStability.run].
  destruct (frame_starts_watching f t0 Hf) as [Hw Hn].
  destruct (mutations_keep_watching gaps _ Hg Hw) as [Hw' Hn'].
  split; [apply Hw'|]. rewrite Hn', Hn. reflexivity.
Qed.

(** Frame after 16 ms, then a mutation every 150 ms: 1516 ms after the
    invocation the promise is still pending. *)
Lemma waitForDOMStability_no_ceiling_under_mutation_witness :
  let s := DomStability.run
             ((16%nat, DomStability.Frame)
              :: map (fun d => (d, DomStability.Mutation)) (List.repeat 150%nat 10))
             (DomStability.waitForDOMStability 5000) in
  DomStability.resolved s = None
  /\ EventLoop.now (DomStability.clk s) = 6516%Z.
Proof.
  apply (waitForDOMStability_no_ceiling_under_mutation 5000 16
           (List.repeat 150%nat 10)).
  - lia.
  - repeat constructor.
Defined.

(** Without a frame callback the ceiling holds, and after the last mutation
    the promise resolves once 200 ms have passed in silence. *)
Example waitForDOMStability_ceiling_without_frame :
  DomStability.resolved
    (DomStability.wait 1000 (DomStability.waitForDOMStability 5000))
  = Some 6000%Z
  /\ DomStability.resolved
       (DomStability.wait 999 (DomStability.waitForDOMStability 5000)) = None.
Proof. vm_compute. split; reflexivity. Qed.

Example waitForDOMStability_quiescence :
  DomStability.resolved
    (DomStability.wait 200
       (DomStability.run [(16%nat, DomStability.Frame);
                          (100%nat, DomStability.Mutation)]
          (DomStability.waitForDOMStability 5000)))
  = Some 5316%Z.
Proof. vm_compute. reflexivity. Qed.

(** ** Network-idle detection *)

Section NetworkIdleFacts.
Import EventLoop NetworkIdle.

Lemma ni_put_get s : with_clock (clk s) s = s.
Proof. by destruct s. Qed.

Lemma ni_wait_quiet d s :
  quiet_for d (clk s) ->
  wait d s = with_clock (later d (clk s)) s.
Proof.
  apply (elapse_quiet callback state clk with_clock fire);
    [reflexivity | reflexivity | apply ni_put_get].
Qed.

Lemma ni_wait_add a b s : wait (a + b) s = wait b (wait a s).
Proof. apply elapse_add. Qed.

End NetworkIdleFacts.

(** C3 fails on the code: only the ceiling callback restores the hooks.  On a
    page without requests the promise of [waitForNetworkIdle(maxWaitTime)]
    is resolved by the idle timer after 300 ms, and at that moment the three
    globals still hold the wrappers of this invocation. *)
Theorem waitForNetworkIdle_idle_path_keeps_hooks (t0 maxWaitTime : Z) :
  (300 < maxWaitTime)%Z ->
  let s0 := NetworkIdle.pristine t0 in
  let s := NetworkIdle.wait 300 (NetworkIdle.waitForNetworkIdle maxWaitTime s0) in
  NetworkIdle.resolved_at 0 (NetworkIdle.wait 299
       (NetworkIdle.waitForNetworkIdle maxWaitTime s0)) = None
  /\ NetworkIdle.resolved_at 0 s = Some (t0 + 300)%Z
  /\ NetworkIdle.win s
     = {| NetworkIdle.fetch := NetworkIdle.wrapper 0;
          NetworkIdle.xhr_open := NetworkIdle.wrapper 0;
          NetworkIdle.xhr_send := NetworkIdle.wrapper 0 |}
  /\ NetworkIdle.win s <> NetworkIdle.win s0.
Proof.
  intros Hmax s0 s. subst s s0.
  change 300%nat with (299 + 1)%nat.
  rewrite ni_wait_add.
  rewrite ni_wait_quiet.
  2:{ unfold EventLoop.quiet_for. simpl.
      constructor; [simpl; lia|constructor; [simpl; lia|constructor]]. }
  split; [reflexivity|].
  unfold NetworkIdle.wait. cbn [EventLoop.elapse].
  unfold EventLoop.tick. simpl.
  unfold EventLoop.due_by. simpl.
  assert (E1 : (t0 + maxWaitTime <=? t0 + Z.of_nat 299 + 1)%Z = false)
    by (apply Z.leb_gt; lia).
  assert (E2 : (t0 + 300 <=? t0 + Z.of_nat 299 + 1)%Z = true)
    by (apply Z.leb_le; lia).
  rewrite E1, E2.
  simpl. unfold NetworkIdle.resolved_at. simpl.
  repeat split; try discriminate. f_equal. lia.
Qed.

Lemma waitForNetworkIdle_idle_path_keeps_hooks_witness :
  let s0 := NetworkIdle.pristine 0 in
  let s := NetworkIdle.wait 300 (NetworkIdle.waitForNetworkIdle 1000 s0) in
  NetworkIdle.resolved_at 0 (NetworkIdle.wait 299
       (NetworkIdle.waitForNetworkIdle 1000 s0)) = None
  /\ NetworkIdle.resolved_at 0 s = Some 300%Z
  /\ NetworkIdle.win s
     = {| NetworkIdle.fetch := NetworkIdle.wrapper 0;
          NetworkIdle.xhr_open := NetworkIdle.wrapper 0;
          NetworkIdle.xhr_send := NetworkIdle.wrapper 0 |}
  /\ NetworkIdle.win s <> NetworkIdle.win s0.
Proof.
  apply (waitForNetworkIdle_idle_path_keeps_hooks 0 1000). lia.
Defined.

(** The ceiling path does restore the hooks of a single invocation. *)
Example waitForNetworkIdle_ceiling_restores :
  NetworkIdle.win
    (NetworkIdle.wait 1000
       (NetworkIdle.run [(0%nat, NetworkIdle.Call 1000);
                         (100%nat, NetworkIdle.FetchStart 1)]
          (NetworkIdle.pristine 0)))
  = NetworkIdle.win (NetworkIdle.pristine 0).
Proof. vm_compute. reflexivity. Qed.

(** Two overlapping invocations (the second starts 500 ms after the first,
    both with a ceiling of 1000 ms): each restores what it saw when it
    started, so once both ceilings have passed the wrapper of the first
    invocation is installed for good. *)
Example waitForNetworkIdle_overlap_compounds :
  let s := NetworkIdle.wait 2000
             (NetworkIdle.run [(0%nat, NetworkIdle.Call 1000);
                               (500%nat, NetworkIdle.Call 1000)]
                (NetworkIdle.pristine 0)) in
  EventLoop.pending (NetworkIdle.clk s) = []
  /\ NetworkIdle.resolved_at 0 s = Some 300%Z
  /\ NetworkIdle.resolved_at 1 s = Some 800%Z
  /\ NetworkIdle.fetch (NetworkIdle.win s) = NetworkIdle.wrapper 0
  /\ NetworkIdle.xhr_open (NetworkIdle.win s) = NetworkIdle.wrapper 0
  /\ NetworkIdle.xhr_send (NetworkIdle.win s) = NetworkIdle.wrapper 0.
Proof. vm_compute. repeat split; reflexivity. Qed.

(** ** The recorder *)

Section RecorderFacts.
Import EventLoop Action Masking Recorder.

Lemma rec_put_get s : with_clock (clk s) s = s.
Proof. by destruct s. Qed.

Lemma rec_wait_quiet d s :
  quiet_for d (clk s) ->
  wait d s = with_clock (later d (clk s)) s.
Proof.
  apply (elapse_quiet callback state clk with_clock fire);
    [reflexivity | reflexivity | apply rec_put_get].
Qed.

Lemma rec_wait_until_due d s tm :
  pending (clk s) = [tm] ->
  t_due tm = (now (clk s) + Z.of_nat (S d))%Z ->
  wait (S d) s
  = fire (t_cb tm)
      (with_clock {| now := t_due tm; next_id := next_id (clk s);
                     pending := [] |} s).
Proof.
  apply (elapse_until_due callback state clk with_clock fire);
    [reflexivity | reflexivity | apply rec_put_get].
Qed.

(** No handler puts a [timestamp] on the action it builds, so the time
    difference computed by [isDuplicateAction] is the clock itself. *)
Lemma isDuplicateAction_without_timestamp a s :
  (100 <= now (clk s))%Z ->
  (forall l, lastAction s = Some l -> a_timestamp l = None) ->
  isDuplicateAction a s = false.
Proof.
  intros Hnow Hl. unfold isDuplicateAction.
  destruct (lastAction s) as [l|]; [|reflexivity].
  rewrite (Hl l eq_refl).
  destruct (Z.ltb_spec (now (clk s) - 0) 100); [lia|reflexivity].
Qed.

Lemma keydown_records s e el key :
  live s -> page s !! e = Some el -> In key keys ->
  isDuplicateAction (keypress_action el key) s = false ->
  handle (Keydown e key) s = recordAction (keypress_action el key) s.
Proof.
  intros (Hl & Hr & Hp) He Hk Hd.
  unfold handle, dispatch, handleKeydown. rewrite Hl, Hr, Hp, He, Hd.
  destruct Hk as [<-|[<-|[<-|[]]]]; reflexivity.
Qed.

(** A key press is settled 200 ms after [recordAction] took it, when no
    other timer is pending. *)
Lemma keypress_settles s el key :
  pending (clk s) = [] ->
  wait 200 (recordAction (keypress_action el key) s)
  = settled (length (frames s))
      (with_clock {| now := now (clk s) + 200; next_id := S (next_id (clk s));
                     pending := [] |}
         (recordAction (keypress_action el key) s)).
Proof.
  intros Hp.
  rewrite (rec_wait_until_due 199 _
             {| t_id := next_id (clk s); t_due := now (clk s) + 200;
                t_cb := cb_settled (length (frames s)) |}).
  - reflexivity.
  - unfold recordAction. simpl. rewrite Hp. reflexivity.
  - simpl. lia.
Qed.

Lemma input_settles s el value :
  pending (clk s) = [] ->
  wait 300 (recordAction (input_object el value) s)
  = settled (length (frames s))
      (with_clock {| now := now (clk s) + 300; next_id := S (next_id (clk s));
                     pending := [] |}
         (recordAction (input_object el value) s)).
Proof.
  intros Hp.
  rewrite (rec_wait_until_due 299 _
             {| t_id := next_id (clk s); t_due := now (clk s) + 300;
                t_cb := cb_settled (length (frames s)) |}).
  - reflexivity.
  - unfold recordAction. simpl. rewrite Hp. reflexivity.
  - simpl. lia.
Qed.

(** [unstamped] holds in every state the recorder can reach. *)
Lemma unstamped_recordAction a s :
  a_timestamp a = None -> unstamped s -> unstamped (recordAction a s).
Proof.
  intros Ha (Hn & Hl & Hf). unfold unstamped, recordAction. simpl.
  split; [|split].
  - by destruct (settle_delay (a_type a)).
  - exact Hl.
  - apply Forall_app. split; [exact Hf|]. by constructor.
Qed.

Lemma unstamped_fire cb s : unstamped s -> unstamped (fire cb s).
Proof.
  intros H. destruct cb as [e|frame]; simpl.
  - destruct (page s !! e) as [x|]; [|exact H].
    unfold input_action. destruct (el_value x) as [value|]; [|exact H].
    by apply (unstamped_recordAction (input_object x value)) in H.
  - exact H.
Qed.

Lemma unstamped_fire_one s tm :
  unstamped s -> unstamped (fire_one clk with_clock fire s tm).
Proof.
  intros H. unfold fire_one.
  destruct (is_pending (t_id tm) (clk s)); [|exact H].
  apply unstamped_fire. exact H.
Qed.

Lemma unstamped_tick s : unstamped s -> unstamped (tick clk with_clock fire s).
Proof.
  intros H. unfold tick.
  assert (H0 : unstamped (with_clock (advance_clock (clk s)) s)).
  { destruct H as (Hn & Hl & Hf). split; [simpl; lia|]. split; assumption. }
  revert H0. generalize (with_clock (advance_clock (clk s)) s).
  induction (List.filter _ _) as [|tm l IH]; intros s0 H0; [exact H0|].
  simpl. apply IH. by apply unstamped_fire_one.
Qed.

Lemma unstamped_wait d s : unstamped s -> unstamped (wait d s).
Proof.
  revert s. induction d as [|d IH]; intros s H; [exact H|].
  apply IH. by apply unstamped_tick.
Qed.

Lemma unstamped_handle ev s : unstamped s -> unstamped (handle ev s).
Proof.
  intros H. pose proof H as (Hn & Hl & Hf).
  destruct ev as [e v|e key|frame|frame shot|sid| | |].
  - unfold handle, dispatch.
    set (s1 := match page s !! e with Some _ => _ | None => s end).
    assert (H1 : unstamped s1) by (subst s1; by destruct (page s !! e)).
    destruct (existsb _ _); [|exact H1].
    destruct (negb (isPaused s1) && isRecording s1); [|exact H1].
    assert (Hd : unstamped (debounce e s1)).
    { destruct H1 as (A & B & C). unfold debounce, setTimeout. simpl.
      split; [|split; assumption].
      destruct (inputBuffer s1 !! e); exact A. }
    unfold handleInput. destruct (page s1 !! e) as [x|].
    + by destruct (shouldIgnoreElement x).
    + destruct (unlocatable s1 !! e) as [o|]; [|exact H1].
      by destruct (shouldIgnoreOpaque o).
  - unfold handle, dispatch.
    destruct (existsb _ _); [|exact H].
    destruct (negb (isPaused s) && isRecording s); [|exact H].
    unfold handleKeydown. destruct (page s !! e) as [x|]; [|exact H].
    destruct (_ || _); [|exact H].
    destruct (negb _); [|exact H].
    by apply (unstamped_recordAction (keypress_action x key)).
  - exact H.
  - unfold handle, replied.
    destruct (existsb _ _); [|exact H].
    destruct (frames s !! frame) as [a|] eqn:Ha; [|exact H].
    assert (Hs : a_timestamp (with_screenshot shot a) = None).
    { simpl. rewrite List.Forall_forall in Hf. apply Hf.
      apply list_elem_of_In. by apply list_elem_of_lookup_2 in Ha. }
    split; [exact Hn|]. split; simpl.
    + by intros l [= <-].
    + rewrite List.Forall_forall. intros b Hb.
      apply list_elem_of_In, list_elem_of_lookup in Hb as [i Hi].
      destruct (decide (i = frame)) as [->|Hne].
      * rewrite list_lookup_insert_eq in Hi
          by (by apply lookup_lt_Some in Ha).
        by injection Hi as <-.
      * rewrite list_lookup_insert_ne in Hi by done.
        rewrite List.Forall_forall in Hf. apply Hf.
        apply list_elem_of_In. by apply list_elem_of_lookup_2 in Hi.
  - unfold handle, start. by destruct (isRecording s).
  - unfold handle, stop. by destruct (isRecording s).
  - exact H.
  - exact H.
Qed.

Lemma unstamped_run schedule s : unstamped s -> unstamped (run schedule s).
Proof.
  revert s. induction schedule as [|[d ev] rest IH]; intros s H; [exact H|].
  simpl. apply IH, unstamped_handle, unstamped_wait, H.
Qed.

(** Whatever happened before, [isDuplicateAction] answers [false]: duplicate
    suppression never takes effect. *)
Lemma isDuplicateAction_never (t0 : Z) (p : gmap nat element)
    (schedule : list (nat * event)) (a : action) :
  (100 <= t0)%Z ->
  isDuplicateAction a (run schedule (new_recorder t0 p)) = false.
Proof.
  intros Ht0.
  destruct (unstamped_run schedule (new_recorder t0 p)) as (Hn & Hl & _).
  { split; [exact Ht0|]. split; [discriminate|constructor]. }
  by apply isDuplicateAction_without_timestamp.
Qed.

End RecorderFacts.

(** C4 fails on the code: [lastAction] never carries a [timestamp] (the
    worker adds it to its own copy), so [isDuplicateAction] measures the time
    since the epoch and never reports a duplicate.  A key press repeated [d]
    milliseconds after the first one was recorded, however small [d], is
    recorded and sent as well. *)
Theorem keypress_repeat_not_suppressed (t0 : Z) (sid : string)
    (p : gmap nat Recorder.element) (e : nat) (el : Recorder.element)
    (key : string) (shot shot' : option string) (d : nat) :
  (100 <= t0)%Z ->
  p !! e = Some el ->
  In key Recorder.keys ->
  let a := Recorder.keypress_action el key in
  let s1 := Recorder.run [(0%nat, Recorder.Keydown e key);
                          (200%nat, Recorder.ScreenshotReply 0 shot)]
              (Recorder.recording t0 sid p) in
  let s2 := Recorder.run [(d, Recorder.Keydown e key)] s1 in
  let s3 := Recorder.run [(200%nat, Recorder.ScreenshotReply 1 shot')] s2 in
  Recorder.lastAction s1 = Some (Action.with_screenshot shot a)
  /\ EventLoop.now (Recorder.clk s2) = (t0 + 200 + Z.of_nat d)%Z
  /\ Recorder.isDuplicateAction a (Recorder.wait d s1) = false
  /\ Recorder.frames s2 = [Action.with_screenshot shot a; a]
  /\ Recorder.sent s3
     = [Action.with_screenshot shot a; Action.with_screenshot shot' a].
Proof.
  intros Ht0 He Hk a s1 s2 s3.
  assert (E1 : s1 = Recorder.replied 0 shot
                 (Recorder.settled 0
                    (Recorder.with_clock
                       {| EventLoop.now := t0 + 200; EventLoop.next_id := 2;
                          EventLoop.pending := [] |}
                       (Recorder.recordAction a (Recorder.recording t0 sid p))))).
  { subst s1. cbn [Recorder.run]. change (Recorder.wait 0 ?s) with s.
    rewrite (keydown_records _ e el key); try done.
    rewrite keypress_settles; reflexivity. }
  assert (Ew : Recorder.wait d s1
               = Recorder.with_clock
                   {| EventLoop.now := t0 + 200 + Z.of_nat d;
                      EventLoop.next_id := 2; EventLoop.pending := [] |} s1).
  { rewrite rec_wait_quiet; [by rewrite E1|].
    rewrite E1. constructor. }
  assert (Ed : Recorder.isDuplicateAction a (Recorder.wait d s1) = false).
  { apply isDuplicateAction_without_timestamp.
    - rewrite Ew. simpl. lia.
    - rewrite Ew, E1. simpl. intros l [= <-]. reflexivity. }
  assert (E2 : s2 = Recorder.recordAction a (Recorder.wait d s1)).
  { subst s2. cbn [Recorder.run].
    apply (keydown_records _ e el key); try done.
    - rewrite Ew, E1. done.
    - rewrite Ew, E1. done. }
  assert (E3 : s3 = Recorder.replied 1 shot'
                 (Recorder.settled 1
                    (Recorder.with_clock
                       {| EventLoop.now := t0 + 200 + Z.of_nat d + 200;
                          EventLoop.next_id := 3; EventLoop.pending := [] |}
                       s2))).
  { subst s3. cbn [Recorder.run]. rewrite E2. unfold a.
    rewrite keypress_settles.
    - rewrite Ew, E1. reflexivity.
    - rewrite Ew. reflexivity. }
  split; [by rewrite E1|].
  split; [by rewrite E2, Ew|].
  split; [exact Ed|].
  split; [by rewrite E2, Ew, E1|].
  rewrite E3, E2, Ew, E1. reflexivity.
Qed.

(** The second press comes 50 ms after the first was recorded. *)
Lemma keypress_repeat_not_suppressed_witness :
  let el := Samples.search_box in
  let a := Recorder.keypress_action el "Tab" in
  let s1 := Recorder.run [(0%nat, Recorder.Keydown 1 "Tab");
                          (200%nat, Recorder.ScreenshotReply 0 (Some "png"))]
              (Recorder.recording 1700000000000 "s" {[ 1%nat := el ]}) in
  let s2 := Recorder.run [(50%nat, Recorder.Keydown 1 "Tab")] s1 in
  let s3 := Recorder.run [(200%nat, Recorder.ScreenshotReply 1 None)] s2 in
  Recorder.lastAction s1 = Some (Action.with_screenshot (Some "png") a)
  /\ EventLoop.now (Recorder.clk s2) = 1700000000250%Z
  /\ Recorder.isDuplicateAction a (Recorder.wait 50 s1) = false
  /\ Recorder.frames s2 = [Action.with_screenshot (Some "png") a; a]
  /\ Recorder.sent s3
     = [Action.with_screenshot (Some "png") a; Action.with_screenshot None a].
Proof.
  intros el.
  apply (keypress_repeat_not_suppressed 1700000000000 "s" {[ 1%nat := el ]}
           1 el "Tab" (Some "png") None 50).
  - lia.
  - reflexivity.
  - left. reflexivity.
Defined.

(** Two key presses 50 ms apart, as in the specification's test: the first
    is still waiting for stabilisation when the second arrives, [lastAction]
    is empty and both go through. *)
Example keypress_50ms_apart :
  let el := Samples.search_box in
  length
    (Recorder.sent
       (Recorder.run [(0%nat, Recorder.Keydown 1 "Enter");
                      (50%nat, Recorder.Keydown 1 "Enter");
                      (150%nat, Recorder.ScreenshotReply 0 None);
                      (50%nat, Recorder.ScreenshotReply 1 None)]
          (Recorder.recording 1700000000000 "s" {[ 1%nat := el ]})))
  = 2%nat.
Proof. vm_compute. reflexivity. Qed.

(** ** Input debouncing *)

Section DebounceFacts.
Import EventLoop Action Masking Recorder.
Variable s0 : state.
Variable e : nat.
Variable el : element.
Hypothesis relevant : shouldIgnoreElement el = false.
#[local] Arguments wait : simpl never.

Lemma ignore_set_value v x :
  shouldIgnoreElement (set_value v x) = shouldIgnoreElement x.
Proof. reflexivity. Qed.


(** The first event of a burst, on a recorder at rest. *)
Lemma first_input d v :
  at_rest s0 -> page s0 !! e = Some el ->
  typing s0 e el v (handle (Input e v) (wait d s0)).
Proof.
  intros [(Hl & Hr & Hp) Hq] He.
  rewrite rec_wait_quiet.
  2:{ unfold quiet_for. rewrite Hq. constructor. }
  destruct s0 as [[t n pe] r pa sid la ib ls pg ul fr aw ob].
  simpl in *. subst.
  unfold handle. simpl. rewrite He.
  unfold dispatch, handleInput. simpl.
  rewrite lookup_insert_eq, ignore_set_value, relevant.
  unfold debounce, typing, armed, live. simpl.
  rewrite !lookup_insert_eq.
  split; [done|]. exists n.
  destruct (ib !! e); simpl; repeat split.
Qed.



(** Time passing, a pause and a stop leave the timer armed. *)
Lemma armed_wait v i r d s :
  (d < r)%nat -> armed s0 e el v i r s ->
  armed s0 e el v i (r - d) (wait d s).
Proof.
  intros Hd (Hf & Ho & Ha & He & Ht).
  rewrite rec_wait_quiet.
  2:{ unfold quiet_for. rewrite Ht. constructor; [simpl; lia|constructor]. }
  unfold armed. simpl. rewrite Ht. repeat split; try assumption.
  do 2 f_equal. lia.
Qed.

Lemma armed_pause v i r s :
  armed s0 e el v i r s -> armed s0 e el v i r (handle Pause s).
Proof. intros H. exact H. Qed.

Lemma armed_stop v i r s :
  armed s0 e el v i r s -> armed s0 e el v i r (handle Stop s).
Proof.
  intros H. unfold handle, stop. destruct (isRecording s); exact H.
Qed.

Lemma input_action_set_value v value :
  el_value el = Some value ->
  input_action (set_value v el) = Some (input_object (set_value v el) v).
Proof. intros H. unfold input_action, set_value. simpl. by rewrite H. Qed.

(** When the timer falls due it hands exactly one action, with the masked
    current value, to [recordAction]; the action is sent after the settle
    delay and the screenshot reply. *)
Lemma armed_fires v i r s value :
  armed s0 e el v i (S r) s -> el_value el = Some value ->
  let a := input_object (set_value v el) v in
  frames (wait r s) = frames s0
  /\ frames (wait (S r) s) = frames s0 ++ [a]
  /\ forall shot,
       let s' := handle (ScreenshotReply (length (frames s0)) shot)
                   (wait 300 (wait (S r) s)) in
       sent s' = sent s0 ++ [with_screenshot shot a]
       /\ frames s' = frames s0 ++ [with_screenshot shot a]
       /\ pending (clk s') = []
       /\ inputBuffer s' !! e = None.
Proof.
  intros (Hf & Ho & Ha & He & Ht) Hv a.
  split.
  { rewrite rec_wait_quiet; [exact Hf|].
    unfold quiet_for. rewrite Ht. constructor; [simpl; lia|constructor]. }
  assert (E : wait (S r) s
              = recordAction a
                  (with_inputBuffer (delete e (inputBuffer s))
                     (with_clock {| now := now (clk s) + Z.of_nat (S r);
                                    next_id := next_id (clk s);
                                    pending := [] |} s))).
  { rewrite (rec_wait_until_due r s _ Ht); [|reflexivity].
    cbn [t_due t_cb fire].
    change (page (with_clock ?k s)) with (page s). rewrite He.
    rewrite (input_action_set_value v value Hv). reflexivity. }
  rewrite E. split; [cbn; by rewrite Hf|].
  intros shot s'. subst s'. unfold a.
  rewrite input_settles; [|reflexivity].
  cbn [handle frames with_inputBuffer with_clock recordAction settled
       awaiting outbox clk pending inputBuffer].
  rewrite Hf. unfold replied.
  cbn [awaiting frames settled recordAction with_clock with_inputBuffer].
  rewrite Ha, Hf.
  assert (Hin : existsb (Nat.eqb (length (frames s0)))
                  (awaiting s0 ++ [length (frames s0)]) = true).
  { rewrite existsb_app. simpl. by rewrite Nat.eqb_refl, !orb_true_r. }
  rewrite Hin, list_lookup_middle by reflexivity.
  unfold sent.
  cbn [outbox frames clk pending inputBuffer with_clock settled
       recordAction with_inputBuffer].
  rewrite Ho.
  repeat split.
  - rewrite <- !app_assoc, omap_app. reflexivity.
  - rewrite insert_app_r_alt by lia. by rewrite Nat.sub_diag.
  - apply lookup_delete_eq.
Qed.

End DebounceFacts.




(** ** Locator derivation *)

Section DomFacts.
Import JsString Dom.

Lemma descend_app n p q :
  descend n (p ++ q)
  = match descend n p with
    | Some m => descend m q
    | None => None
    end.
Proof.
  revert n. induction p as [|i p IH]; intros n; simpl; [reflexivity|].
  destruct (children n !! i); [apply IH|reflexivity].
Qed.

(** The parent of a document element is a document element, and the
    element is its child number [i]. *)
Lemma lookup_cons doc i parent :
  lookup doc (i :: parent)
  = match lookup doc parent with
    | Some par => children par !! i
    | None => None
    end.
Proof.
  unfold lookup. simpl rev. rewrite descend_app.
  destruct (descend doc (rev parent)) as [par|]; [|reflexivity].
  simpl. by destruct (children par !! i).
Qed.

Lemma in_paths_go p i cs :
  In p ((fix go (i : nat) (cs : list node) : list (list nat) :=
           match cs with
           | [] => []
           | c :: cs' => map (cons i) (paths c) ++ go (S i) cs'
           end) i cs)
  <-> exists j c q, p = (i + j)%nat :: q /\ cs !! j = Some c /\ In q (paths c).
Proof.
  revert i. induction cs as [|c cs IH]; intros i.
  - split; [intros []|]. intros (j & c & q & _ & H & _). destruct j; discriminate.
  - rewrite in_app_iff, in_map_iff, IH. split.
    + intros [(q & <- & Hq)|(j & c' & q & -> & Hc & Hq)].
      * exists 0%nat, c, q. rewrite Nat.add_0_r. auto.
      * exists (S j), c', q. split; [f_equal; lia|auto].
    + intros (j & c' & q & -> & Hc & Hq). destruct j as [|j].
      * left. injection Hc as ->. exists q. rewrite Nat.add_0_r. auto.
      * right. exists j, c', q. split; [f_equal; lia|auto].
Qed.

(** [paths] lists exactly the positions at which there is an element. *)
Lemma in_paths p n : In p (paths n) <-> is_Some (descend n p).
Proof.
  revert n. induction p as [|i p IH]; intros n.
  - destruct n; simpl. split; [eauto|auto].
  - destruct n as [t h d ti ar cl ch]. cbn [paths children descend].
    split.
    + intros [H|H]; [discriminate|].
      apply in_paths_go in H as (j & c & q & [= -> ->] & Hc & Hq).
      simpl. rewrite Hc. by apply IH.
    + intros H. right. apply in_paths_go.
      destruct (ch !! i) as [c|] eqn:Hc; [|by destruct H].
      exists i, c, p. repeat split; [done|]. by apply IH.
Qed.

Lemma in_all_refs doc r : In r (all_refs doc) <-> is_Some (lookup doc r).
Proof.
  unfold all_refs, lookup. rewrite in_map_iff. split.
  - intros (p & <- & Hp). rewrite rev_involutive. by apply in_paths.
  - intros H. exists (rev r). split; [apply rev_involutive|by apply in_paths].
Qed.

Lemma getPathSelector_loop_steps doc r path :
  getPathSelector_loop doc r path = rev (up_steps doc r) ++ path.
Proof.
  revert path. induction r as [|i parent IH]; intros path.
  - simpl. destruct (nonempty (nid doc)); reflexivity.
  - cbn [getPathSelector_loop up_steps].
    destruct (lookup doc (i :: parent)) as [n|]; [|reflexivity].
    destruct (nonempty (nid n)); [reflexivity|].
    rewrite IH. simpl rev. by rewrite <- app_assoc.
Qed.

Lemma rev_getPathSelector doc r :
  rev (getPathSelector doc r) = up_steps doc r.
Proof.
  unfold getPathSelector. rewrite getPathSelector_loop_steps, app_nil_r.
  apply rev_involutive.
Qed.


Lemma string_eqb_refl (s : string) : String.eqb s s = true.
Proof. apply String.eqb_refl. Qed.

Lemma lower_upper_char c : lower_char (upper_char c) = lower_char c.
Proof. destruct c as [[] [] [] [] [] [] [] []]; reflexivity. Qed.

Lemma toLowerCase_toUpperCase s : toLowerCase (toUpperCase s) = toLowerCase s.
Proof.
  induction s as [|c t IH]; simpl; [reflexivity|].
  by rewrite lower_upper_char, IH.
Qed.

(** The lower-cased tag name of an element with a lower-case local name is
    a type selector for it. *)
Lemma matches_own_type n :
  toLowerCase (localName n) = localName n ->
  matches_type (toLowerCase (tagName n)) n = true.
Proof.
  intros H. unfold matches_type, tagName. destruct (html n).
  - rewrite toLowerCase_toUpperCase, H, H. apply string_eqb_refl.
  - rewrite H. apply string_eqb_refl.
Qed.

Lemma lower_case_lookup doc r m :
  lower_case doc = true -> lookup doc r = Some m ->
  toLowerCase (localName m) = localName m.
Proof.
  unfold lower_case. rewrite forallb_forall. intros H Hm.
  assert (Hin : In r (all_refs doc)) by (apply in_all_refs; by rewrite Hm).
  specialize (H r Hin). rewrite Hm in H. by apply String.eqb_eq.
Qed.

(** An element matches its own structural path. *)
Lemma matches_own_path doc r n :
  lower_case doc = true ->
  lookup doc r = Some n -> matches_up doc (up_steps doc r) r = true.
Proof.
  intros Hlow. revert n. induction r as [|i parent IH]; intros n Hn.
  - pose proof (matches_own_type n (lower_case_lookup doc _ n Hlow Hn)) as Ht.
    cbn [up_steps]. rewrite Hn.
    destruct (nonempty (nid n)); cbn [matches_up]; rewrite Hn;
      cbn [matches_compound]; [by rewrite string_eqb_refl|].
    rewrite Ht. reflexivity.
  - pose proof (matches_own_type n (lower_case_lookup doc _ n Hlow Hn)) as Ht.
    cbn [up_steps]. rewrite Hn.
    destruct (nonempty (nid n)).
    + cbn [matches_up]. rewrite Hn. cbn [matches_compound].
      by rewrite string_eqb_refl.
    + cbn [matches_up]. rewrite Hn. cbn [matches_compound].
      rewrite Ht.
      replace (match (if (1 <? length (siblings doc (i :: parent)))%nat
                      then Some (child_number (i :: parent)) else None) with
               | Some k => (k =? child_number (i :: parent))%nat
               | None => true
               end) with true
        by (destruct (1 <? _)%nat; [by rewrite Nat.eqb_refl|done]).
      rewrite lookup_cons in Hn.
      destruct (lookup doc parent) as [par|] eqn:Hpar; [|discriminate].
      rewrite (IH par eq_refl). by destruct (up_steps doc parent).
Qed.



End DomFacts.

Section SelectorFacts.
Import JsString Dom.

Lemma matches_path doc r q :
  matches doc (SelPath (getPathSelector doc r)) q
  = matches_up doc (up_steps doc r) q.
Proof. unfold matches. by rewrite rev_getPathSelector. Qed.


Lemma matches_own_class doc r n :
  lookup doc r = Some n ->
  toLowerCase (localName n) = localName n ->
  matches doc (SelClass (toLowerCase (tagName n)) (stable_classes n)) r = true.
Proof.
  intros Hn Hlow. unfold matches. rewrite Hn, (matches_own_type n Hlow).
  simpl.
  apply forallb_forall. intros c Hc.
  apply filter_In in Hc as [Hc _].
  unfold has_class. apply existsb_exists. exists c.
  split; [exact Hc|apply string_eqb_refl].
Qed.

Lemma singleton_of_length {A} (x : A) (l : list A) :
  length l = 1%nat -> In x l -> l = [x].
Proof.
  destruct l as [|y [|z l]]; try discriminate.
  intros _ [->|[]]. reflexivity.
Qed.


End SelectorFacts.


(** ** The reference engine reads the selectors as they are meant *)

Section CssFacts.
Import JsString Dom Css.

Lemma app_cons c t b : String c t +:+ b = String c (t +:+ b).
Proof. reflexivity. Qed.

Lemma app_nil b : "" +:+ b = b.
Proof. reflexivity. Qed.

Lemma append_nil_r s : s +:+ "" = s.
Proof.
  induction s as [|c t IH]; [reflexivity|]. by rewrite app_cons, IH.
Qed.

Lemma append_assoc a b c : (a +:+ b) +:+ c = a +:+ (b +:+ c).
Proof.
  induction a as [|x t IH]; [reflexivity|]. by rewrite !app_cons, IH.
Qed.

Lemma length_append a b :
  String.length (a +:+ b) = (String.length a + String.length b)%nat.
Proof.
  induction a as [|c t IH]; [reflexivity|].
  rewrite app_cons. simpl. by rewrite IH.
Qed.

Lemma span_every_app p a b :
  every p a = true -> starts_with p b = false -> span p (a +:+ b) = (a, b).
Proof.
  intros Ha Hb. induction a as [|c t IH].
  - rewrite app_nil. destruct b as [|d b']; [reflexivity|].
    simpl in *. by rewrite Hb.
  - simpl in Ha. apply andb_true_iff in Ha as [Hc Ht].
    rewrite app_cons. simpl. by rewrite Hc, (IH Ht).
Qed.

Lemma span_every p a : every p a = true -> span p a = (a, EmptyString).
Proof.
  intros Ha. rewrite <- (append_nil_r a) at 1. by apply span_every_app.
Qed.

Lemma strip_app pre s : strip pre (pre +:+ s) = Some s.
Proof.
  induction pre as [|c t IH]; [reflexivity|].
  rewrite app_cons. simpl. by rewrite Ascii.eqb_refl.
Qed.

Lemma css_ident_chars i : css_ident i = true -> every nmchar i = true.
Proof. unfold css_ident. by intros [_ H]%andb_true_iff. Qed.

Lemma css_ident_start i : css_ident i = true -> starts_with nmstart i = true.
Proof. unfold css_ident. by intros [H _]%andb_true_iff. Qed.

Lemma nmstart_not c a :
  nmstart a = false -> starts_with nmstart c = true -> is_char a c = false.
Proof.
  intros Ha Hc. destruct c as [|x t]; [discriminate|]. simpl in *.
  destruct (Ascii.eqb_spec a x) as [->|]; [congruence|reflexivity].
Qed.

Lemma boundary_not p rest :
  boundary rest = true -> p " "%char = false -> starts_with p rest = false.
Proof.
  destruct rest as [|c t]; [reflexivity|]. cbn [boundary starts_with].
  intros H%Ascii.eqb_eq Hp. by subst c.
Qed.

Lemma every_digit d : every isDigit (NilEmpty.string_of_uint d) = true.
Proof. induction d; simpl; auto. Qed.

Lemma nat_of_digits_of_nat k : nat_of_digits (of_nat k) = Some k.
Proof.
  unfold nat_of_digits, of_nat. rewrite NilEmpty.usu. simpl.
  f_equal. apply DecimalNat.Unsigned.of_to.
Qed.

Lemma of_nat_nonempty k : nonempty (of_nat k) = true.
Proof.
  unfold nonempty. destruct (String.eqb_spec (of_nat k) "") as [E|]; [|done].
  pose proof (nat_of_digits_of_nat k) as H. rewrite E in H.
  injection H as <-. discriminate E.
Qed.

Lemma strip_nth_boundary rest :
  boundary rest = true -> strip ":nth-child(" rest = None.
Proof.
  destruct rest as [|c t]; [reflexivity|]. cbn [boundary].
  intros H%Ascii.eqb_eq. by subst c.
Qed.

Lemma parse_tag_render t nth rest :
  css_ident t = true -> boundary rest = true ->
  parse_tag (render_compound (ByTag t nth) +:+ rest)
  = Some (ByTag t nth, rest).
Proof.
  intros Ht Hb. unfold parse_tag. destruct nth as [k|]; cbn [render_compound].
  - rewrite !append_assoc.
    rewrite (span_every_app nmchar t); [|by apply css_ident_chars|reflexivity].
    rewrite Ht, strip_app.
    rewrite (span_every_app isDigit (of_nat k)); [|apply every_digit|reflexivity].
    rewrite nat_of_digits_of_nat, of_nat_nonempty. reflexivity.
  - rewrite (span_every_app nmchar t);
      [|by apply css_ident_chars|by apply boundary_not].
    by rewrite Ht, strip_nth_boundary.
Qed.

Lemma parse_compound_render c rest :
  well_formed_compound c = true -> boundary rest = true ->
  parse_compound (render_compound c +:+ rest) = Some (c, rest).
Proof.
  intros Hc Hb. unfold parse_compound. destruct c as [i|t nth].
  - cbn [render_compound]. rewrite append_assoc, app_cons, app_nil.
    cbn [is_char starts_with tail_of]. rewrite Ascii.eqb_refl.
    rewrite (span_every_app nmchar i);
      [|by apply css_ident_chars|by apply boundary_not].
    simpl in Hc. by rewrite Hc.
  - simpl in Hc.
    assert (E : is_char "#" (render_compound (ByTag t nth) +:+ rest) = false).
    { apply nmstart_not; [reflexivity|].
      pose proof (css_ident_start t Hc) as Hs.
      destruct t as [|x t']; [discriminate|].
      destruct nth; cbn [render_compound]; rewrite !app_cons; exact Hs. }
    rewrite E. by apply parse_tag_render.
Qed.

Lemma join_cons sep x y l :
  join sep (x :: y :: l) = x +:+ sep +:+ join sep (y :: l).
Proof. reflexivity. Qed.

Lemma length_join sep l :
  Forall (fun x => x <> EmptyString) l ->
  (length l <= String.length (join sep l))%nat.
Proof.
  induction 1 as [|x l Hx Hl IH]; [simpl; lia|].
  destruct l as [|y l'].
  - destruct x; [done|]. simpl. lia.
  - rewrite join_cons, !length_append.
    destruct x; [done|]. simpl in *. lia.
Qed.

Lemma css_ident_nonempty i : css_ident i = true -> i <> EmptyString.
Proof. by destruct i. Qed.

Lemma render_compound_nonempty c :
  well_formed_compound c = true -> render_compound c <> EmptyString.
Proof.
  destruct c as [i|t [k|]]; simpl; intros H; try discriminate.
  - destruct t; [discriminate|]. by rewrite app_cons.
  - by apply css_ident_nonempty.
Qed.

Lemma parse_path_step f s c rest :
  parse_compound s = Some (c, rest) -> rest <> EmptyString ->
  parse_path (S f) s
  = match strip " > " rest with
    | Some s' => cons c <$> parse_path f s'
    | None => None
    end.
Proof.
  intros H Hne. cbn [parse_path]. rewrite H. by destruct rest.
Qed.

Lemma parse_path_render steps fuel :
  steps <> [] -> forallb well_formed_compound steps = true ->
  (length steps <= fuel)%nat ->
  parse_path fuel (join " > " (map render_compound steps)) = Some steps.
Proof.
  revert fuel. induction steps as [|c l IH]; intros fuel Hne Hwf Hf; [done|].
  simpl in Hwf. apply andb_true_iff in Hwf as [Hc Hl].
  destruct fuel as [|f]; [simpl in Hf; lia|].
  destruct l as [|c' l'].
  - cbn [map join parse_path].
    rewrite <- (append_nil_r (render_compound c)).
    by rewrite parse_compound_render.
  - cbn [map]. rewrite join_cons.
    rewrite (parse_path_step f _ c
               (" > " +:+ join " > " (map render_compound (c' :: l')))).
    + rewrite strip_app. cbn [map] in IH. rewrite IH; [reflexivity|done|exact Hl|].
      simpl in Hf |- *. lia.
    + by apply parse_compound_render.
    + by rewrite app_cons.
Qed.

Lemma parse_classes_render cs fuel :
  cs <> [] -> forallb css_ident cs = true -> (length cs <= fuel)%nat ->
  parse_classes fuel ("." +:+ join "." cs) = Some cs.
Proof.
  revert fuel. induction cs as [|c l IH]; intros fuel Hne Hwf Hf; [done|].
  simpl in Hwf. apply andb_true_iff in Hwf as [Hc Hl].
  destruct fuel as [|f]; [simpl in Hf; lia|].
  cbn [parse_classes]. rewrite app_cons, app_nil.
  cbn [is_char starts_with tail_of]. rewrite Ascii.eqb_refl.
  destruct l as [|c' l'].
  - cbn [join]. rewrite (span_every nmchar c) by (by apply css_ident_chars).
    by rewrite Hc.
  - rewrite join_cons.
    rewrite (span_every_app nmchar c); [|by apply css_ident_chars|reflexivity].
    rewrite Hc, app_cons, app_nil.
    rewrite <- (app_nil (join "." (c' :: l'))), <- app_cons.
    rewrite IH; [reflexivity|done|exact Hl|]. simpl in Hf |- *. lia.
Qed.

Lemma is_char_ident a t rest :
  nmstart a = false -> css_ident t = true -> is_char a (t +:+ rest) = false.
Proof.
  intros Ha Ht. apply nmstart_not; [exact Ha|].
  pose proof (css_ident_start t Ht) as Hs.
  destruct t as [|x t']; [discriminate|]. by rewrite app_cons.
Qed.

Lemma parse_render_class t cs :
  well_formed (SelClass t cs) = true ->
  parse (render (SelClass t cs)) = Some (SelClass t cs).
Proof.
  cbn [well_formed]. intros [[Ht Hne]%andb_true_iff Hcs]%andb_true_iff.
  assert (Hcs' : cs <> []) by (by destruct cs).
  unfold parse. cbn [render].
  rewrite (is_char_ident "[" t) by done.
  rewrite (span_every_app nmchar t); [|by apply css_ident_chars|reflexivity].
  rewrite app_cons, app_nil. cbn [is_char starts_with].
  rewrite Ascii.eqb_refl, Ht.
  rewrite <- (app_nil (join "." cs)), <- app_cons.
  rewrite parse_classes_render; [reflexivity|exact Hcs'|exact Hcs|].
  rewrite length_append. simpl.
  pose proof (length_join "." cs) as H.
  assert (Hall : Forall (fun x => x <> EmptyString) cs).
  { apply List.Forall_forall. intros x Hx. apply css_ident_nonempty.
    rewrite forallb_forall in Hcs. by apply Hcs. }
  specialize (H Hall). lia.
Qed.

Lemma parse_render_path steps :
  well_formed (SelPath steps) = true ->
  parse (render (SelPath steps)) = Some (SelPath steps).
Proof.
  cbn [well_formed]. intros [Hne Hwf]%andb_true_iff.
  assert (Hne' : steps <> []) by (by destruct steps).
  assert (Hp : parse_path
                 (S (String.length (join " > " (map render_compound steps))))
                 (join " > " (map render_compound steps)) = Some steps).
  { apply parse_path_render; [exact Hne'|exact Hwf|].
    pose proof (length_join " > " (map render_compound steps)) as H.
    rewrite length_map in H.
    assert (Hall : Forall (fun x => x <> EmptyString)
                          (map render_compound steps)).
    { apply List.Forall_forall. intros x Hx.
      apply in_map_iff in Hx as (c & <- & Hc).
      apply render_compound_nonempty.
      rewrite forallb_forall in Hwf. by apply Hwf. }
    specialize (H Hall). lia. }
  unfold parse. cbn [render].
  destruct steps as [|c l]; [done|].
  simpl in Hwf. apply andb_true_iff in Hwf as [Hc Hl].
  assert (Hs : exists R, boundary R = true /\
             join " > " (map render_compound (c :: l))
             = render_compound c +:+ R).
  { destruct l as [|c' l'].
    - exists EmptyString. split; [reflexivity|].
      cbn [map join]. by rewrite append_nil_r.
    - eexists. split; [|cbn [map]; by rewrite join_cons]. reflexivity. }
  destruct Hs as (R & HR & Es). rewrite Es in Hp |- *.
  destruct c as [i|t nth].
  - cbn [render_compound] in *. rewrite append_assoc, app_cons, app_nil in *.
    set (s := String "#"%char (i +:+ R)) in *.
    assert (E1 : is_char "[" s = false) by reflexivity.
    assert (E2 : span nmchar s = (EmptyString, s)) by reflexivity.
    assert (E3 : is_char "." s = false) by reflexivity.
    by rewrite E1, E2, E3, Hp.
  - simpl in Hc.
    assert (E1 : is_char "[" (render_compound (ByTag t nth) +:+ R) = false).
    { destruct nth; cbn [render_compound]; rewrite ?append_assoc;
        by apply is_char_ident. }
    rewrite E1.
    assert (E2 : exists X, is_char "." X = false /\
               span nmchar (render_compound (ByTag t nth) +:+ R) = (t, X)).
    { destruct nth as [k|]; cbn [render_compound].
      - eexists. split; [|rewrite !append_assoc; apply span_every_app;
                          [by apply css_ident_chars|reflexivity]].
        reflexivity.
      - exists R. split; [by apply boundary_not|].
        apply span_every_app; [by apply css_ident_chars|by apply boundary_not]. }
    destruct E2 as (X & HX & ->). rewrite HX. by rewrite Hp.
Qed.

Lemma plain_not_quote v : plain_value v = true -> every not_quote v = true.
Proof.
  induction v as [|c t IH]; [reflexivity|]. simpl.
  intros [Hc Ht]%andb_true_iff. rewrite (IH Ht), andb_true_r.
  unfold plain_char in Hc. apply andb_true_iff in Hc as [Hc _].
  by apply andb_true_iff in Hc as [_ Hc].
Qed.

Lemma parse_render_attr name v :
  well_formed (SelAttr name v) = true ->
  parse (render (SelAttr name v)) = Some (SelAttr name v).
Proof.
  intros Hwf. pose proof Hwf as Hwf'. cbn [well_formed] in Hwf'.
  apply andb_true_iff in Hwf' as [Hname Hv].
  unfold parse. cbn [render]. rewrite app_cons, app_nil.
  cbn [is_char starts_with]. rewrite Ascii.eqb_refl.
  unfold parse_attr. cbn [tail_of].
  assert (Hn : every nmchar name = true).
  { apply orb_true_iff in Hname as [->%String.eqb_eq| ->%String.eqb_eq];
      reflexivity. }
  rewrite (span_every_app nmchar name); [|exact Hn|reflexivity].
  rewrite <- (append_assoc "=" dquote), strip_app.
  rewrite (span_every_app not_quote v); [|by apply plain_not_quote|reflexivity].
  by rewrite String.eqb_refl, Hwf.
Qed.

Lemma denotation_id doc i :
  denotation doc (SelPath [ById i]) = denotation doc (SelId i).
Proof.
  unfold denotation. apply List.filter_ext. intros r.
  unfold matches. simpl. destruct (lookup doc r); [|reflexivity].
  apply andb_true_r.
Qed.

Lemma digit_not_nmstart a : isDigit a = true -> nmstart a = false.
Proof.
  destruct a as [[] [] [] [] [] [] [] []]; try discriminate; reflexivity.
Qed.

(** The reference engine is one of the engines the theorems are about. *)
Lemma reference_conforming : conforming reference.
Proof.
  split.
  - intros doc s Hwf. unfold reference. destruct s as [i|name v|t cs|steps].
    + change (render (SelId i)) with (render (SelPath [ById i])).
      simpl in Hwf.
      rewrite parse_render_path
        by (cbn [well_formed forallb well_formed_compound];
            by rewrite Hwf).
      simpl. by rewrite denotation_id.
    + by rewrite parse_render_attr.
    + by rewrite parse_render_class.
    + by rewrite parse_render_path.
  - intros doc t c cs Ht Hc. unfold reference, parse. cbn [render].
    rewrite (is_char_ident "[" t) by done.
    rewrite (span_every_app nmchar t); [|by apply css_ident_chars|reflexivity].
    rewrite app_cons, app_nil. cbn [is_char starts_with].
    rewrite Ascii.eqb_refl, Ht.
    cbn [parse_classes is_char starts_with tail_of].
    rewrite Ascii.eqb_refl.
    destruct c as [|a c']; [discriminate|]. simpl in Hc.
    assert (E : exists X, join "." (String a c' :: cs) = String a X).
    { destruct cs as [|y l]; [by exists c'|].
      rewrite join_cons, app_cons. eauto. }
    destruct E as [X ->]. cbn [span].
    assert (Hn : nmchar a = true).
    { unfold nmchar. by rewrite Hc, orb_true_r. }
    rewrite Hn. destruct (span nmchar X) as [u w].
    unfold css_ident. cbn [starts_with].
    by rewrite (digit_not_nmstart a Hc).
Qed.

End CssFacts.





(** A class that is unique in the document is used as it is. *)
Example getSelector_unique_class :
  let doc :=
    Samples.elem "html" "" []
      [Samples.elem "body" "" []
         [Samples.elem "button" "" ["primary"; "focus-ring"] [];
          Samples.elem "button" "" ["ghost"] []]] in
  Dom.getSelector Css.reference doc [0; 0]%nat
    = Some (Js.Returns (Dom.SelClass "button" ["primary"]))
  /\ Dom.render (Dom.SelClass "button" ["primary"]) = "button.primary"
  /\ Css.reference doc "button.primary" = Some [[0; 0]%nat].
Proof. vm_compute. repeat split; reflexivity. Qed.


(** * Further properties of the registry *)

Section LifecycleFacts.
Import Action Background Lifecycle.

Lemma addAction_appends t a uuid now m s :
  sessions m !! t = Some s -> truthy (isPaused s) = false ->
  sessions (fst (addAction t a uuid now m)) !! t
  = Some (session_addAction a uuid now s).
Proof.
  intros Hs Hp. unfold addAction. rewrite Hs, Hp. simpl.
  by rewrite lookup_insert_eq.
Qed.

Lemma addActions_session t xs m s :
  sessions m !! t = Some s -> truthy (isPaused s) = false ->
  exists s',
    sessions (addActions t xs m) !! t = Some s'
    /\ actions s' = actions s ++ map entry_of xs
    /\ id s' = id s /\ startTime s' = startTime s /\ url s' = url s
    /\ isPaused s' = isPaused s.
Proof.
  revert m s. induction xs as [|[[a uuid] now] xs IH]; intros m s Hs Hp.
  - exists s. simpl. by rewrite app_nil_r.
  - cbn [addActions fold_left].
    destruct (IH (fst (addAction t a uuid now m))
                 (session_addAction a uuid now s))
      as (s' & Hs' & Ha & Hi & Hst & Hu & Hpa).
    + by apply addAction_appends.
    + exact Hp.
    + exists s'. split; [exact Hs'|]. rewrite Ha. simpl.
      by rewrite <- app_assoc.
Qed.

Lemma apply_op_other t t' o m :
  t' <> t -> sessions (apply_op t o m) !! t' = sessions m !! t'.
Proof.
  intros Hne. destruct o as [e|now now'| | |a uuid now]; simpl.
  - unfold startRecording. destruct (e_tab e); [|reflexivity].
    destruct (e_messageError e); simpl.
    + by rewrite lookup_delete_ne, lookup_insert_ne.
    + by rewrite lookup_insert_ne.
  - unfold stopRecording. destruct (sessions m !! t); [|reflexivity].
    simpl. by rewrite lookup_delete_ne.
  - unfold pauseRecording. destruct (sessions m !! t); [|reflexivity].
    simpl. by rewrite lookup_insert_ne.
  - unfold resumeRecording. destruct (sessions m !! t); [|reflexivity].
    simpl. by rewrite lookup_insert_ne.
  - unfold addAction. destruct (sessions m !! t) as [s|]; [|reflexivity].
    destruct (negb (truthy (isPaused s))); [|reflexivity].
    simpl. by rewrite lookup_insert_ne.
Qed.

End LifecycleFacts.

(** X1.  Pausing and then resuming a tab with a session brings it back to
    the Recording state with the same session id and the same buffered
    actions, and the next append is accepted again. *)
Theorem pause_resume_keeps_session (t : nat) (m : Background.manager)
    (s : Background.session) :
  Background.sessions m !! t = Some s ->
  let paused := fst (Background.pauseRecording t m) in
  let m' := fst (Background.resumeRecording t paused) in
  Background.state_of t paused = Background.Paused
  /\ Background.state_of t m' = Background.Recording
  /\ Background.getSession t m' = Some (Background.set_paused false s)
  /\ Background.actions_of t m' = Background.actions s
  /\ (forall a uuid now,
        snd (Background.addAction t a uuid now paused) = false
        /\ snd (Background.addAction t a uuid now m') = true).
Proof.
  intros Hs paused m'. subst paused m'.
  unfold Background.pauseRecording, Background.resumeRecording,
    Background.state_of, Background.getSession, Background.actions_of,
    Background.addAction.
  rewrite Hs. simpl. rewrite !lookup_insert_eq. simpl.
  rewrite !lookup_insert_eq. simpl. repeat split.
Qed.

Lemma pause_resume_keeps_session_witness :
  let paused := fst (Background.pauseRecording 7 Samples.busy_registry) in
  let m' := fst (Background.resumeRecording 7 paused) in
  Background.state_of 7 paused = Background.Paused
  /\ Background.state_of 7 m' = Background.Recording
  /\ Background.id <$> Background.getSession 7 m' = Some "session-1"
  /\ length (Background.actions_of 7 m') = 1%nat.
Proof.
  intros paused m'.
  destruct (pause_resume_keeps_session 7 Samples.busy_registry
              (Background.session_addAction Samples.a_click "action-1" 2000
                 (Background.new_session 7 Samples.first_start
                    Samples.tab_info)))
    as (H1 & H2 & H3 & H4 & _); [vm_compute; reflexivity|].
  split; [exact H1|]. split; [exact H2|]. split.
  - fold paused m' in H3. by rewrite H3.
  - fold paused m' in H4. by rewrite H4.
Defined.

(** X2.  Actions arriving for a tab in the Recording state are buffered in
    arrival order behind the earlier ones; stopping then exports exactly that
    sequence with the session's id, url and start time.  The export reads the
    clock twice: the first reading is its end time, the second reading less
    the start time its duration, so that the duration is the end time less
    the start time plus whatever passed between the two readings.  The tab
    is left idle, and a second stop returns nothing. *)
Theorem stopRecording_exports_arrivals (t : nat) (m : Background.manager)
    (s : Background.session) (xs : list Lifecycle.arrival)
    (now now' later later' : Z) :
  Background.sessions m !! t = Some s ->
  Background.truthy (Background.isPaused s) = false ->
  let m' := Lifecycle.addActions t xs m in
  let stopped := Background.stopRecording t now now' m' in
  Background.actions_of t m'
    = Background.actions s ++ map Lifecycle.entry_of xs
  /\ (exists x,
        snd stopped = Some x
        /\ Background.x_actions x
           = Background.actions s ++ map Lifecycle.entry_of xs
        /\ Background.x_id x = Background.id s
        /\ Background.x_url x = Background.url s
        /\ Background.x_startTime x = Background.startTime s
        /\ Background.x_endTime x = now
        /\ Background.x_duration x = (now' - Background.startTime s)%Z
        /\ Background.x_duration x
           = (Background.x_endTime x - Background.x_startTime x
              + (now' - now))%Z)
  /\ Background.state_of t (fst stopped) = Background.Idle
  /\ Background.stopRecording t later later' (fst stopped)
     = (fst stopped, None).
Proof.
  intros Hs Hp m' stopped.
  destruct (addActions_session t xs m s Hs Hp)
    as (s' & Hs' & Ha & Hi & Hst & Hu & _).
  fold m' in Hs'. subst stopped.
  unfold Background.actions_of, Background.stopRecording,
    Background.state_of. rewrite Hs'. simpl.
  rewrite lookup_delete_eq.
  split; [exact Ha|]. split; [|split; reflexivity].
  eexists. split; [reflexivity|]. simpl.
  rewrite Ha, Hi, Hu, Hst. repeat split. lia.
Qed.

Lemma stopRecording_exports_arrivals_witness :
  let xs := [(Samples.a_click, "action-2", 3000%Z);
             (Samples.a_click, "action-3", 3500%Z)] in
  let m' := Lifecycle.addActions 7 xs Samples.busy_registry in
  let stopped := Background.stopRecording 7 9000 9001 m' in
  (Background.s_id <$> Background.actions_of 7 m')
    = ["action-1"; "action-2"; "action-3"]
  /\ (Background.x_endTime <$> snd stopped) = Some 9000%Z
  /\ (Background.x_duration <$> snd stopped) = Some 8001%Z
  /\ Background.state_of 7 (fst stopped) = Background.Idle.
Proof.
  intros xs m' stopped.
  destruct (stopRecording_exports_arrivals 7 Samples.busy_registry
              (Background.session_addAction Samples.a_click "action-1" 2000
                 (Background.new_session 7 Samples.first_start
                    Samples.tab_info)) xs 9000 9001 9500 9500)
    as (H1 & (x & Hx & _ & _ & _ & _ & He & Hd & _) & H3 & _);
    [vm_compute; reflexivity|reflexivity|].
  fold m' in H1. fold m' stopped in Hx, H3.
  split; [by rewrite H1|]. split; [|split; [|exact H3]].
  - rewrite Hx. simpl. by rewrite He.
  - rewrite Hx. simpl. by rewrite Hd.
Defined.

(** X3.  Whatever sequence of operations (start, stop, pause, resume,
    append) is addressed to one tab, the session of every other tab stays as
    it was. *)
Theorem operations_leave_other_tabs (t t' : nat) (ops : list Lifecycle.op)
    (m : Background.manager) :
  t' <> t ->
  Background.getSession t' (Lifecycle.apply_ops t ops m)
  = Background.getSession t' m.
Proof.
  intros Hne. unfold Background.getSession. revert m.
  induction ops as [|o ops IH]; intros m; [reflexivity|].
  cbn [Lifecycle.apply_ops fold_left].
  change (fold_left _ ops ?x) with (Lifecycle.apply_ops t ops x).
  rewrite IH. by apply apply_op_other.
Qed.

Lemma operations_leave_other_tabs_witness :
  Background.getSession 7
    (Lifecycle.apply_ops 8
       [Lifecycle.OpStart Samples.second_start;
        Lifecycle.OpAdd Samples.a_click "b-1" 6000;
        Lifecycle.OpPause; Lifecycle.OpResume;
        Lifecycle.OpStop 7000 7001]
       Samples.busy_registry)
  = Background.getSession 7 Samples.busy_registry.
Proof.
  apply (operations_leave_other_tabs 8 7). lia.
Defined.

(** X4.  When the start message cannot be delivered to the tab, the start is
    rejected and the registry is left without a session for that tab, also
    when the tab had an active session before: its buffered actions are
    gone.  When the tab lookup itself fails, nothing changes. *)
Theorem startRecording_failure_modes (t : nat) (e : Background.start_env)
    (m : Background.manager) :
  Background.e_tab e = None \/ Background.e_messageError e = true ->
  snd (Background.startRecording t e m) = None
  /\ (Background.e_tab e = None -> fst (Background.startRecording t e m) = m)
  /\ (Background.e_tab e <> None ->
      Background.getSession t (fst (Background.startRecording t e m)) = None
      /\ Background.actions_of t (fst (Background.startRecording t e m)) = []
      /\ Background.activeTab (fst (Background.startRecording t e m)) = Some t).
Proof.
  intros H. unfold Background.startRecording, Background.getSession,
    Background.actions_of.
  destruct (Background.e_tab e) as [tab|].
  - destruct H as [H|H]; [discriminate|]. rewrite H. simpl.
    split; [reflexivity|]. split; [discriminate|]. intros _.
    rewrite lookup_delete_eq. repeat split.
  - split; [reflexivity|]. split; [reflexivity|]. intros Hn. by destruct Hn.
Qed.

Lemma startRecording_failure_modes_witness :
  let e := {| Background.e_tab := Some Samples.tab_info;
              Background.e_uuid := "session-3"; Background.e_now := 6000;
              Background.e_userAgent := "UA";
              Background.e_messageError := true |} in
  length (Background.actions_of 7 Samples.busy_registry) = 1%nat
  /\ snd (Background.startRecording 7 e Samples.busy_registry) = None
  /\ Background.getSession 7
       (fst (Background.startRecording 7 e Samples.busy_registry)) = None.
Proof.
  intros e.
  destruct (startRecording_failure_modes 7 e Samples.busy_registry)
    as (H1 & _ & H3); [right; reflexivity|].
  split; [vm_compute; reflexivity|]. split; [exact H1|].
  apply H3. discriminate.
Defined.

(** * Further properties of the saved recordings *)

Section SavedFacts.
Import Background Saved.
Variable recording : Type.
Variable rid : recording -> string.

Lemma findIndex_none recordingId l :
  findIndex recording rid recordingId l = None <->
  Forall (fun x => rid x <> recordingId) l.
Proof.
  induction l as [|r l IH]; simpl.
  - split; [constructor|reflexivity].
  - destruct (String.eqb_spec (rid r) recordingId) as [E|E].
    + split; [discriminate|]. intros H. by inversion H.
    + destruct (findIndex recording rid recordingId l) eqn:F; simpl.
      * split; [discriminate|]. intros H. inversion H; subst.
        by apply IH in H3.
      * split; [|reflexivity]. intros _. constructor; [exact E|].
        by apply IH.
Qed.

Lemma findIndex_some recordingId l i :
  findIndex recording rid recordingId l = Some i ->
  exists l1 r l2,
    l = l1 ++ r :: l2 /\ length l1 = i /\ rid r = recordingId
    /\ Forall (fun x => rid x <> recordingId) l1
    /\ delete i l = l1 ++ l2.
Proof.
  revert i. induction l as [|r l IH]; intros i; simpl; [discriminate|].
  destruct (String.eqb_spec (rid r) recordingId) as [E|E].
  - intros [= <-]. exists [], r, l. repeat split; [exact E|constructor].
  - destruct (findIndex recording rid recordingId l) as [j|]; [|discriminate].
    simpl. intros [= <-].
    destruct (IH j eq_refl) as (l1 & r' & l2 & -> & Hl & Hr & Hf & Hd).
    exists (r :: l1), r', l2. simpl. rewrite Hl, Hd.
    repeat split; [exact Hr|]. by constructor.
Qed.

End SavedFacts.

(** X5.  [deleteRecording] removes the first stored recording that has the
    given id and keeps the others in their order; when no stored recording
    has the id the store is left exactly as it was. *)
Theorem deleteRecording_removes_first_match (recording : Type)
    (rid : recording -> string) (recordingId : string)
    (st : Background.storage recording) :
  let st' := Saved.deleteRecording recording rid recordingId
               Background.io_ok st in
  (Forall (fun x => rid x <> recordingId) (default [] st) /\ st' = st)
  \/ (exists l1 r l2,
        default [] st = l1 ++ r :: l2
        /\ rid r = recordingId
        /\ Forall (fun x => rid x <> recordingId) l1
        /\ st' = Some (l1 ++ l2)).
Proof.
  intros st'. subst st'. unfold Saved.deleteRecording.
  destruct (Saved.findIndex recording rid recordingId (default [] st))
    as [i|] eqn:F.
  - right. apply findIndex_some in F as (l1 & r & l2 & E & _ & Hr & Hf & Hd).
    exists l1, r, l2. by rewrite Hd.
  - left. by apply findIndex_none in F.
Qed.

(** X6.  Saving a recording and then deleting it by its id gives back the
    list that was stored before, as long as that list had fewer than 50
    entries (with 50 the save has already dropped the oldest entry). *)
Theorem deleteRecording_undoes_saveRecording (recording : Type)
    (rid : recording -> string) (r : recording)
    (st : Background.storage recording) :
  (length (default [] st) < 50)%nat ->
  Saved.deleteRecording recording rid (rid r) Background.io_ok
    (Background.saveRecording recording r Background.io_ok st)
  = Some (default [] st).
Proof.
  intros Hlen. rewrite saveRecording_ok.
  rewrite firstn_all2 by (simpl; lia).
  unfold Saved.deleteRecording. simpl.
  by rewrite String.eqb_refl.
Qed.

Lemma deleteRecording_undoes_saveRecording_witness :
  Saved.deleteRecording nat (fun n => JsString.of_nat n) "3" Background.io_ok
    (Background.saveRecording nat 3 Background.io_ok (Some [2; 3; 1]%nat))
  = Some [2; 3; 1]%nat.
Proof.
  apply (deleteRecording_undoes_saveRecording nat
           (fun n => JsString.of_nat n) 3 (Some [2; 3; 1]%nat)).
  simpl. lia.
Defined.

(** With 50 recordings stored, saving and deleting loses the oldest one. *)
Example deleteRecording_after_full_save :
  Saved.deleteRecording nat (fun n => JsString.of_nat n) "0" Background.io_ok
    (Background.saveRecording nat 0 Background.io_ok (Some (seq 1 50)))
  = Some (seq 1 49).
Proof. vm_compute. reflexivity. Qed.

(** X7.  Right after a recording has been saved, [exportRecording] with its
    id renders that very recording (also when an older one carries the same
    id) in the three supported formats and throws for any other format; an
    id that is not stored, or a failing read of the store, gives 'Recording
    not found'. *)
Theorem exportRecording_after_save (recording : Type)
    (rid : recording -> string)
    (stringify generateMarkdown generateHTML : recording -> string)
    (r : recording) (st : Background.storage recording)
    (recordingId format : string) :
  let export := Saved.exportRecording recording rid stringify
                  generateMarkdown generateHTML in
  let st' := Background.saveRecording recording r Background.io_ok st in
  export (rid r) "json" true st' = inr (stringify r)
  /\ export (rid r) "markdown" true st' = inr (generateMarkdown r)
  /\ export (rid r) "html" true st' = inr (generateHTML r)
  /\ (~ In format ["json"; "markdown"; "html"] ->
      export (rid r) format true st' = inl "Unsupported export format")
  /\ (Forall (fun x => rid x <> recordingId) (default [] st) ->
      export recordingId format true st = inl "Recording not found")
  /\ export recordingId format false st = inl "Recording not found".
Proof.
  intros export st'. subst export st'.
  unfold Saved.exportRecording, Saved.getSavedRecordings, Saved.find_recording.
  rewrite saveRecording_ok.
  change (firstn 50 (r :: default [] st))
    with (r :: firstn 49 (default [] st)).
  cbn [default from_option id List.find]. rewrite String.eqb_refl.
  split; [reflexivity|]. split; [reflexivity|]. split; [reflexivity|].
  split; [|split; [|reflexivity]].
  - intros Hf.
    destruct (String.eqb_spec format "json") as [->|_];
      [destruct Hf; simpl; tauto|].
    destruct (String.eqb_spec format "markdown") as [->|_];
      [destruct Hf; simpl; tauto|].
    destruct (String.eqb_spec format "html") as [->|_];
      [destruct Hf; simpl; tauto|].
    reflexivity.
  - intros Hf.
    replace (List.find _ (default [] st)) with (@None recording);
      [reflexivity|].
    symmetry. induction Hf as [|x l Hx _ IH]; [reflexivity|]. simpl.
    by destruct (String.eqb_spec (rid x) recordingId).
Qed.

(** * Further properties of the locators *)

Section XPathFacts.
Import JsString Dom XPath.

Lemma paths_children n : paths n = [] :: child_paths 0 (children n).
Proof.
  destruct n as [t h i ti ar cl ch]. reflexivity.
Qed.

Lemma child_paths_app i l1 l2 :
  child_paths i (l1 ++ l2)
  = child_paths i l1 ++ child_paths (i + length l1) l2.
Proof.
  revert i. induction l1 as [|c l1 IH]; intros i; simpl.
  - by rewrite Nat.add_0_r.
  - rewrite IH, <- app_assoc. do 3 f_equal. lia.
Qed.

Lemma in_child_paths p i cs :
  In p (child_paths i cs) -> exists j q, p = (i + j)%nat :: q.
Proof.
  revert i. induction cs as [|c cs IH]; intros i; simpl; [intros []|].
  rewrite in_app_iff, in_map_iff. intros [(q & <- & _)|H].
  - exists 0%nat, q. by rewrite Nat.add_0_r.
  - apply IH in H as (j & q & ->). exists (S j), q. f_equal. lia.
Qed.

Lemma NoDup_child_paths i cs :
  Forall (fun c => NoDup (paths c)) cs -> NoDup (child_paths i cs).
Proof.
  intros H. revert i. induction H as [|c cs Hc _ IH]; intros i; simpl.
  - constructor.
  - apply NoDup_app. split; [|split].
    + apply (NoDup_fmap_2 (cons i)). exact Hc.
    + intros p Hp Hp'. apply list_elem_of_In in Hp, Hp'.
      apply in_map_iff in Hp as (q & <- & _).
      apply in_child_paths in Hp' as (j & q' & E). injection E. lia.
    + apply IH.
Qed.

(** No position is listed twice. *)
Lemma NoDup_paths n : NoDup (paths n).
Proof.
  induction n as [n IH] using node_induction.
  rewrite paths_children. constructor.
  - intros H. apply list_elem_of_In, in_child_paths in H as (j & q & E).
    discriminate.
  - by apply NoDup_child_paths.
Qed.

Lemma NoDup_all_refs doc : NoDup (all_refs doc).
Proof.
  unfold all_refs.
  assert (Hinj : Inj eq eq (@rev nat)).
  { intros x y E. by rewrite <- (rev_involutive x), E, rev_involutive. }
  apply (NoDup_fmap_2 (@rev nat)). apply NoDup_paths.
Qed.

Lemma index_where_lookup {A} (p : A -> bool) (l : list A) i :
  index_where p l = Some i -> exists x, l !! i = Some x /\ p x = true.
Proof.
  revert i. induction l as [|y l IH]; intros i; simpl; [discriminate|].
  destruct (p y) eqn:E.
  - intros [= <-]. eauto.
  - destruct (index_where p l) as [j|]; [|discriminate]. simpl.
    intros [= <-]. by apply IH.
Qed.

(** Where an element below the body stands in the whole document: its rank
    in the snapshot plus the number of elements before the body's first
    descendant (the root, everything before the body, and the body). *)
Lemma snapshot_offset doc nodes :
  snapshot doc = Some nodes ->
  exists off, (2 <= off)%nat /\
    forall i r, nodes !! i = Some r -> all_refs doc !! (off + i)%nat = Some r.
Proof.
  unfold snapshot. destruct (body_index doc) as [b|]; [|discriminate].
  destruct (children doc !! b) as [body|] eqn:Hb; [|discriminate].
  intros [= <-].
  pose proof (take_drop_middle _ _ _ Hb) as Hsplit.
  assert (Hlen : length (take b (children doc)) = b).
  { apply length_take_le. apply lookup_lt_Some in Hb. lia. }
  set (pre := take b (children doc)) in *.
  set (post := drop (S b) (children doc)) in *.
  assert (E : paths doc
              = ([] :: child_paths 0 pre ++ [[b]])
                ++ (map (cons b) (tail (paths body))
                    ++ child_paths (S b) post)).
  { rewrite (paths_children doc), <- Hsplit, child_paths_app.
    cbn [child_paths]. rewrite Hlen, (paths_children body).
    cbn [map tail Nat.add app]. by rewrite <- app_assoc. }
  exists (length ([] :: child_paths 0 pre ++ [[b]])). split.
  { cbn [length]. rewrite length_app. simpl. lia. }
  intros i r Hi.
  rewrite list_lookup_fmap in Hi.
  destruct (tail (paths body) !! i) as [p|] eqn:Hp; [|discriminate].
  injection Hi as <-.
  unfold all_refs. change (map (@rev nat) (paths doc)) with (@rev nat <$> paths doc).
  rewrite list_lookup_fmap, E.
  rewrite lookup_app_r by lia.
  replace (length ([] :: child_paths 0 pre ++ [[b]]) + i
           - length ([] :: child_paths 0 pre ++ [[b]]))%nat with i by lia.
  rewrite lookup_app_l.
  - change (map (cons b) ?l) with (cons b <$> l).
    by rewrite list_lookup_fmap, Hp.
  - rewrite length_map. by apply lookup_lt_Some in Hp.
Qed.

End XPathFacts.

(** X10.  The expression returned by [getXPath] gives the rank of the
    element among the elements below the body, but selects by rank among all
    elements of the document.  Every document has one offset, at least two
    (the root and the body), such that for every element the expression
    yields not that element but the one standing that many places before
    it: the element itself is found at the rank plus the offset. *)
Theorem getXPath_is_off_by_the_elements_before_body (doc : Dom.node) :
  exists off, (2 <= off)%nat /\
    forall (e : Dom.ref) (k : nat),
      XPath.getXPath doc e = Some (Some k) ->
      XPath.evaluate doc k <> Some e
      /\ XPath.evaluate doc (off + k) = Some e.
Proof.
  unfold XPath.getXPath.
  destruct (XPath.snapshot doc) as [nodes|] eqn:Hs.
  2:{ exists 2%nat. split; [lia|]. intros e k. discriminate. }
  destruct (snapshot_offset doc nodes Hs) as (off & Hoff & Hall).
  exists off. split; [exact Hoff|]. intros e k.
  destruct (XPath.index_where _ nodes) as [i|] eqn:Hi; [|discriminate].
  simpl. intros [= <-].
  apply index_where_lookup in Hi as (x & Hx & Hdec).
  apply bool_decide_eq_true in Hdec. subst x.
  specialize (Hall i e Hx).
  split.
  - simpl. intros Hi.
    pose proof (NoDup_lookup _ _ _ _ (NoDup_all_refs doc) Hi Hall). lia.
  - replace (off + S i)%nat with (S (off + i)) by lia. exact Hall.
Qed.

(** In the sample document the offset is three (the root, the head and the
    body): the label of the first card has rank 2 below the body and rank 5
    in the document, the paragraph rank 5 and rank 8. *)
Lemma getXPath_is_off_by_the_elements_before_body_witness :
  let e : Dom.ref := [0; 0; 1]%nat in
  let p : Dom.ref := [2; 1]%nat in
  XPath.getXPath Samples.sample_doc e = Some (Some 2%nat)
  /\ XPath.getXPath Samples.sample_doc p = Some (Some 5%nat)
  /\ XPath.render_xpath 2 = "(//" +:+ "*)[2]"
  /\ XPath.evaluate Samples.sample_doc 2 = Some [0]%nat
  /\ exists off,
       XPath.evaluate Samples.sample_doc 2 <> Some e
       /\ XPath.evaluate Samples.sample_doc (off + 2) = Some e
       /\ XPath.evaluate Samples.sample_doc 5 <> Some p
       /\ XPath.evaluate Samples.sample_doc (off + 5) = Some p.
Proof.
  intros e p.
  destruct (getXPath_is_off_by_the_elements_before_body Samples.sample_doc)
    as (off & _ & H).
  assert (He : XPath.getXPath Samples.sample_doc e = Some (Some 2%nat))
    by (vm_compute; reflexivity).
  assert (Hp : XPath.getXPath Samples.sample_doc p = Some (Some 5%nat))
    by (vm_compute; reflexivity).
  destruct (H e 2%nat He) as [He1 He2].
  destruct (H p 5%nat Hp) as [Hp1 Hp2].
  split; [exact He|]. split; [exact Hp|]. split; [reflexivity|].
  split; [vm_compute; reflexivity|].
  exists off. auto.
Defined.

Section SelectorSoundness.
Import JsString Dom.

Lemma filter_only {A} (p : A -> bool) (l : list A) (e : A) :
  NoDup l -> In e l -> p e = true ->
  (forall q, In q l -> p q = true -> q = e) ->
  List.filter p l = [e].
Proof.
  intros Hnd. induction Hnd as [|x l Hx Hnd IH]; intros Hin He Hall;
    [destruct Hin|].
  simpl. destruct (p x) eqn:Hpx.
  - assert (x = e) as -> by (apply Hall; [by left|exact Hpx]).
    f_equal. apply filter_none. apply List.Forall_forall. intros q Hq.
    destruct (p q) eqn:Hpq; [|reflexivity].
    assert (q = e) as -> by (apply Hall; [by right|exact Hpq]).
    destruct Hx. by apply list_elem_of_In.
  - destruct Hin as [->|Hin]; [congruence|].
    apply IH; [exact Hin|exact He|]. intros q Hq. apply Hall. by right.
Qed.

Lemma matches_own_selector querySelectorAll doc e n sel :
  lower_case doc = true ->
  lookup doc e = Some n ->
  getSelector querySelectorAll doc e = Some (Js.Returns sel) ->
  matches doc sel e = true.
Proof.
  intros Hlow Hn. unfold getSelector. rewrite Hn.
  pose proof (lower_case_lookup doc e n Hlow Hn) as Hname.
  destruct (nonempty (nid n)).
  { intros [= <-]. unfold matches. rewrite Hn. apply string_eqb_refl. }
  destruct (attr_truthy (testid n)) eqn:Ht.
  { intros [= <-]. unfold matches, get_attr. rewrite Hn. simpl.
    destruct (testid n) as [v|]; [|discriminate]. apply string_eqb_refl. }
  destruct (attr_truthy (aria n)) eqn:Ha.
  { intros [= <-]. unfold matches, get_attr. rewrite Hn. simpl.
    destruct (aria n) as [v|]; [|discriminate]. apply string_eqb_refl. }
  assert (Hp : matches doc (SelPath (getPathSelector doc e)) e = true).
  { rewrite matches_path. by apply (matches_own_path doc e n). }
  destruct (nonempty _); [|by intros [= <-]].
  destruct (querySelectorAll doc _) as [found|]; [|discriminate].
  destruct (length found =? 1)%nat; intros [= <-]; [|exact Hp].
  by apply matches_own_class.
Qed.

End SelectorSoundness.

(** X8.  In a document whose local names are in lower case, whatever
    branch of the priority chain is taken: when [getSelector] returns a
    selector for an element and the names in it are CSS identifiers (its
    attribute value plain), the selector denotes that element, and every
    selector engine that reads well-formed selector strings as they are
    meant finds the element with it. *)
Theorem getSelector_selects_the_element (querySelectorAll : Dom.engine)
    (doc : Dom.node) (e : Dom.ref) (n : Dom.node) (sel : Dom.selector) :
  Dom.conforming querySelectorAll ->
  Dom.lower_case doc = true ->
  Dom.lookup doc e = Some n ->
  Dom.getSelector querySelectorAll doc e = Some (Js.Returns sel) ->
  Dom.well_formed sel = true ->
  Dom.matches doc sel e = true
  /\ exists found,
       querySelectorAll doc (Dom.render sel) = Some found /\ In e found.
Proof.
  intros [Hread _] Hlow Hn Hsel Hwf.
  pose proof (matches_own_selector querySelectorAll doc e n sel Hlow Hn Hsel)
    as Hm.
  split; [exact Hm|].
  exists (Dom.denotation doc sel). split; [by apply Hread|].
  apply filter_In. split; [|exact Hm].
  apply in_all_refs. by rewrite Hn.
Qed.

(** The label of the second card, found with its path among others, and
    the button of the form, found with its id. *)
Lemma getSelector_selects_the_element_witness :
  (exists found,
     Css.reference Samples.sample_doc "#card > span" = Some found
     /\ In [0; 1; 1]%nat found)
  /\ (exists found,
        Css.reference Samples.form_doc "#submit-btn" = Some found
        /\ In [1; 1]%nat found).
Proof.
  split.
  - apply (getSelector_selects_the_element Css.reference Samples.sample_doc
             [0; 1; 1]%nat (Samples.elem "span" "" ["label"] [])
             (Dom.SelPath
                (Dom.getPathSelector Samples.sample_doc [0; 1; 1]%nat))
             reference_conforming); reflexivity.
  - apply (getSelector_selects_the_element Css.reference Samples.form_doc
             [1; 1]%nat
             {| Dom.localName := "button"; Dom.html := true;
                Dom.nid := "submit-btn";
                Dom.testid := Some "submit"; Dom.aria := Some "Send";
                Dom.classList := ["primary"]; Dom.children := [] |}
             (Dom.SelId "submit-btn") reference_conforming); reflexivity.
Defined.

(** X9.  An element with a non-empty id gets the selector [#id], whatever
    its other attributes and classes and without any call of the selector
    engine; when the id is a CSS identifier and no other element of the
    document has it, every selector engine that reads well-formed selector
    strings as they are meant resolves the selector to exactly this
    element. *)
Theorem getSelector_id_first (querySelectorAll : Dom.engine)
    (doc : Dom.node) (e : Dom.ref) (n : Dom.node) :
  Dom.lookup doc e = Some n ->
  Dom.nonempty (Dom.nid n) = true ->
  Dom.getSelector querySelectorAll doc e
    = Some (Js.Returns (Dom.SelId (Dom.nid n)))
  /\ Dom.render (Dom.SelId (Dom.nid n)) = "#" +:+ Dom.nid n
  /\ (Dom.conforming querySelectorAll ->
      Dom.css_ident (Dom.nid n) = true ->
      (forall q m, Dom.lookup doc q = Some m -> Dom.nid m = Dom.nid n ->
         q = e) ->
      querySelectorAll doc (Dom.render (Dom.SelId (Dom.nid n))) = Some [e]).
Proof.
  intros Hn Hid. split; [|split; [reflexivity|]].
  - unfold Dom.getSelector. by rewrite Hn, Hid.
  - intros [Hread _] Hcss Huniq.
    rewrite (Hread doc (Dom.SelId (Dom.nid n)) Hcss). f_equal.
    apply filter_only.
    + apply NoDup_all_refs.
    + apply in_all_refs. by rewrite Hn.
    + unfold Dom.matches. rewrite Hn. apply string_eqb_refl.
    + intros q _ Hq. unfold Dom.matches in Hq.
      destruct (Dom.lookup doc q) as [m|] eqn:Hm; [|discriminate].
      apply (Huniq q m Hm). by apply String.eqb_eq.
Qed.

Lemma form_doc_submit_unique :
  forall q m, Dom.lookup Samples.form_doc q = Some m ->
    Dom.nid m = "submit-btn" -> q = [1; 1]%nat.
Proof.
  intros q m Hq Hid.
  assert (Hin : In q (Dom.all_refs Samples.form_doc))
    by (apply in_all_refs; by rewrite Hq).
  vm_compute in Hin.
  repeat (destruct Hin as [<-|Hin];
          [vm_compute in Hq; injection Hq as <-;
           first [reflexivity | discriminate Hid]|]).
  destruct Hin.
Qed.

(** The button of the sample form has an id, a test id, an aria label and a
    class; the id wins and resolves to the button alone. *)
Lemma getSelector_id_first_witness :
  Dom.getSelector Css.reference Samples.form_doc [1; 1]%nat
    = Some (Js.Returns (Dom.SelId "submit-btn"))
  /\ Dom.render (Dom.SelId "submit-btn") = "#submit-btn"
  /\ Css.reference Samples.form_doc "#submit-btn" = Some [[1; 1]%nat].
Proof.
  destruct (getSelector_id_first Css.reference Samples.form_doc [1; 1]%nat
              {| Dom.localName := "button"; Dom.html := true;
                 Dom.nid := "submit-btn";
                 Dom.testid := Some "submit"; Dom.aria := Some "Send";
                 Dom.classList := ["primary"]; Dom.children := [] |})
    as (H1 & H2 & H3); [reflexivity|reflexivity|].
  split; [exact H1|]. split; [reflexivity|].
  apply H3; [exact reference_conforming|reflexivity|].
  exact form_doc_submit_unique.
Defined.


(** * Further properties of form capture *)

Section FormFacts.
Import JsString Masking Forms.

Lemma assign_lookup name v fd n w :
  assign name v fd !! n = Some w ->
  fd !! n = Some w \/ (n = name /\ w = v /\ name <> "__proto__").
Proof.
  unfold assign.
  destruct (String.eqb_spec name "__proto__") as [E|E].
  - by left.
  - destruct (decide (name = n)) as [->|Hne].
    + rewrite lookup_insert_eq. intros [= <-]. by right.
    + rewrite lookup_insert_ne by done. by left.
Qed.

(** Every entry of the result is there from the start or comes from an
    enabled control of that name. *)
Lemma extractFormData_loop_sound elements fd0 fd n v :
  extractFormData_loop elements fd0 = Some fd ->
  fd !! n = Some v ->
  fd0 !! n = Some v
  \/ exists c, In c elements /\ named c = Some n /\ c_disabled c = false
               /\ n <> "__proto__" /\ yields c v.
Proof.
  revert fd0. induction elements as [|c rest IH]; intros fd0 Hloop Hn.
  - injection Hloop as <-. by left.
  - assert (Hrest : forall fd1,
              extractFormData_loop rest fd1 = Some fd ->
              (fd1 !! n = Some v ->
               fd0 !! n = Some v
               \/ exists c0, In c0 (c :: rest) /\ named c0 = Some n
                             /\ c_disabled c0 = false /\ n <> "__proto__"
                             /\ yields c0 v) ->
              fd0 !! n = Some v
              \/ exists c0, In c0 (c :: rest) /\ named c0 = Some n
                            /\ c_disabled c0 = false /\ n <> "__proto__"
                            /\ yields c0 v).
    { intros fd1 H1 Hfd1. destruct (IH fd1 H1 Hn) as [H|(c0 & Hin & H)].
      - by apply Hfd1.
      - right. exists c0. split; [by right|exact H]. }
    cbn [extractFormData_loop] in Hloop.
    destruct (named c) as [name|] eqn:Hname; [|by apply (Hrest fd0); auto].
    destruct (c_disabled c) eqn:Hdis; [by apply (Hrest fd0); auto|].
    destruct (has_type "password" c) eqn:Hpw.
    { apply (Hrest _ Hloop). intros H.
      apply assign_lookup in H as [H|(-> & -> & Hp)]; [by left|].
      right. exists c. split; [by left|]. repeat split; try done.
      left. done. }
    destruct (has_type "checkbox" c || has_type "radio" c) eqn:Hcb.
    { destruct (c_checked c) eqn:Hch; [|by apply (Hrest fd0); auto].
      apply (Hrest _ Hloop). intros H.
      apply assign_lookup in H as [H|(-> & -> & Hp)]; [by left|].
      right. exists c. split; [by left|]. repeat split; try done.
      right. left. done. }
    destruct (c_value c) as [raw|] eqn:Hv; [|discriminate].
    apply (Hrest _ Hloop). intros H.
    apply assign_lookup in H as [H|(-> & -> & Hp)]; [by left|].
    right. exists c. split; [by left|]. repeat split; try done.
    right. right. repeat split; try done. by exists raw.
Qed.

Lemma extractFormData_loop_throws elements fd0 :
  extractFormData_loop elements fd0 = None <->
  existsb valueless elements = true.
Proof.
  revert fd0. induction elements as [|c rest IH]; intros fd0.
  - simpl. split; discriminate.
  - cbn [extractFormData_loop existsb]. unfold valueless at 1.
    destruct (named c) as [name|] eqn:Hname; simpl; [|apply IH].
    destruct (c_disabled c); simpl; [apply IH|].
    destruct (has_type "password" c); simpl; [apply IH|].
    destruct (has_type "checkbox" c || has_type "radio" c); simpl.
    { destruct (c_checked c); apply IH. }
    destruct (c_value c) as [raw|]; simpl; [apply IH|].
    split; reflexivity.
Qed.

End FormFacts.

(** X11.  Every entry of the captured form data comes from an enabled
    control of that name and holds the fixed placeholder (password control),
    the value of a checked checkbox or radio button, or the masked value of
    another control; in particular a name carried by password controls only
    is always mapped to the placeholder, never to what was typed. *)
Theorem extractFormData_entries (elements : list Forms.control)
    (fd : gmap string (option string)) (n : string) (v : option string) :
  Forms.extractFormData elements = Some fd ->
  fd !! n = Some v ->
  (exists c, In c elements /\ Forms.named c = Some n
             /\ Forms.c_disabled c = false /\ n <> "__proto__"
             /\ Forms.yields c v)
  /\ ((forall c, In c elements -> Forms.named c = Some n ->
         Forms.has_type "password" c = true) ->
      v = Some "***").
Proof.
  intros Hfd Hn.
  destruct (extractFormData_loop_sound elements ∅ fd n v Hfd Hn)
    as [H|(c & Hin & Hname & Hdis & Hp & Hy)].
  { by rewrite lookup_empty in H. }
  split; [by exists c|].
  intros Hall. specialize (Hall c Hin Hname).
  destruct Hy as [[_ ->]|[(Hpw & _)|(Hpw & _)]]; [reflexivity| |];
    congruence.
Qed.

Lemma extractFormData_entries_witness :
  exists fd,
    Forms.extractFormData Samples.login_form = Some fd
    /\ fd !! "pw" = Some (Some "***")
    /\ fd !! "user" = Some (Some "j***@example.com")
    /\ fd !! "plan" = Some (Some "pro")
    /\ fd !! "remember" = None
    /\ exists c, In c Samples.login_form /\ Forms.named c = Some "pw"
                 /\ Forms.yields c (Some "***").
Proof.
  destruct (Forms.extractFormData Samples.login_form) as [fd|] eqn:E;
    [|vm_compute in E; discriminate].
  exists fd.
  assert (Hpw : fd !! "pw" = Some (Some "***")).
  { vm_compute in E. injection E as <-. vm_compute. reflexivity. }
  destruct (extractFormData_entries Samples.login_form fd "pw"
              (Some "***") E Hpw) as ((c & Hin & Hname & _ & _ & Hy) & _).
  split; [reflexivity|]. split; [exact Hpw|].
  split; [vm_compute in E; injection E as <-; vm_compute; reflexivity|].
  split; [vm_compute in E; injection E as <-; vm_compute; reflexivity|].
  split; [vm_compute in E; injection E as <-; vm_compute; reflexivity|].
  by exists c.
Defined.

(** X12.  The capture throws exactly when the form has an enabled, named
    control that is neither a password field nor a checkbox or radio button
    and has no [value] property (a named field set, for instance); a
    disabled or unnamed one does no harm. *)
Theorem extractFormData_throws_iff (elements : list Forms.control) :
  Forms.extractFormData elements = None <->
  exists c, In c elements /\ Forms.valueless c = true.
Proof.
  unfold Forms.extractFormData.
  rewrite extractFormData_loop_throws. apply existsb_exists.
Qed.

Example extractFormData_fieldset :
  Forms.extractFormData Samples.fieldset_form = None
  /\ Forms.valueless (hd (Samples.control "" "" "" false)
                         Samples.fieldset_form) = true.
Proof. vm_compute. split; reflexivity. Qed.

(** * Further properties of the recorder *)

Section TwoTimers.
Import EventLoop.
Variables C S : Type.
Variable clock_of : S -> clock C.
Variable with_clock : clock C -> S -> S.
Variable fire : C -> S -> S.
Hypothesis get_put : forall k s, clock_of (with_clock k s) = k.
Hypothesis put_put :
  forall k k' s, with_clock k' (with_clock k s) = with_clock k' s.
Hypothesis put_get : forall s, with_clock (clock_of s) s = s.

(** Of two pending timers the one set later runs first when it falls due
    earlier; the other one stays pending. *)
Lemma elapse_until_later_timer d s a b :
  pending (clock_of s) = [a; b] ->
  t_id a <> t_id b ->
  t_due b = (now (clock_of s) + Z.of_nat (Datatypes.S d))%Z ->
  (t_due b < t_due a)%Z ->
  elapse clock_of with_clock fire (Datatypes.S d) s
  = fire (t_cb b)
      (with_clock {| now := t_due b; next_id := next_id (clock_of s);
                     pending := [a] |} s).
Proof.
  intros Hp Hid Hdue Hlt.
  replace (Datatypes.S d) with (d + 1)%nat by lia.
  rewrite (elapse_add C S clock_of with_clock fire).
  rewrite (elapse_quiet C S clock_of with_clock fire get_put put_put put_get d s).
  2:{ unfold quiet_for. rewrite Hp.
      constructor; [lia|constructor; [lia|constructor]]. }
  cbn [elapse]. unfold tick. rewrite get_put. simpl.
  rewrite Hp. simpl. unfold due_by.
  assert (Ea : (t_due a <=? now (clock_of s) + Z.of_nat d + 1)%Z = false)
    by (apply Z.leb_gt; lia).
  assert (Eb : (t_due b <=? now (clock_of s) + Z.of_nat d + 1)%Z = true)
    by (apply Z.leb_le; lia).
  rewrite Ea, Eb. simpl. unfold fire_one. rewrite get_put, put_put.
  unfold is_pending. simpl. rewrite Hp. simpl. rewrite Nat.eqb_refl.
  rewrite orb_true_r. rewrite put_put.
  assert (En : (t_id a =? t_id b)%nat = false) by (by apply Nat.eqb_neq).
  rewrite En. simpl. do 2 f_equal. f_equal. lia.
Qed.

End TwoTimers.

Section RecorderMore.
Import EventLoop Action Masking Recorder.
#[local] Arguments wait : simpl never.

Lemma rec_wait_add a b s : wait (a + b) s = wait b (wait a s).
Proof. apply (elapse_add callback state clk with_clock fire). Qed.

Lemma rec_wait_until_later_timer d s a b :
  pending (clk s) = [a; b] ->
  t_id a <> t_id b ->
  t_due b = (now (clk s) + Z.of_nat (S d))%Z ->
  (t_due b < t_due a)%Z ->
  wait (S d) s
  = fire (t_cb b)
      (with_clock {| now := t_due b; next_id := next_id (clk s);
                     pending := [a] |} s).
Proof.
  apply (elapse_until_later_timer callback state clk with_clock fire);
    [reflexivity | reflexivity | apply rec_put_get].
Qed.

(** The fresh recorder right after the first input event on [e]. *)
Lemma first_input_state t0 sid p e el d v :
  p !! e = Some el -> shouldIgnoreElement el = false ->
  handle (Input e v) (wait d (recording t0 sid p))
  = {| clk := {| now := t0 + Z.of_nat d; next_id := 2;
                 pending := [{| t_id := 1; t_due := t0 + Z.of_nat d + 500;
                                t_cb := cb_input e |}] |};
       isRecording := true; isPaused := false; sessionId := Some sid;
       lastAction := None; inputBuffer := <[e := 1%nat]> ∅;
       listeners := event_names;
       page := <[e := set_value v el]> p; unlocatable := ∅;
       frames := []; awaiting := []; outbox := [] |}.
Proof.
  intros He Hrel. rewrite rec_wait_quiet; [|constructor].
  unfold handle. simpl. rewrite He.
  unfold dispatch, handleInput. simpl.
  rewrite lookup_insert_eq, ignore_set_value, Hrel.
  unfold debounce. simpl. rewrite lookup_empty. reflexivity.
Qed.

(** The recorder when the debounce of that event has run. *)
Lemma input_fired_state t0 sid p e el value d0 v :
  p !! e = Some el -> shouldIgnoreElement el = false ->
  el_value el = Some value ->
  wait 500 (handle (Input e v) (wait d0 (recording t0 sid p)))
  = {| clk := {| now := t0 + Z.of_nat d0 + 500; next_id := 3;
                 pending := [{| t_id := 2;
                                t_due := t0 + Z.of_nat d0 + 500 + 300;
                                t_cb := cb_settled 0 |}] |};
       isRecording := true; isPaused := false; sessionId := Some sid;
       lastAction := None; inputBuffer := delete e (<[e := 1%nat]> ∅);
       listeners := event_names;
       page := <[e := set_value v el]> p; unlocatable := ∅;
       frames := [input_object (set_value v el) v];
       awaiting := []; outbox := [] |}.
Proof.
  intros He Hrel Hv. rewrite (first_input_state t0 sid p e el d0 v He Hrel).
  erewrite (rec_wait_until_due 499); [|reflexivity|simpl; lia].
  cbn [t_cb fire page with_clock].
  rewrite lookup_insert_eq, (input_action_set_value el v value Hv).
  reflexivity.
Qed.

(** A recorded key pressed [d] < 300 ms later, on the element [elk]. *)
Lemma key_pressed_state t0 sid p e el value d0 v e' elk key d :
  (100 <= t0)%Z ->
  p !! e = Some el -> shouldIgnoreElement el = false ->
  el_value el = Some value ->
  <[e := set_value v el]> p !! e' = Some elk ->
  In key keys -> (d < 300)%nat ->
  run [(d0, Input e v); ((500 + d)%nat, Keydown e' key)] (recording t0 sid p)
  = {| clk := {| now := t0 + Z.of_nat d0 + 500 + Z.of_nat d; next_id := 4;
                 pending := [{| t_id := 2;
                                t_due := t0 + Z.of_nat d0 + 500 + 300;
                                t_cb := cb_settled 0 |};
                             {| t_id := 3;
                                t_due := t0 + Z.of_nat d0 + 500
                                         + Z.of_nat d + 200;
                                t_cb := cb_settled 1 |}] |};
       isRecording := true; isPaused := false; sessionId := Some sid;
       lastAction := None; inputBuffer := delete e (<[e := 1%nat]> ∅);
       listeners := event_names;
       page := <[e := set_value v el]> p; unlocatable := ∅;
       frames := [input_object (set_value v el) v; keypress_action elk key];
       awaiting := []; outbox := [] |}.
Proof.
  intros Ht0 He Hrel Hv Hk Hkey Hd. cbn [run].
  rewrite rec_wait_add.
  rewrite (input_fired_state t0 sid p e el value d0 v He Hrel Hv).
  rewrite rec_wait_quiet.
  2:{ constructor; [simpl; lia|constructor]. }
  erewrite keydown_records;
    [reflexivity|repeat split|exact Hk|exact Hkey|reflexivity].
Qed.

End RecorderMore.

(** X13.  Neither [pause] nor [stop] cancels a pending input debounce: when
    the recorder is paused or stopped [d] < 500 ms after an input event on
    an element that [getElementInfo] can locate and that has a [value], the
    debounce callback still runs 500 ms after the event, and the input
    action is recorded and, after stabilisation and the screenshot reply,
    sent. *)
Theorem debounce_outlives_pause_and_stop (s0 : Recorder.state) (e : nat)
    (el : Recorder.element) (value v : string) (d0 d : nat)
    (ev : Recorder.event) (shot : option string) :
  Recorder.at_rest s0 ->
  Recorder.page s0 !! e = Some el ->
  Recorder.shouldIgnoreElement el = false ->
  Recorder.el_value el = Some value ->
  (d < 500)%nat ->
  ev = Recorder.Pause \/ ev = Recorder.Stop ->
  let s := Recorder.run [(d0, Recorder.Input e v); (d, ev)] s0 in
  let a := Recorder.input_object (Recorder.set_value v el) v in
  let s' := Recorder.wait (500 - d) s in
  (Recorder.isPaused s = true \/ Recorder.isRecording s = false)
  /\ Recorder.frames s = Recorder.frames s0
  /\ Recorder.frames (Recorder.wait (499 - d) s) = Recorder.frames s0
  /\ Recorder.frames s' = Recorder.frames s0 ++ [a]
  /\ Recorder.sent
       (Recorder.handle
          (Recorder.ScreenshotReply (length (Recorder.frames s0)) shot)
          (Recorder.wait 300 s'))
     = Recorder.sent s0 ++ [Action.with_screenshot shot a].
Proof.
  intros Hrest He Hrel Hv Hd Hev s a s'. subst s s' a.
  cbn [Recorder.run].
  destruct (first_input s0 e el Hrel d0 v Hrest He) as (_ & i & _ & Harm).
  apply (armed_wait s0 e el v i 500 d _ Hd) in Harm.
  set (s1 := Recorder.wait d _) in *.
  assert (Harm' : Recorder.armed s0 e el v i (S (499 - d))
                    (Recorder.handle ev s1)).
  { replace (S (499 - d)) with (500 - d)%nat by lia.
    destruct Hev as [-> | ->]; [by apply armed_pause|by apply armed_stop]. }
  replace (500 - d)%nat with (S (499 - d)) by lia.
  destruct (armed_fires s0 e el v i (499 - d) _ value Harm' Hv)
    as (Hbefore & Hfire & Hshot).
  destruct (Hshot shot) as (Hsent & _).
  split; [|split; [apply Harm'|split; [exact Hbefore|split; assumption]]].
  destruct Hev as [-> | ->]; [by left|right].
  cbn [Recorder.handle]. unfold Recorder.stop.
  by destruct (Recorder.isRecording s1) eqn:E.
Qed.

(** The search box is paused, and in a second run stopped, 100 ms after a
    key was typed. *)
Lemma debounce_outlives_pause_and_stop_witness :
  let s0 := Recorder.recording 1700000000000 "s"
              {[ 1%nat := Samples.search_box ]} in
  let a := Recorder.input_object
             (Recorder.set_value "hello" Samples.search_box) "hello" in
  let after ev := Recorder.run [(0%nat, Recorder.Input 1 "hello");
                                (100%nat, ev)] s0 in
  let sent_after ev :=
    Recorder.sent
      (Recorder.handle (Recorder.ScreenshotReply 0 None)
         (Recorder.wait 300 (Recorder.wait (500 - 100) (after ev)))) in
  (Recorder.isPaused (after Recorder.Pause) = true
   /\ Recorder.frames (after Recorder.Pause) = []
   /\ Recorder.frames (Recorder.wait (500 - 100) (after Recorder.Pause)) = [a]
   /\ sent_after Recorder.Pause = [Action.with_screenshot None a])
  /\ (Recorder.isRecording (after Recorder.Stop) = false
      /\ Recorder.frames (after Recorder.Stop) = []
      /\ Recorder.frames (Recorder.wait (500 - 100) (after Recorder.Stop))
         = [a]
      /\ sent_after Recorder.Stop = [Action.with_screenshot None a]).
Proof.
  intros s0 a after sent_after.
  assert (Hrest : Recorder.at_rest s0)
    by (vm_compute; repeat split; reflexivity).
  split.
  - destruct (debounce_outlives_pause_and_stop s0 1 Samples.search_box ""
                "hello" 0 100 Recorder.Pause None Hrest)
      as (_ & H2 & _ & H4 & H5);
      [reflexivity|reflexivity|reflexivity|lia|by left|].
    split; [reflexivity|]. repeat split; assumption.
  - destruct (debounce_outlives_pause_and_stop s0 1 Samples.search_box ""
                "hello" 0 100 Recorder.Stop None Hrest)
      as (_ & H2 & _ & H4 & H5);
      [reflexivity|reflexivity|reflexivity|lia|by right|].
    split; [reflexivity|]. repeat split; assumption.
Defined.

(** X14.  Actions reach the worker in the order in which their
    stabilisation waits end and their screenshots arrive, not in the order
    in which they happened: a recorded key pressed, on any locatable
    element, [d] < 100 ms after an input action was handed to
    [recordAction] waits 200 ms while the input waits 300 ms, so the
    screenshot of the key press is requested first, and when the two
    replies come back in the order of the requests, after whatever delays,
    the key press is sent first. *)
Theorem keypress_overtakes_input (t0 : Z) (sid : string)
    (p : gmap nat Recorder.element) (e e' : nat)
    (el elk : Recorder.element) (value v key : string) (d0 d a b : nat)
    (shot0 shot1 : option string) :
  (100 <= t0)%Z ->
  p !! e = Some el ->
  Recorder.shouldIgnoreElement el = false ->
  Recorder.el_value el = Some value ->
  <[e := Recorder.set_value v el]> p !! e' = Some elk ->
  In key Recorder.keys ->
  (d < 100)%nat ->
  (100 - d <= a + b)%nat ->
  let s := Recorder.run [(d0, Recorder.Input e v);
                         ((500 + d)%nat, Recorder.Keydown e' key)]
             (Recorder.recording t0 sid p) in
  let i := Recorder.input_object (Recorder.set_value v el) v in
  let k := Recorder.keypress_action elk key in
  let s' := Recorder.run [((200 + a)%nat, Recorder.ScreenshotReply 1 shot1);
                          (b, Recorder.ScreenshotReply 0 shot0)] s in
  Recorder.frames s = [i; k]
  /\ Recorder.outbox (Recorder.wait 200 s) = [Recorder.CaptureScreenshot 1]
  /\ Recorder.outbox (Recorder.wait (300 - d) s)
     = [Recorder.CaptureScreenshot 1; Recorder.CaptureScreenshot 0]
  /\ Recorder.sent s'
     = [Action.with_screenshot shot1 k; Action.with_screenshot shot0 i].
Proof.
  intros Ht0 He Hrel Hv Hk Hkey Hd Hab s i k s'. subst s' s i k.
  rewrite (key_pressed_state t0 sid p e el value d0 v e' elk key d)
    by (try assumption; lia).
  set (T := (t0 + Z.of_nat d0 + 500)%Z).
  set (i := Recorder.input_object (Recorder.set_value v el) v).
  set (k := Recorder.keypress_action elk key).
  set (s := {| Recorder.clk := _ |}).
  assert (E200 : Recorder.wait 200 s
                 = Recorder.settled 1
                     (Recorder.with_clock
                        {| EventLoop.now := T + Z.of_nat d + 200;
                           EventLoop.next_id := 4;
                           EventLoop.pending :=
                             [{| EventLoop.t_id := 2;
                                 EventLoop.t_due := T + 300;
                                 EventLoop.t_cb := Recorder.cb_settled 0 |}]
                        |} s)).
  { rewrite (rec_wait_until_later_timer 199 s
               {| EventLoop.t_id := 2; EventLoop.t_due := T + 300;
                  EventLoop.t_cb := Recorder.cb_settled 0 |}
               {| EventLoop.t_id := 3;
                  EventLoop.t_due := T + Z.of_nat d + 200;
                  EventLoop.t_cb := Recorder.cb_settled 1 |});
      [reflexivity|reflexivity|simpl; lia|simpl; lia|simpl; lia]. }
  split; [reflexivity|]. split; [by rewrite E200|].
  assert (Elate : forall n, (100 - d <= n)%nat ->
            Recorder.wait n (Recorder.wait 200 s)
            = Recorder.settled 0
                (Recorder.with_clock
                   {| EventLoop.now := T + Z.of_nat d + 200 + Z.of_nat n;
                      EventLoop.next_id := 4; EventLoop.pending := [] |}
                   (Recorder.wait 200 s))).
  { intros n Hn. replace n with (S (99 - d) + (n - (100 - d)))%nat by lia.
    rewrite rec_wait_add, E200.
    erewrite (rec_wait_until_due (99 - d)); [|reflexivity|simpl; lia].
    rewrite rec_wait_quiet; [|constructor].
    unfold Recorder.settled, Recorder.with_clock, EventLoop.later. simpl.
    do 2 f_equal. lia. }
  split.
  { replace (300 - d)%nat with (200 + (100 - d))%nat by lia.
    rewrite rec_wait_add, (Elate (100 - d)%nat) by lia.
    by rewrite E200. }
  cbn [Recorder.run]. rewrite rec_wait_add.
  destruct (le_lt_dec (100 - d) a) as [Hlate|Hearly].
  - (* the input has settled before the first reply *)
    rewrite (Elate a Hlate), E200.
    cbn [Recorder.handle].
    rewrite rec_wait_quiet; [|constructor].
    reflexivity.
  - (* the first reply arrives while the input is still settling *)
    rewrite E200.
    rewrite (rec_wait_quiet a).
    2:{ constructor; [simpl; lia|constructor]. }
    cbn [Recorder.handle].
    replace b with (S (99 - d - a) + (b - (100 - d - a)))%nat by lia.
    rewrite rec_wait_add.
    erewrite (rec_wait_until_due (99 - d - a)); [|reflexivity|simpl; lia].
    rewrite rec_wait_quiet; [|constructor].
    reflexivity.
Qed.

(** The key is pressed on another element, 50 ms after the input action was
    recorded; its screenshot takes 30 ms, the one of the input 120 ms. *)
Lemma keypress_overtakes_input_witness :
  let p : gmap nat Recorder.element :=
    {[ 1%nat := Samples.search_box; 2%nat := Samples.search_box ]} in
  let s := Recorder.run [(0%nat, Recorder.Input 1 "hello");
                         ((500 + 50)%nat, Recorder.Keydown 2 "Enter")]
             (Recorder.recording 1700000000000 "s" p) in
  let i := Recorder.input_object
             (Recorder.set_value "hello" Samples.search_box) "hello" in
  let k := Recorder.keypress_action Samples.search_box "Enter" in
  let s' := Recorder.run [((200 + 30)%nat, Recorder.ScreenshotReply 1 None);
                          (140%nat, Recorder.ScreenshotReply 0 None)] s in
  Recorder.frames s = [i; k]
  /\ Recorder.outbox (Recorder.wait 200 s) = [Recorder.CaptureScreenshot 1]
  /\ Recorder.outbox (Recorder.wait (300 - 50) s)
     = [Recorder.CaptureScreenshot 1; Recorder.CaptureScreenshot 0]
  /\ Recorder.sent s'
     = [Action.with_screenshot None k; Action.with_screenshot None i].
Proof.
  intros p.
  apply (keypress_overtakes_input 1700000000000 "s" p 1 2
           Samples.search_box Samples.search_box "" "hello" "Enter"
           0 50 30 140 None None).
  - lia.
  - reflexivity.
  - reflexivity.
  - reflexivity.
  - reflexivity.
  - right. left. reflexivity.
  - lia.
  - lia.
Defined.

(** ** The ceiling of the network-idle wait *)

Section CeilingFacts.
Import EventLoop NetworkIdle NetworkCeiling.
Variables t0 M : Z.

Lemma keeps_refl s : keeps t0 M s s.
Proof. unfold keeps. auto. Qed.

Lemma keeps_trans s1 s2 s3 :
  keeps t0 M s1 s2 -> keeps t0 M s2 s3 -> keeps t0 M s1 s3.
Proof.
  intros (N1 & G1 & R1) (N2 & G2 & R2).
  split; [congruence|]. split; auto.
Qed.

Lemma keeps_fold {A} (f : state -> A -> state) l s :
  (forall s x, keeps t0 M s (f s x)) -> keeps t0 M s (fold_left f l s).
Proof.
  intros Hf. revert s. induction l as [|x l IH]; intros s; simpl.
  - apply keeps_refl.
  - eapply keeps_trans; [apply Hf|apply IH].
Qed.

(** Updating the closure variables of an invocation without touching its
    idle-timer variable, resolving at most at the current time. *)
Lemma keeps_update_call c f s :
  (forall v, idleTimer (f v) = idleTimer v) ->
  (forall v, resolved (f v) = resolved v
             \/ (resolved v = None /\ resolved (f v) = Some (now (clk s)))) ->
  keeps t0 M s (update_call c f s).
Proof.
  intros Hi Hr. unfold update_call.
  destruct (calls s !! c) as [v|] eqn:Ec; [|apply keeps_refl].
  split; [reflexivity|]. split.
  - intros (Ha & Hb & Hc & v0 & E0 & Hd1 & Hd2).
    split; [exact Ha|]. split; [exact Hb|]. split.
    + intros c' v'. simpl. destruct (decide (c' = c)) as [->|Hne].
      * rewrite list_lookup_insert_eq by (by eapply lookup_lt_Some).
        intros [= <-]. rewrite Hi. by eapply Hc.
      * rewrite list_lookup_insert_ne by done. apply Hc.
    + simpl. destruct (decide (0%nat = c)) as [<-|Hne].
      * rewrite list_lookup_insert_eq by (by eapply lookup_lt_Some).
        assert (v0 = v) as -> by congruence.
        exists (f v). split; [reflexivity|].
        destruct (Hr v) as [E|[E1 E2]].
        -- rewrite E. by split.
        -- rewrite E2. split; [|discriminate].
           intros t [= <-]. by apply Hd2.
      * rewrite list_lookup_insert_ne by done. by exists v0.
  - unfold resolved_at. simpl. destruct (decide (0%nat = c)) as [<-|Hne].
    + rewrite Ec. rewrite list_lookup_insert_eq by (by eapply lookup_lt_Some).
      destruct (Hr v) as [E|[E1 E2]]; [by rewrite E|by rewrite E2].
    + by rewrite list_lookup_insert_ne.
Qed.

Lemma keeps_request_begun s c : keeps t0 M s (request_begun s c).
Proof. apply keeps_update_call; [reflexivity|by left]. Qed.

Lemma keeps_resolve c s :
  keeps t0 M s (update_call c (resolve_at (now (clk s))) s).
Proof.
  apply keeps_update_call; [reflexivity|].
  intros v. unfold resolve_at. simpl.
  destruct (resolved v); [by left|by right].
Qed.

(** Clearing a timer other than the ceiling timer and setting a new one. *)
Lemma guarded_retime cb delay i s :
  i <> Some 1%nat -> guarded t0 M s ->
  guarded t0 M
    (with_clock (snd (setTimeout cb delay (clearTimeout i (clk s)))) s).
Proof.
  intros Hi (Ha & Hb & Hc & v0 & E0 & Hd1 & Hd2).
  assert (Hsub : forall tm, In tm (pending (clearTimeout i (clk s))) ->
                            In tm (pending (clk s))).
  { destruct i as [i|]; simpl; [|done].
    intros tm H. by apply List.filter_In in H as [H _]. }
  assert (Hn : next_id (clearTimeout i (clk s)) = next_id (clk s))
    by (by destruct i).
  assert (Ht : now (clearTimeout i (clk s)) = now (clk s))
    by (by destruct i).
  split; [simpl; lia|]. split; [|split; [exact Hc|]].
  - simpl. intros tm H Hid. apply in_app_or in H as [H|[<-|[]]].
    + apply Hb; [by apply Hsub|exact Hid].
    + simpl in Hid. lia.
  - exists v0. split; [exact E0|]. split; [exact Hd1|].
    intros Hr. destruct (Hd2 Hr) as [Hle Hin]. simpl. rewrite Ht.
    split; [exact Hle|]. apply in_or_app. left.
    destruct i as [i|]; simpl; [|exact Hin].
    apply List.filter_In. split; [exact Hin|].
    change (t_id (ceiling t0 M)) with 1%nat.
    destruct (Nat.eqb_spec 1 i) as [<-|]; [by destruct Hi|reflexivity].
Qed.

Lemma keeps_checkIdle c s : keeps t0 M s (checkIdle c s).
Proof.
  unfold checkIdle.
  destruct (calls s !! c) as [v|] eqn:Ec; [|apply keeps_refl].
  destruct (pendingRequests v =? 0)%Z; [|apply keeps_refl].
  change (let '(i, k) :=
            setTimeout (cb_idle c) 300 (clearTimeout (idleTimer v) (clk s)) in
          update_call c (set_idleTimer (Some i)) (with_clock k s))
    with (update_call c
            (set_idleTimer (Some (next_id (clearTimeout (idleTimer v) (clk s)))))
            (with_clock
               (snd (setTimeout (cb_idle c) 300
                       (clearTimeout (idleTimer v) (clk s)))) s)).
  assert (Hn : next_id (clearTimeout (idleTimer v) (clk s)) = next_id (clk s))
    by (by destruct (idleTimer v)).
  assert (Ht : now (clearTimeout (idleTimer v) (clk s)) = now (clk s))
    by (by destruct (idleTimer v)).
  rewrite Hn. unfold update_call. cbn [calls with_clock]. rewrite Ec.
  split; [simpl; exact Ht|]. split.
  - intros HG.
    assert (Hi : idleTimer v <> Some 1%nat)
      by (destruct HG as (_ & _ & Hc & _); by eapply Hc).
    pose proof (guarded_retime (cb_idle c) 300 (idleTimer v) s Hi HG)
      as (Ha & Hb & Hc & v0 & E0 & Hd1 & Hd2).
    destruct HG as (Ha0 & _).
    split; [exact Ha|]. split; [exact Hb|]. split.
    + intros c' v'. simpl. destruct (decide (c' = c)) as [->|Hne].
      * rewrite list_lookup_insert_eq by (by eapply lookup_lt_Some).
        intros [= <-]. simpl. intros [= E]. lia.
      * rewrite list_lookup_insert_ne by done. apply Hc.
    + simpl in E0 |- *. destruct (decide (0%nat = c)) as [<-|Hne].
      * rewrite list_lookup_insert_eq by (by eapply lookup_lt_Some).
        assert (v0 = v) as -> by congruence.
        eexists. split; [reflexivity|]. simpl. by split.
      * rewrite list_lookup_insert_ne by done. by exists v0.
  - unfold resolved_at. simpl. destruct (decide (0%nat = c)) as [<-|Hne].
    + rewrite Ec. rewrite list_lookup_insert_eq by (by eapply lookup_lt_Some).
      done.
    + by rewrite list_lookup_insert_ne.
Qed.

Lemma keeps_request_done s c : keeps t0 M s (request_done s c).
Proof.
  unfold request_done. eapply keeps_trans; [|apply keeps_checkIdle].
  apply keeps_update_call; [reflexivity|by left].
Qed.

(** Steps that leave the clock and the invocations alone. *)
Lemma keeps_frame s s' :
  clk s' = clk s -> calls s' = calls s -> keeps t0 M s s'.
Proof.
  intros Ek Ec. unfold keeps, guarded, resolved_at. rewrite Ek, Ec. auto.
Qed.

(** A further invocation: its record is appended, its two timers get
    fresh ids. *)
Lemma keeps_waitForNetworkIdle maxWaitTime s :
  keeps t0 M s (waitForNetworkIdle maxWaitTime s).
Proof.
  unfold waitForNetworkIdle.
  set (c := length (calls s)).
  set (v := {| pendingRequests := 0; idleTimer := None;
               startTime := now (clk s); originalFetch := fetch (win s);
               XHROpen := xhr_open (win s); XHRSend := xhr_send (win s);
               resolved := None |}).
  set (s1 := {| clk := clk s;
                win := {| fetch := wrapper c; xhr_open := wrapper c;
                          xhr_send := wrapper c |};
                calls := calls s ++ [v]; fetches := fetches s;
                xhrs := xhrs s |}).
  change (let '(_, k) := setTimeout (cb_ceiling c) maxWaitTime (clk s1) in
          checkIdle c (with_clock k s1))
    with (checkIdle c
            (with_clock (snd (setTimeout (cb_ceiling c) maxWaitTime
                                (clearTimeout None (clk s1)))) s1)).
  eapply keeps_trans; [|apply keeps_checkIdle].
  eapply keeps_trans with (s2 := s1).
  - split; [reflexivity|]. split.
    + intros (Ha & Hb & Hc & v0 & E0 & Hd).
      split; [exact Ha|]. split; [exact Hb|]. split.
      * intros c' v'. simpl. intros H.
        apply lookup_app_Some in H as [H|[_ H]]; [by eapply Hc|].
        destruct (c' - length (calls s))%nat; [|done].
        injection H as <-. done.
      * exists v0. split; [|exact Hd]. simpl.
        by rewrite (lookup_app_l_Some _ _ _ _ E0).
    + unfold resolved_at. simpl. intros [t H].
      destruct (calls s !! 0%nat) as [v0|] eqn:E0; [|done].
      rewrite (lookup_app_l_Some _ _ _ _ E0). by exists t.
  - split; [reflexivity|]. split; [|done].
    apply guarded_retime. discriminate.
Qed.

Lemma keeps_with_xhr x v s : keeps t0 M s (with_xhr x v s).
Proof. by apply keeps_frame. Qed.

(** No page event takes time, unresolves the first invocation or touches
    its ceiling timer. *)
Lemma keeps_handle e s : keeps t0 M s (handle e s).
Proof.
  destruct e as [maxWaitTime|r|r|x|x|x]; cbn [handle].
  - apply keeps_waitForNetworkIdle.
  - eapply keeps_trans;
      [apply (keeps_fold request_begun), keeps_request_begun|].
    by apply keeps_frame.
  - destruct (fetches s !! r) as [ws|]; [|apply keeps_refl].
    eapply keeps_trans;
      [|apply (keeps_fold request_done), keeps_request_done].
    by apply keeps_frame.
  - destruct (wrappers_of XHROpen (xhr_open (win s)) s);
      apply keeps_with_xhr.
  - destruct (monitored (the_xhr x s)); [|apply keeps_refl].
    eapply keeps_trans;
      [apply (keeps_fold request_begun), keeps_request_begun|].
    apply keeps_with_xhr.
  - apply (keeps_fold request_done), keeps_request_done.
Qed.

Lemma keeps_fire cb s : keeps t0 M s (fire cb s).
Proof.
  destruct cb as [c|c]; cbn [fire].
  - apply keeps_resolve.
  - destruct (calls s !! c) as [v|]; [|apply keeps_refl].
    eapply keeps_trans; [|apply (keeps_resolve c (with_win _ s))].
    by apply keeps_frame.
Qed.

Lemma guarded_unresolved s :
  guarded t0 M s -> resolved_at 0 s = None ->
  (now (clk s) <= t0 + M)%Z /\ In (ceiling t0 M) (pending (clk s)).
Proof.
  intros (_ & _ & _ & v0 & E0 & _ & Hd2). unfold resolved_at. rewrite E0.
  exact Hd2.
Qed.

Lemma guarded_clear i s :
  i <> 1%nat -> guarded t0 M s ->
  guarded t0 M (with_clock (clearTimeout (Some i) (clk s)) s).
Proof.
  intros Hi (Ha & Hb & Hc & v0 & E0 & Hd1 & Hd2).
  split; [exact Ha|]. split; [|split; [exact Hc|]].
  - simpl. intros tm H. apply List.filter_In in H as [H _]. by apply Hb.
  - exists v0. split; [exact E0|]. split; [exact Hd1|].
    intros Hr. destruct (Hd2 Hr) as [Hle Hin]. split; [exact Hle|].
    simpl. apply List.filter_In. split; [exact Hin|].
    change (t_id (ceiling t0 M)) with 1%nat.
    destruct (Nat.eqb_spec 1 i) as [<-|]; [by destruct Hi|reflexivity].
Qed.

(** The ceiling callback of the first invocation resolves it, at the
    latest, and in time. *)
Lemma ceiling_fires s :
  guarded t0 M s ->
  let s' := fire (cb_ceiling 0)
              (with_clock (clearTimeout (Some 1%nat) (clk s)) s) in
  guarded t0 M s' /\ now (clk s') = now (clk s)
  /\ is_Some (resolved_at 0 s').
Proof.
  intros (Ha & Hb & Hc & v0 & E0 & Hd1 & Hd2). cbn [fire calls with_clock].
  rewrite E0. unfold update_call. cbn [calls with_win with_clock]. rewrite E0.
  assert (L0 : (<[0%nat := resolve_at (now (clk s)) v0]> (calls s)) !! 0%nat
               = Some (resolve_at (now (clk s)) v0))
    by (apply list_lookup_insert_eq; by eapply lookup_lt_Some).
  split; [|split; [reflexivity|]].
  - split; [exact Ha|]. split; [|split].
    + simpl. intros tm H. apply List.filter_In in H as [H _]. by apply Hb.
    + intros c' v'. simpl. destruct (decide (c' = 0%nat)) as [->|Hne].
      * rewrite L0. intros [= <-]. simpl. by eapply Hc.
      * rewrite list_lookup_insert_ne by done. apply Hc.
    + exists (resolve_at (now (clk s)) v0). split; [exact L0|].
      unfold resolve_at. simpl. destruct (resolved v0) as [t'|] eqn:Er.
      * split; [|discriminate]. intros t [= <-]. by apply Hd1.
      * split; [|discriminate]. intros t [= <-]. by apply Hd2.
  - unfold resolved_at. simpl. simpl in L0. rewrite L0. unfold resolve_at. simpl.
    by destruct (resolved v0).
Qed.

Lemma fire_one_guarded s tm :
  guarded t0 M s -> (t_id tm = 1%nat -> tm = ceiling t0 M) ->
  let s' := fire_one clk with_clock fire s tm in
  guarded t0 M s' /\ now (clk s') = now (clk s)
  /\ (is_Some (resolved_at 0 s) -> is_Some (resolved_at 0 s'))
  /\ (tm = ceiling t0 M -> is_Some (resolved_at 0 s')).
Proof.
  intros HG Hid. unfold fire_one.
  destruct (is_pending (t_id tm) (clk s)) eqn:Ep.
  - destruct (decide (t_id tm = 1%nat)) as [E1|Hne].
    + rewrite (Hid E1). change (t_id (ceiling t0 M)) with 1%nat.
      change (t_cb (ceiling t0 M)) with (cb_ceiling 0).
      destruct (ceiling_fires s HG) as (G' & N' & R').
      repeat (split; [done|]). done.
    + pose proof (guarded_clear (t_id tm) s Hne HG) as G1.
      destruct (keeps_fire (t_cb tm)
                  (with_clock (clearTimeout (Some (t_id tm)) (clk s)) s))
        as (N' & G' & R').
      split; [by apply G'|]. split; [exact N'|]. split; [exact R'|].
      intros Etm. subst tm. by destruct Hne.
  - split; [exact HG|]. split; [reflexivity|]. split; [done|].
    intros Etm. subst tm.
    destruct (resolved_at 0 s) as [t|] eqn:Er; [by exists t|].
    destruct (guarded_unresolved s HG Er) as [_ Hin].
    assert (is_pending 1 (clk s) = true) as E.
    { apply existsb_exists. exists (ceiling t0 M). by split. }
    change (t_id (ceiling t0 M)) with 1%nat in Ep. congruence.
Qed.

Lemma fold_fire_one_guarded l s :
  guarded t0 M s ->
  (forall tm, In tm l -> t_id tm = 1%nat -> tm = ceiling t0 M) ->
  let s' := fold_left (fire_one clk with_clock fire) l s in
  guarded t0 M s' /\ now (clk s') = now (clk s)
  /\ (is_Some (resolved_at 0 s) -> is_Some (resolved_at 0 s'))
  /\ (In (ceiling t0 M) l -> is_Some (resolved_at 0 s')).
Proof.
  revert s. induction l as [|tm l IH]; intros s HG Hl; cbn [fold_left].
  - repeat (split; [done|]). intros [].
  - destruct (fire_one_guarded s tm HG (Hl tm (or_introl eq_refl)))
      as (G1 & N1 & R1 & C1).
    destruct (IH _ G1 (fun tm' H => Hl tm' (or_intror H)))
      as (G2 & N2 & R2 & C2).
    split; [exact G2|]. split; [congruence|]. split; [auto|].
    intros [E|H]; [apply R2, C1, E|by apply C2].
Qed.

(** One millisecond: if the ceiling falls due, its callback runs. *)
Lemma tick_on_time s :
  on_time t0 M s ->
  on_time t0 M (tick clk with_clock fire s)
  /\ now (clk (tick clk with_clock fire s)) = (now (clk s) + 1)%Z.
Proof.
  intros [HG Ht]. unfold tick.
  set (s1 := with_clock (advance_clock (clk s)) s).
  set (l := List.filter (due_by (now (advance_clock (clk s))))
                        (pending (advance_clock (clk s)))).
  assert (G1 : guarded t0 M s1).
  { destruct HG as (Ha & Hb & Hc & v0 & E0 & Hd1 & Hd2).
    split; [exact Ha|]. split; [exact Hb|]. split; [exact Hc|].
    exists v0. split; [exact E0|]. split; [exact Hd1|].
    intros Hr. destruct (Hd2 Hr) as [Hle Hin]. split; [|exact Hin].
    destruct Ht as [[t Hs]|Hlt]; [|simpl; lia].
    unfold resolved_at in Hs. rewrite E0 in Hs. congruence. }
  assert (Hl : forall tm, In tm l -> t_id tm = 1%nat -> tm = ceiling t0 M).
  { intros tm H. apply List.filter_In in H as [H _].
    destruct HG as (_ & Hb & _). by apply Hb. }
  destruct (fold_fire_one_guarded l s1 G1 Hl) as (G2 & N2 & R2 & C2).
  split; [|rewrite N2; reflexivity].
  split; [exact G2|].
  destruct (resolved_at 0 s) as [t|] eqn:Er.
  { left. apply R2. by exists t. }
  destruct Ht as [[t Hs]|Hlt]; [done|].
  destruct (Z.eq_dec (now (clk s) + 1)%Z (t0 + M)%Z) as [E|Hne].
  - left. apply C2. apply List.filter_In.
    destruct (guarded_unresolved s HG Er) as [_ Hin]. split; [exact Hin|].
    unfold due_by. simpl. apply Z.leb_le. lia.
  - right. rewrite N2. simpl. lia.
Qed.

Lemma wait_on_time d s :
  on_time t0 M s ->
  on_time t0 M (wait d s)
  /\ now (clk (wait d s)) = (now (clk s) + Z.of_nat d)%Z.
Proof.
  revert s. induction d as [|d IH]; intros s H.
  - split; [exact H|]. simpl. lia.
  - destruct (tick_on_time s H) as [H1 N1].
    destruct (IH _ H1) as [H2 N2].
    split; [exact H2|]. unfold wait in *. cbn [elapse]. rewrite N2, N1. lia.
Qed.

Lemma handle_on_time e s :
  on_time t0 M s ->
  on_time t0 M (handle e s) /\ now (clk (handle e s)) = now (clk s).
Proof.
  intros [HG Ht]. destruct (keeps_handle e s) as (N & G & R).
  split; [|exact N]. split; [by apply G|].
  destruct Ht as [Hs|Hlt]; [left; by apply R|right; by rewrite N].
Qed.

Lemma run_on_time schedule s :
  on_time t0 M s ->
  on_time t0 M (run schedule s)
  /\ now (clk (run schedule s))
     = (now (clk s) + Z.of_nat (list_sum (map fst schedule)))%Z.
Proof.
  revert s. induction schedule as [|[d e] rest IH]; intros s H.
  - split; [exact H|]. simpl. lia.
  - cbn [run]. destruct (wait_on_time d s H) as [H1 N1].
    destruct (handle_on_time e _ H1) as [H2 N2].
    destruct (IH _ H2) as [H3 N3].
    split; [exact H3|]. rewrite N3, N2, N1.
    change (list_sum (map fst ((d, e) :: rest)))
      with (d + list_sum (map fst rest))%nat. lia.
Qed.

Lemma first_call_on_time :
  (0 < M)%Z -> on_time t0 M (waitForNetworkIdle M (pristine t0)).
Proof.
  intros HM. split; [|right; simpl; lia].
  split; [simpl; lia|]. split; [|split].
  - simpl. intros tm [<-|[<-|[]]]; [reflexivity|]. simpl. lia.
  - intros [|c] v; simpl; [|done]. by intros [= <-].
  - eexists. split; [reflexivity|]. simpl. split; [discriminate|].
    intros _. split; [lia|]. by left.
Qed.

End CeilingFacts.

(** X15.  The ceiling of [waitForNetworkIdle] holds whatever the page does:
    for every schedule of fetches, XMLHttpRequests and further overlapping
    invocations, the promise of the first invocation is never resolved later
    than [maxWaitTime] ms after the call, and it is resolved once that much
    time has passed. *)
Theorem waitForNetworkIdle_resolves_by_ceiling (t0 maxWaitTime : Z)
    (schedule : list (nat * NetworkIdle.event)) :
  (0 < maxWaitTime)%Z ->
  let s := NetworkIdle.run schedule
             (NetworkIdle.waitForNetworkIdle maxWaitTime
                (NetworkIdle.pristine t0)) in
  EventLoop.now (NetworkIdle.clk s)
  = (t0 + Z.of_nat (list_sum (map fst schedule)))%Z
  /\ (forall t, NetworkIdle.resolved_at 0 s = Some t ->
                (t <= t0 + maxWaitTime)%Z)
  /\ ((maxWaitTime <= Z.of_nat (list_sum (map fst schedule)))%Z ->
      is_Some (NetworkIdle.resolved_at 0 s)).
Proof.
  intros HM s.
  destruct (run_on_time t0 maxWaitTime schedule _
              (first_call_on_time t0 maxWaitTime HM)) as [[HG Ht] Hn].
  fold s in HG, Ht, Hn.
  assert (E0 : EventLoop.now
                 (NetworkIdle.clk
                    (NetworkIdle.waitForNetworkIdle maxWaitTime
                       (NetworkIdle.pristine t0))) = t0) by reflexivity.
  rewrite E0 in Hn. split; [exact Hn|]. split.
  - destruct HG as (_ & _ & _ & v0 & Ev & Hd1 & _).
    unfold NetworkIdle.resolved_at. rewrite Ev. exact Hd1.
  - intros Hlate. destruct Ht as [Hs|Hlt]; [exact Hs|]. lia.
Qed.

Lemma waitForNetworkIdle_resolves_by_ceiling_witness :
  let s := NetworkIdle.run [(100%nat, NetworkIdle.FetchStart 1);
                            (150%nat, NetworkIdle.FetchSettle 1);
                            (200%nat, NetworkIdle.Call 1500);
                            (250%nat, NetworkIdle.FetchStart 2);
                            (300%nat, NetworkIdle.XhrOpen 3)]
             (NetworkIdle.waitForNetworkIdle 1000
                (NetworkIdle.pristine 5000)) in
  EventLoop.now (NetworkIdle.clk s) = 6000%Z
  /\ (forall t, NetworkIdle.resolved_at 0 s = Some t -> (t <= 6000)%Z)
  /\ ((1000 <= 1000)%Z -> is_Some (NetworkIdle.resolved_at 0 s)).
Proof.
  apply (waitForNetworkIdle_resolves_by_ceiling 5000 1000
           [(100%nat, NetworkIdle.FetchStart 1);
            (150%nat, NetworkIdle.FetchSettle 1);
            (200%nat, NetworkIdle.Call 1500);
            (250%nat, NetworkIdle.FetchStart 2);
            (300%nat, NetworkIdle.XhrOpen 3)]).
  lia.
Defined.

Section IdleTimerFacts.
Import EventLoop NetworkIdle.
#[local] Arguments wait : simpl never.

Lemma ni_wait_until_due d s tm :
  pending (clk s) = [tm] ->
  t_due tm = (now (clk s) + Z.of_nat (S d))%Z ->
  wait (S d) s
  = fire (t_cb tm)
      (with_clock {| now := t_due tm; next_id := next_id (clk s);
                     pending := [] |} s).
Proof.
  apply (elapse_until_due callback state clk with_clock fire);
    [reflexivity | reflexivity | apply ni_put_get].
Qed.

Lemma ni_wait_until_later_timer d s a b :
  pending (clk s) = [a; b] ->
  t_id a <> t_id b ->
  t_due b = (now (clk s) + Z.of_nat (S d))%Z ->
  (t_due b < t_due a)%Z ->
  wait (S d) s
  = fire (t_cb b)
      (with_clock {| now := t_due b; next_id := next_id (clk s);
                     pending := [a] |} s).
Proof.
  apply (elapse_until_later_timer callback state clk with_clock fire);
    [reflexivity | reflexivity | apply ni_put_get].
Qed.

End IdleTimerFacts.

(** X16.  Beginning a request does not cancel the idle timer armed by the
    initial [checkIdle()]: a fetch started [d] < 300 ms after the call and
    never settled does not postpone the resolution, which still comes 300 ms
    after the call, with the request in flight. *)
Theorem waitForNetworkIdle_ignores_request_in_flight (t0 maxWaitTime : Z)
    (d r : nat) :
  (300 < maxWaitTime)%Z -> (d < 300)%nat ->
  let s := NetworkIdle.wait (300 - d)
             (NetworkIdle.run [(d, NetworkIdle.FetchStart r)]
                (NetworkIdle.waitForNetworkIdle maxWaitTime
                   (NetworkIdle.pristine t0))) in
  NetworkIdle.resolved_at 0 s = Some (t0 + 300)%Z
  /\ NetworkIdle.pendingRequests <$> NetworkIdle.calls s !! 0%nat = Some 1%Z
  /\ NetworkIdle.fetches s !! r = Some [0%nat].
Proof.
  intros HM Hd s. subst s. cbn [NetworkIdle.run].
  rewrite (ni_wait_quiet d).
  2:{ unfold EventLoop.quiet_for. simpl.
      constructor; [simpl; lia|constructor; [simpl; lia|constructor]]. }
  replace (300 - d)%nat with (S (299 - d)) by lia.
  rewrite (ni_wait_until_later_timer (299 - d) _
             {| EventLoop.t_id := 1; EventLoop.t_due := t0 + maxWaitTime;
                EventLoop.t_cb := NetworkIdle.cb_ceiling 0 |}
             {| EventLoop.t_id := 2; EventLoop.t_due := t0 + 300;
                EventLoop.t_cb := NetworkIdle.cb_idle 0 |}).
  - unfold NetworkIdle.resolved_at. simpl.
    rewrite lookup_insert_eq. repeat split.
  - reflexivity.
  - simpl. lia.
  - simpl. lia.
  - simpl. lia.
Qed.

Lemma waitForNetworkIdle_ignores_request_in_flight_witness :
  let s := NetworkIdle.wait (300 - 120)
             (NetworkIdle.run [(120%nat, NetworkIdle.FetchStart 7)]
                (NetworkIdle.waitForNetworkIdle 1000
                   (NetworkIdle.pristine 5000))) in
  NetworkIdle.resolved_at 0 s = Some (5000 + 300)%Z
  /\ NetworkIdle.pendingRequests <$> NetworkIdle.calls s !! 0%nat = Some 1%Z
  /\ NetworkIdle.fetches s !! 7%nat = Some [0%nat].
Proof.
  apply (waitForNetworkIdle_ignores_request_in_flight 5000 1000 120 7); lia.
Defined.

Section SettleFacts.
Import EventLoop NetworkIdle.
#[local] Arguments wait : simpl never.

(** The page after a fetch was started [d] ms into the first wait. *)
Lemma fetch_started_state t0 maxWaitTime d r :
  (d < 300)%nat -> (300 < maxWaitTime)%Z ->
  handle (FetchStart r)
    (wait d (waitForNetworkIdle maxWaitTime (pristine t0)))
  = {| clk := {| now := t0 + Z.of_nat d; next_id := 3;
                 pending := [{| t_id := 1; t_due := t0 + maxWaitTime;
                                t_cb := cb_ceiling 0 |};
                             {| t_id := 2; t_due := t0 + 300;
                                t_cb := cb_idle 0 |}] |};
       win := {| fetch := wrapper 0; xhr_open := wrapper 0;
                 xhr_send := wrapper 0 |};
       calls := [{| pendingRequests := 1; idleTimer := Some 2%nat;
                    startTime := t0; originalFetch := native;
                    XHROpen := native; XHRSend := native;
                    resolved := None |}];
       fetches := <[r := [0%nat]]> ∅; xhrs := ∅ |}.
Proof.
  intros Hd HM. rewrite ni_wait_quiet.
  2:{ unfold quiet_for. simpl.
      constructor; [simpl; lia|constructor; [simpl; lia|constructor]]. }
  reflexivity.
Qed.

(** The page after that fetch settled, [d2] ms later. *)
Lemma fetch_settled_state t0 maxWaitTime d1 d2 r :
  (d1 + d2 < 300)%nat -> (300 < maxWaitTime)%Z ->
  run [(d1, FetchStart r); (d2, FetchSettle r)]
    (waitForNetworkIdle maxWaitTime (pristine t0))
  = {| clk := {| now := t0 + Z.of_nat d1 + Z.of_nat d2; next_id := 4;
                 pending := [{| t_id := 1; t_due := t0 + maxWaitTime;
                                t_cb := cb_ceiling 0 |};
                             {| t_id := 3;
                                t_due := t0 + Z.of_nat d1 + Z.of_nat d2 + 300;
                                t_cb := cb_idle 0 |}] |};
       win := {| fetch := wrapper 0; xhr_open := wrapper 0;
                 xhr_send := wrapper 0 |};
       calls := [{| pendingRequests := 0; idleTimer := Some 3%nat;
                    startTime := t0; originalFetch := native;
                    XHROpen := native; XHRSend := native;
                    resolved := None |}];
       fetches := delete r (<[r := [0%nat]]> ∅); xhrs := ∅ |}.
Proof.
  intros Hd HM. cbn [run].
  rewrite (fetch_started_state t0 maxWaitTime d1 r) by lia.
  rewrite ni_wait_quiet.
  2:{ unfold quiet_for. simpl.
      constructor; [simpl; lia|constructor; [simpl; lia|constructor]]. }
  cbn [handle fetches with_clock]. rewrite lookup_insert_eq.
  reflexivity.
Qed.

End SettleFacts.

(** X17.  A request that settles re-arms the idle timer: when a fetch
    started [d1] ms after the call settles [d2] ms later, still within the
    first 300 ms, the promise is resolved exactly 300 ms after the fetch
    settled (the ceiling being further away), not 300 ms after the call. *)
Theorem waitForNetworkIdle_settle_rearms_idle_timer (t0 maxWaitTime : Z)
    (d1 d2 r : nat) :
  (d1 + d2 < 300)%nat ->
  (Z.of_nat (d1 + d2) + 300 < maxWaitTime)%Z ->
  let s := NetworkIdle.run [(d1, NetworkIdle.FetchStart r);
                            (d2, NetworkIdle.FetchSettle r)]
             (NetworkIdle.waitForNetworkIdle maxWaitTime
                (NetworkIdle.pristine t0)) in
  NetworkIdle.resolved_at 0 (NetworkIdle.wait 299 s) = None
  /\ NetworkIdle.resolved_at 0 (NetworkIdle.wait 300 s)
     = Some (t0 + Z.of_nat (d1 + d2) + 300)%Z.
Proof.
  intros Hd HM s. subst s.
  rewrite (fetch_settled_state t0 maxWaitTime d1 d2 r) by lia.
  split.
  - rewrite (ni_wait_quiet 299).
    + reflexivity.
    + unfold EventLoop.quiet_for. simpl.
      constructor; [simpl; lia|constructor; [simpl; lia|constructor]].
  - rewrite (ni_wait_until_later_timer 299 _
               {| EventLoop.t_id := 1; EventLoop.t_due := t0 + maxWaitTime;
                  EventLoop.t_cb := NetworkIdle.cb_ceiling 0 |}
               {| EventLoop.t_id := 3;
                  EventLoop.t_due := t0 + Z.of_nat d1 + Z.of_nat d2 + 300;
                  EventLoop.t_cb := NetworkIdle.cb_idle 0 |}).
    + unfold NetworkIdle.resolved_at. simpl. f_equal. lia.
    + reflexivity.
    + simpl. lia.
    + simpl. lia.
    + simpl. lia.
Qed.

Lemma waitForNetworkIdle_settle_rearms_idle_timer_witness :
  let s := NetworkIdle.run [(100%nat, NetworkIdle.FetchStart 7);
                            (150%nat, NetworkIdle.FetchSettle 7)]
             (NetworkIdle.waitForNetworkIdle 1000
                (NetworkIdle.pristine 5000)) in
  NetworkIdle.resolved_at 0 (NetworkIdle.wait 299 s) = None
  /\ NetworkIdle.resolved_at 0 (NetworkIdle.wait 300 s)
     = Some (5000 + Z.of_nat (100 + 150) + 300)%Z.
Proof.
  apply (waitForNetworkIdle_settle_rearms_idle_timer 5000 1000 100 150 7);
    simpl; lia.
Defined.

Section SilenceFacts.
Import EventLoop DomStability.
#[local] Arguments wait : simpl never.

(** Left alone, a watching invocation resolves when its silence timer falls
    due, and not a millisecond earlier; [done] disconnects the observer. *)
Lemma watching_resolves s :
  watching s ->
  resolved (wait 199 s) = None
  /\ resolved (wait 200 s) = Some (now (clk s) + 200)%Z
  /\ observer (wait 200 s) = Some false
  /\ pending (clk (wait 200 s)) = []
  /\ handle Mutation (wait 200 s) = wait 200 s.
Proof.
  intros (Hres & Hobs & i & Hto & Hp). split.
  - rewrite wait_quiet; [exact Hres|].
    unfold quiet_for. rewrite Hp. constructor; [simpl; lia|constructor].
  - unfold wait.
    rewrite (elapse_until_due callback state clk with_clock fire
               ds_get_put ds_put_put ds_put_get 199 s _ Hp)
      by (simpl; lia).
    cbn [t_cb fire t_due]. unfold done, disarm, on_mutation, handle.
    cbn [resolved observer clk timeout with_clock frame_requested].
    rewrite Hres, Hobs, Hto. simpl. repeat split.
Qed.

End SilenceFacts.

(** X18.  [waitForDOMStability] resolves on silence: once the animation
    frame has run ([f] < 1000 ms after the call), however many mutations
    follow less than 200 ms apart, the promise is resolved exactly 200 ms
    after the last of them and not before; the observer is then
    disconnected, no timer is left, and later mutations change nothing. *)
Theorem waitForDOMStability_resolves_after_silence (t0 : Z) (f : nat)
    (gaps : list nat) :
  (f < 1000)%nat ->
  Forall (fun d => (d < 200)%nat) gaps ->
  let s := DomStability.run
             ((f, DomStability.Frame)
              :: map (fun d => (d, DomStability.Mutation)) gaps)
             (DomStability.waitForDOMStability t0) in
  let s' := DomStability.wait 200 s in
  DomStability.resolved (DomStability.wait 199 s) = None
  /\ DomStability.resolved s'
     = Some (t0 + Z.of_nat f + Z.of_nat (list_sum gaps) + 200)%Z
  /\ DomStability.observer s' = Some false
  /\ EventLoop.pending (DomStability.clk s') = []
  /\ DomStability.handle DomStability.Mutation s' = s'.
Proof.
  intros Hf Hg s s'. subst s' s. cbn [DomStability.run].
  destruct (frame_starts_watching f t0 Hf) as [Hw Hn].
  destruct (mutations_keep_watching gaps _ Hg Hw) as [Hw' Hn'].
  destruct (watching_resolves _ Hw') as (H1 & H2 & H3 & H4 & H5).
  rewrite Hn', Hn in H2. auto.
Qed.

Lemma waitForDOMStability_resolves_after_silence_witness :
  let s := DomStability.run
             ((16%nat, DomStability.Frame)
              :: map (fun d => (d, DomStability.Mutation))
                   [150%nat; 150%nat; 199%nat])
             (DomStability.waitForDOMStability 5000) in
  let s' := DomStability.wait 200 s in
  DomStability.resolved (DomStability.wait 199 s) = None
  /\ DomStability.resolved s'
     = Some (5000 + Z.of_nat 16
             + Z.of_nat (list_sum [150%nat; 150%nat; 199%nat]) + 200)%Z
  /\ DomStability.observer s' = Some false
  /\ EventLoop.pending (DomStability.clk s') = []
  /\ DomStability.handle DomStability.Mutation s' = s'.
Proof.
  apply (waitForDOMStability_resolves_after_silence 5000 16
           [150%nat; 150%nat; 199%nat]).
  - lia.
  - repeat constructor.
Defined.

(** ** The e-mail redaction *)

Section RedactionFacts.
Import JsString Masking Redaction.

Lemma maskSensitiveData_plain value element :
  sensitive element = false ->
  maskSensitiveData value element = replace_emails 0 value.
Proof.
  unfold sensitive, maskSensitiveData. intros H.
  apply orb_false_iff in H as [H1 H2].
  destruct (decide (f_type element = Some "password")) as [E|_].
  - by rewrite bool_decide_eq_true_2 in H1.
  - by rewrite H2.
Qed.

(** The pattern needs an [@]. *)
Lemma match_email_at s r : match_email s = Some r -> includes s "@" = true.
Proof.
  revert r. induction s as [|c t IH]; intros r; [discriminate|].
  cbn [match_email includes]. destruct (isLocalChar c); [|discriminate].
  destruct (match_email t) as [[[l d] rest]|].
  - intros _. rewrite (IH _ eq_refl). apply orb_true_r.
  - destruct t as [|a u]; [discriminate|].
    destruct (Ascii.eqb_spec a "@"%char) as [->|Hne].
    + intros _. cbn [includes].
      assert (E : String.prefix "@" (String "@"%char u) = true)
        by (destruct u; reflexivity).
      rewrite E. apply orb_true_r.
    + intros H. exfalso. revert H.
      destruct a as [[] [] [] [] [] [] [] []]; try discriminate.
      by destruct Hne.
Qed.

Lemma replace_emails_without_at s :
  includes s "@" = false -> replace_emails 0 s = s.
Proof.
  induction s as [|c t IH]; [reflexivity|].
  intros H.
  assert (Ht : includes t "@" = false).
  { cbn [includes] in H. by apply orb_false_iff in H as [_ H]. }
  cbn [replace_emails].
  destruct (match_email (String c t)) as [r|] eqn:E.
  - apply match_email_at in E. congruence.
  - by rewrite (IH Ht).
Qed.

(** Characters belonging to a match that was replaced are skipped. *)
Lemma replace_emails_skip_all s k :
  (String.length s <= k)%nat -> replace_emails k s = EmptyString.
Proof.
  revert k. induction s as [|c t IH]; intros k H; [reflexivity|].
  simpl in H. destruct k as [|k]; [lia|]. cbn [replace_emails].
  apply IH. lia.
Qed.

Lemma all_chars_app p a b :
  all_chars p (a +:+ b) = all_chars p a && all_chars p b.
Proof.
  induction a as [|c t IH]; simpl; [reflexivity|].
  by rewrite IH, andb_assoc.
Qed.

Lemma span_all p s : all_chars p s = true -> span p s = (s, EmptyString).
Proof.
  induction s as [|c t IH]; simpl; [reflexivity|].
  intros H. apply andb_true_iff in H as [Hc Ht]. by rewrite Hc, (IH Ht).
Qed.

(** A run of letters holds no top-level domain. *)
Lemma match_domain_letters s :
  all_chars isAlpha s = true -> match_domain s = None.
Proof.
  induction s as [|c t IH]; [reflexivity|].
  simpl. intros H. apply andb_true_iff in H as [Hc Ht].
  rewrite (IH Ht). destruct (isDomainChar c); [|reflexivity].
  destruct t as [|a u]; [reflexivity|].
  simpl in Ht. apply andb_true_iff in Ht as [Ha _].
  destruct a as [[] [] [] [] [] [] [] []]; try reflexivity; discriminate.
Qed.

Lemma match_tld_letters tld :
  all_chars isAlpha tld = true -> (2 <= String.length tld)%nat ->
  match_tld (String "."%char tld) = Some (String "."%char tld, EmptyString).
Proof.
  intros Ha Hl. unfold match_tld. rewrite (span_all _ _ Ha).
  by destruct (Nat.leb_spec 2 (String.length tld)); [|lia].
Qed.

(** The domain group takes a whole host name with its top-level domain. *)
Lemma match_domain_whole host tld :
  host <> EmptyString -> all_chars isDomainChar host = true ->
  all_chars isAlpha tld = true -> (2 <= String.length tld)%nat ->
  match_domain (host +:+ String "."%char tld)
  = Some (host +:+ String "."%char tld, EmptyString).
Proof.
  intros Hne Hh Ha Hl. induction host as [|c h IH]; [done|].
  simpl in Hh. apply andb_true_iff in Hh as [Hc Hh].
  change (String c h +:+ String "."%char tld)
    with (String c (h +:+ String "."%char tld)).
  cbn [match_domain]. rewrite Hc.
  destruct h as [|c' h'].
  - change (EmptyString +:+ String "."%char tld) with (String "."%char tld).
    assert (E : match_domain (String "."%char tld) = None).
    { cbn [match_domain]. rewrite (match_domain_letters _ Ha).
      destruct (isDomainChar "."%char); [|reflexivity].
      destruct tld as [|a u]; [reflexivity|].
      simpl in Ha. apply andb_true_iff in Ha as [Ha' _].
      destruct a as [[] [] [] [] [] [] [] []]; try reflexivity; discriminate. }
    rewrite E, (match_tld_letters _ Ha Hl). reflexivity.
  - rewrite (IH ltac:(discriminate) Hh). reflexivity.
Qed.

Lemma match_email_whole l d :
  l <> EmptyString -> all_chars isLocalChar l = true ->
  match_domain d = Some (d, EmptyString) ->
  match_email (l +:+ String "@"%char d) = Some (l, d, EmptyString).
Proof.
  intros Hne Hl Hd. induction l as [|c t IH]; [done|].
  simpl in Hl. apply andb_true_iff in Hl as [Hc Ht].
  change (String c t +:+ String "@"%char d)
    with (String c (t +:+ String "@"%char d)).
  cbn [match_email]. rewrite Hc.
  destruct t as [|c' t'].
  - change (EmptyString +:+ String "@"%char d) with (String "@"%char d).
    assert (E : match_email (String "@"%char d) = None) by reflexivity.
    rewrite E, Hd. reflexivity.
  - rewrite (IH ltac:(discriminate) Ht). reflexivity.
Qed.

End RedactionFacts.

(** X19.  On a field that is neither a password field nor named after a
    sensitive keyword, [maskSensitiveData] returns a value without [@]
    unchanged: the only rewriting left is the e-mail redaction. *)
Theorem maskSensitiveData_keeps_plain_text (value : string)
    (element : Masking.field) :
  Redaction.sensitive element = false ->
  JsString.includes value "@" = false ->
  Masking.maskSensitiveData value element = value.
Proof.
  intros Hs Hat. rewrite (maskSensitiveData_plain value element Hs).
  by apply replace_emails_without_at.
Qed.

Lemma maskSensitiveData_keeps_plain_text_witness :
  Masking.maskSensitiveData "rocq prover 9.3"
    (Recorder.el_field Samples.search_box) = "rocq prover 9.3".
Proof.
  apply (maskSensitiveData_keeps_plain_text "rocq prover 9.3"
           (Recorder.el_field Samples.search_box)); reflexivity.
Defined.

(** X20.  On such a field a value that is one e-mail address keeps the
    first character of its local part and its whole domain; the rest of the
    local part is replaced by three asterisks, whatever its length. *)
Theorem maskSensitiveData_redacts_address (l host tld : string)
    (element : Masking.field) :
  Redaction.sensitive element = false ->
  l <> EmptyString ->
  Redaction.all_chars Masking.isLocalChar l = true ->
  host <> EmptyString ->
  Redaction.all_chars Masking.isDomainChar host = true ->
  Redaction.all_chars JsString.isAlpha tld = true ->
  (2 <= String.length tld)%nat ->
  Masking.maskSensitiveData (l +:+ "@" +:+ host +:+ "." +:+ tld) element
  = JsString.charAt0 l +:+ "***@" +:+ host +:+ "." +:+ tld.
Proof.
  intros Hs Hl Hlc Hh Hhc Ht Htl.
  rewrite (maskSensitiveData_plain _ element Hs).
  change ("@" +:+ host +:+ "." +:+ tld)
    with (String "@"%char (host +:+ String "."%char tld)).
  change ("***@" +:+ host +:+ "." +:+ tld)
    with ("***@" +:+ (host +:+ String "."%char tld)).
  set (d := host +:+ String "."%char tld).
  pose proof (match_email_whole l d Hl Hlc
                (match_domain_whole host tld Hh Hhc Ht Htl)) as E.
  destruct l as [|c t]; [done|].
  change (String c t +:+ String "@"%char d)
    with (String c (t +:+ String "@"%char d)) in E |- *.
  cbn [Masking.replace_emails]. rewrite E.
  rewrite replace_emails_skip_all by (simpl; lia).
  cbn [JsString.charAt0].
  match goal with |- ?x +:+ EmptyString = _ => generalize x end.
  intros x. induction x as [|a x IH]; [reflexivity|].
  change (String a x +:+ EmptyString) with (String a (x +:+ EmptyString)).
  by rewrite IH.
Qed.

Lemma maskSensitiveData_redacts_address_witness :
  Masking.maskSensitiveData "john.doe@mail.example.com"
    (Recorder.el_field Samples.search_box)
  = "j***@mail.example.com".
Proof.
  apply (maskSensitiveData_redacts_address "john.doe" "mail.example" "com"
           (Recorder.el_field Samples.search_box));
    try reflexivity; try discriminate. simpl. lia.
Defined.
